(** * VQGDuoLinguo: vocabulary, batching and evaluation utilities

    A shallow embedding of [utils.py] (pad_sequences, sort_batch,
    preprocess_text, build_vocab, build_answer) and of the control code of
    [main.py] (the logging branch of the training loop and
    compute_validation_metrics), with the properties the specification states
    about them.

    Conventions.
    - Python [int] is [Z]; [len] is a [nat] injected into [Z] where the
      source compares it with an [int].
    - Python [str] is [string] (a sequence of 8-bit characters).
    - A Python [dict] keeps its keys in insertion order and the source relies
      on it ([list(word_count.keys())] fixes the vocabulary indices), so a
      dict is an association list with unique keys, updated in place.
    - A raised exception is the [Raise] branch of [result]. *)

From Stdlib Require Import String Ascii Bool ZArith QArith Lia.
From Stdlib Require Import List Permutation Sorted.
Import ListNotations.

Open Scope string_scope.
Open Scope list_scope.
Open Scope Z_scope.

(** ** Exceptions and the error monad *)

Inductive exn : Type :=
| TypeError
| IndexError
| KeyError
| ValueError
| OverflowError
| ZeroDivisionError.

Inductive result (A : Type) : Type :=
| Ok (a : A)
| Raise (e : exn).

Arguments Ok {A} a.
Arguments Raise {A} e.

Definition bind {A B : Type} (r : result A) (k : A -> result B) : result B :=
  match r with
  | Ok a => k a
  | Raise e => Raise e
  end.

Notation "x <- c ;; k" := (bind c (fun x => k))
  (at level 61, c at next level, right associativity).

Definition returns {A : Type} (r : result A) : Prop := exists a, r = Ok a.

(** ** Python sequences *)

Definition len {A : Type} (l : list A) : Z := Z.of_nat (length l).

(** [l[i]] for a non-negative literal index [i]. *)
Definition py_index {A : Type} (l : list A) (i : nat) : result A :=
  match nth_error l i with
  | Some x => Ok x
  | None => Raise IndexError
  end.

(** [l[:k]]: the first [k] elements, and for a negative [k] all but the last
    [-k] elements. *)
Definition py_slice_to {A : Type} (k : Z) (l : list A) : list A :=
  if 0 <=? k then firstn (Z.to_nat k) l
  else firstn (length l - Z.to_nat (- k)) l.

(** [enumerate(l)], counting from [i]. *)
Fixpoint enumerate_from {A : Type} (i : Z) (l : list A) : list (Z * A) :=
  match l with
  | [] => []
  | x :: l' => (i, x) :: enumerate_from (i + 1) l'
  end.

Definition enumerate {A : Type} (l : list A) : list (Z * A) :=
  enumerate_from 0 l.

(** ** Python strings *)

Definition tab : ascii := ascii_of_nat 9.

(** The ASCII characters [str.strip()] removes. *)
Definition is_space (c : ascii) : bool :=
  let n := nat_of_ascii c in
  (((9 <=? n) && (n <=? 13)) || ((28 <=? n) && (n <=? 32)))%nat.

Fixpoint lstrip (s : string) : string :=
  match s with
  | EmptyString => EmptyString
  | String c s' => if is_space c then lstrip s' else s
  end.

Fixpoint rstrip (s : string) : string :=
  match s with
  | EmptyString => EmptyString
  | String c s' =>
      match rstrip s' with
      | EmptyString => if is_space c then EmptyString else String c EmptyString
      | r => String c r
      end
  end.

Definition strip (s : string) : string := rstrip (lstrip s).

(** [s.split(sep)] for a one-character separator: never the empty list. *)
Fixpoint split (sep : ascii) (s : string) : list string :=
  match s with
  | EmptyString => [EmptyString]
  | String c s' =>
      if Ascii.eqb c sep then EmptyString :: split sep s'
      else match split sep s' with
           | [] => [String c EmptyString]
           | w :: ws => String c w :: ws
           end
  end.

(** ** Python dicts: insertion-ordered association lists *)

Section Dict.
Context {K V : Type}.
Variable eqb : K -> K -> bool.

Definition dict : Type := list (K * V).

(** [d.get(k)] *)
Fixpoint dict_get (d : dict) (k : K) : option V :=
  match d with
  | [] => None
  | (k', v) :: d' => if eqb k' k then Some v else dict_get d' k
  end.

(** [k in d] *)
Definition dict_mem (d : dict) (k : K) : bool :=
  match dict_get d k with
  | Some _ => true
  | None => false
  end.

(** [d[k]] *)
Definition dict_getitem (d : dict) (k : K) : result V :=
  match dict_get d k with
  | Some v => Ok v
  | None => Raise KeyError
  end.

(** [d[k] = v]: an existing key keeps its position, a new key goes last. *)
Fixpoint dict_set (d : dict) (k : K) (v : V) : dict :=
  match d with
  | [] => [(k, v)]
  | (k', v') :: d' =>
      if eqb k' k then (k', v) :: d' else (k', v') :: dict_set d' k v
  end.

(** [d.update(items)], which is also how [{**d, **e}] and a dict
    comprehension fill the new dict, item by item. *)
Definition dict_update (d : dict) (items : list (K * V)) : dict :=
  fold_left (fun acc kv => dict_set acc (fst kv) (snd kv)) items d.

Definition dict_of_items (items : list (K * V)) : dict :=
  dict_update [] items.

Definition dict_keys (d : dict) : list K := map fst d.
Definition dict_values (d : dict) : list V := map snd d.
Definition dict_len (d : dict) : Z := len d.

End Dict.

(** ** Sorting as [sorted(..., reverse=True, key=...)] does: stable *)

(** [x] stood before every element of [l] in the input, so it stays before
    the elements whose key equals its own. *)
Fixpoint insert_desc {A : Type} (key : A -> Z) (x : A) (l : list A) : list A :=
  match l with
  | [] => [x]
  | y :: l' =>
      if key x <? key y then y :: insert_desc key x l' else x :: y :: l'
  end.

Definition sorted_desc {A : Type} (key : A -> Z) (l : list A) : list A :=
  fold_right (insert_desc key) [] l.

(** * utils.py *)

(** ** pad_sequences *)

Definition int64_min : Z := - 2 ^ 63.
Definition int64_max : Z := 2 ^ 63 - 1.

Definition in_int64 (x : Z) : bool := (int64_min <=? x) && (x <=? int64_max).

(** [np.zeros((n,), np.int64)]: a negative dimension is a ValueError. *)
Definition np_zeros (n : Z) : result (list Z) :=
  if n <? 0 then Raise ValueError else Ok (repeat 0 (Z.to_nat n)).

(** The conversion of a list of Python ints to an int64 array. *)
Fixpoint as_int64 (vals : list Z) : result (list Z) :=
  match vals with
  | [] => Ok []
  | x :: vals' =>
      if in_int64 x then (vs <- as_int64 vals' ;; Ok (x :: vs))
      else Raise OverflowError
  end.

(** [arr[:stop] = vals]: the values fill the slice when there are as many
    values as places, one value is broadcast, anything else is a ValueError. *)
Definition np_assign_to (arr : list Z) (stop : nat) (vals : list Z)
  : result (list Z) :=
  let n := Nat.min stop (length arr) in
  vs <- as_int64 vals ;;
  if (length vs =? n)%nat then Ok (vs ++ skipn n arr)
  else if (length vs =? 1)%nat then Ok (repeat (hd 0 vs) n ++ skipn n arr)
  else Raise ValueError.

Definition pad_sequences (seq : list Z) (max_len : Z) : result (list Z) :=
  padded <- np_zeros max_len ;;
  if len seq >? max_len
  then np_assign_to padded (length padded) (py_slice_to max_len seq)
  else np_assign_to padded (length seq) seq.

(** Modelled from the spec: the sample encoder (dataloader.py) is not among
    the source files. Section 4.3: "truncate to max_seq_length if longer,
    else right-pad with <PAD>'s index (0); record the true (pre-pad,
    pre-truncate) token count, floored at max_seq_length if truncation
    occurred". The padding itself is [pad_sequences] above. *)
Definition encode_question (token_ids : list Z) (max_seq_length : Z)
  : result (list Z * Z) :=
  padded <- pad_sequences token_ids max_seq_length ;;
  let true_length :=
    if len token_ids >? max_seq_length then max_seq_length
    else len token_ids in
  Ok (padded, true_length).

(** ** sort_batch *)

(** [t[idx]] for an index tensor [idx]: row [i] of the result is row
    [idx[i]] of [t]; an index past the end is an IndexError. *)
Fixpoint index_select {A : Type} (t : list A) (idx : list nat)
  : result (list A) :=
  match idx with
  | [] => Ok []
  | i :: idx' =>
      x <- py_index t i ;;
      xs <- index_select t idx' ;;
      Ok (x :: xs)
  end.

(** A length tensor has no more than one dimension here, and its sort is a
    sort of integers. *)
Definition non_increasing (l : list Z) : Prop :=
  forall i j x y, (i <= j)%nat ->
    nth_error l i = Some x -> nth_error l j = Some y -> y <= x.

(** What [Tensor.sort(dim=0, descending=True)] promises of the pair
    (values, indices) it returns. The library does not fix the order of
    equal values, so [sort_batch] is stated over any sort with this
    contract. *)
Definition sorts_descending (sort : list Z -> list Z * list nat) : Prop :=
  forall t,
    Permutation (snd (sort t)) (seq 0 (length t)) /\
    index_select t (snd (sort t)) = Ok (fst (sort t)) /\
    non_increasing (fst (sort t)).

(** One such sort: the stable one. *)
Definition stable_sort (t : list Z) : list Z * list nat :=
  let s := sorted_desc fst (combine t (seq 0 (length t))) in
  (map fst s, map snd s).

Section SortBatch.
Context {Image Question Answer : Type}.
Variable tensor_sort : list Z -> list Z * list nat.

Definition sort_batch (images : list Image) (questions : list Question)
    (answers : list Answer) (ques_seq_lens : list Z)
  : result (list Image * list Question * list Answer * list Z) :=
  let '(ques_seq_lens', idx) := tensor_sort ques_seq_lens in
  questions' <- index_select questions idx ;;
  answers' <- index_select answers idx ;;
  images' <- index_select images idx ;;
  Ok (images', questions', answers', ques_seq_lens').

End SortBatch.

(** ** preprocess_text *)

Record Token : Type := { text : string }.

(** A loaded spaCy pipeline: it maps a string to the tokens of its Doc. *)
Definition Nlp : Type := string -> list Token.

Definition preprocess_text (input_string : string) (nlp : Nlp) : list string :=
  let doc := nlp input_string in
  let tokens := map text doc in
  tokens.

(** A call of a function with two required positional parameters. An
    argument the call site does not pass is [None]: Python raises TypeError
    before the body runs. *)
Definition call2 {A B R : Type} (f : A -> B -> R) (a : option A) (b : option B)
  : result R :=
  match a, b with
  | Some x, Some y => Ok (f x y)
  | _, _ => Raise TypeError
  end.

(** ** build_vocab *)

Definition helper_tokens : dict (K:=string) (V:=Z) :=
  [("<PAD>", 0); ("<UNKNOWN>", 1); ("s", 2); ("/s", 3)].

(** The body of [for word in wds]. *)
Definition count_word (word_count : dict) (word : string) : dict :=
  match dict_get String.eqb word_count word with
  | None => dict_set String.eqb word_count word 0
  | Some c => dict_set String.eqb word_count word (c + 1)
  end.

(** [for sample in data], with the call that tokenizes a question as a
    parameter: [build_vocab] below is the source's call. *)
Fixpoint scan_questions (tokenize : string -> result (list string))
    (data : list string) (word_count : dict) (max_sequence_length : Z)
  : result (dict (K:=string) (V:=Z) * Z) :=
  match data with
  | [] => Ok (word_count, max_sequence_length)
  | sample :: data' =>
      field <- py_index (split tab sample) 1 ;;
      let question := strip field in
      wds <- tokenize question ;;
      let word_count := fold_left count_word wds word_count in
      let max_sequence_length :=
        if len wds >? max_sequence_length then len wds
        else max_sequence_length in
      scan_questions tokenize data' word_count max_sequence_length
  end.

(** [for word in word_list] *)
Fixpoint select_words (word_count : dict) (min_word_count : Z)
    (word_list : list string) (vocab_tokens : dict) (vocab_idx : Z)
  : result (dict (K:=string) (V:=Z)) :=
  match word_list with
  | [] => Ok vocab_tokens
  | word :: word_list' =>
      c <- dict_getitem String.eqb word_count word ;;
      if c >=? min_word_count
      then select_words word_count min_word_count word_list'
             (dict_set String.eqb vocab_tokens word vocab_idx) (vocab_idx + 1)
      else select_words word_count min_word_count word_list'
             vocab_tokens vocab_idx
  end.

Definition swap {A B : Type} (p : A * B) : B * A := (snd p, fst p).

Definition build_vocab_with (tokenize : string -> result (list string))
    (data : list string) (min_word_count : Z)
  : result (dict (K:=string) (V:=Z) * dict (K:=Z) (V:=string) * Z) :=
  counted <- scan_questions tokenize data [] 0 ;;
  let '(word_count, max_sequence_length) := counted in
  let num_helper_tokens := len helper_tokens in
  let word_list := dict_keys word_count in
  vocab_tokens <-
    select_words word_count min_word_count word_list [] num_helper_tokens ;;
  let word2idx :=
    dict_update String.eqb (dict_of_items String.eqb helper_tokens)
      vocab_tokens in
  let idx2word := dict_of_items Z.eqb (map swap word2idx) in
  Ok (word2idx, idx2word, max_sequence_length).

(** The function as the source has it: [preprocess_text(question)], one
    argument for two parameters. *)
Definition build_vocab (data : list string) (min_word_count : Z)
  : result (dict (K:=string) (V:=Z) * dict (K:=Z) (V:=string) * Z) :=
  build_vocab_with
    (fun question => call2 preprocess_text (Some question) None)
    data min_word_count.

(** The call the two-parameter tokenizer asks for,
    [preprocess_text(question, nlp)]. *)
Definition tokenize_with (nlp : Nlp) (question : string)
  : result (list string) :=
  call2 preprocess_text (Some question) (Some nlp).

(** What [for word in word_list] keeps true of [vocab_tokens] and
    [vocab_idx]: distinct keys, distinct values, every value an index
    allocated after the reserved block and before [vocab_idx]. *)
Definition vocab_inv (vocab_tokens : dict (K:=string) (V:=Z)) (vocab_idx : Z)
  : Prop :=
  NoDup (dict_keys vocab_tokens) /\
  NoDup (dict_values vocab_tokens) /\
  Forall (fun v => 4 <= v < vocab_idx) (dict_values vocab_tokens).

(** ** build_answer *)

Fixpoint count_answers (data : list string) (answer_frequency : dict)
  : result (dict (K:=string) (V:=Z)) :=
  match data with
  | [] => Ok answer_frequency
  | sample :: data' =>
      field <- py_index (split tab sample) 2 ;;
      let answer := strip field in
      count_answers data'
        (match dict_get String.eqb answer_frequency answer with
         | Some c => dict_set String.eqb answer_frequency answer (c + 1)
         | None => dict_set String.eqb answer_frequency answer 1
         end)
  end.

Definition build_answer (data : list string) (K : Z)
  : result (dict (K:=string) (V:=Z) * dict (K:=Z) (V:=string)) :=
  answer_frequency <- count_answers data [] ;;
  let top_k_answers := py_slice_to K (sorted_desc snd answer_frequency) in
  let top_k_answers := map fst top_k_answers in
  let top_k_answers := "UNKNOWN" :: top_k_answers in
  let label2idx :=
    dict_of_items String.eqb (map swap (enumerate top_k_answers)) in
  let idx2label := dict_of_items Z.eqb (enumerate top_k_answers) in
  Ok (label2idx, idx2label).

(** * main.py *)

(** ** Arithmetic that can raise *)

(** Floats are modelled by the rationals they approximate. [0] and [100]
    are floats and rounding is monotone, so a bound of an exact quotient by
    [0] or [100] is a bound of the rounded one, and a quotient above 100 by
    more than a rounding error stays above. *)

(** [a % b] on ints: the sign of the divisor, as [Z.modulo]. *)
Definition py_mod (a b : Z) : result Z :=
  if b =? 0 then Raise ZeroDivisionError else Ok (a mod b).

(** [a // b] on ints: the floor, as [Z.div]. *)
Definition py_floordiv (a b : Z) : result Z :=
  if b =? 0 then Raise ZeroDivisionError else Ok (a / b).

(** [x / n] for a Python float [x] and an int [n]. *)
Definition float_div (x : Q) (n : Z) : result Q :=
  if n =? 0 then Raise ZeroDivisionError else Ok (x / inject_Z n)%Q.

(** ** The training loop: logging, time estimate, checkpoints *)

(** What the loop control reads of the arguments, and [clock], the elapsed
    hours [(time() - start_time) / 3600] read at a step. The forward and
    backward passes are opaque and leave the control flow alone; the
    validation inside the logging branch is the optional
    [if args.val_file:] and is left out. *)
Record LoopArgs : Type := {
  log_interval : Z;
  save_interval : Z;
  num_epochs : Z;
  steps_per_epoch : Z;
  clock : Z -> Q
}.

Record LoopState : Type := {
  curr_step : Z;
  logged : list (Z * Q);     (* (step shown, time left) of every log line *)
  saved : list Z             (* the step of every checkpoint *)
}.

(** [total_time = (time_elapsed / curr_step) * steps_per_epoch * n_epochs;
    time_left = total_time - time_elapsed] *)
Definition estimate_time_left (args : LoopArgs) (time_elapsed : Q) (step : Z)
  : result Q :=
  per_step <- float_div time_elapsed step ;;
  let total_time :=
    (per_step * inject_Z (steps_per_epoch args)
       * inject_Z (num_epochs args))%Q in
  Ok (total_time - time_elapsed)%Q.

(** [(curr_step + 1) % args.log_interval == 0 or curr_step == 1] *)
Definition log_due (args : LoopArgs) (step : Z) : result bool :=
  r <- py_mod (step + 1) (log_interval args) ;;
  Ok ((r =? 0) || (step =? 1)).

(** The body of [for batch_data in train_loader] after the optimizer step. *)
Definition train_step (args : LoopArgs) (st : LoopState) : result LoopState :=
  let step := curr_step st in
  due <- log_due args step ;;
  logged' <-
    (if due : bool
     then (time_left <- estimate_time_left args (clock args step) step ;;
           Ok (logged st ++ [(step + 1, time_left)]))
     else Ok (logged st)) ;;
  r <- py_mod (step + 1) (save_interval args) ;;
  let saved' := if r =? 0 then saved st ++ [step + 1] else saved st in
  Ok {| curr_step := step + 1; logged := logged'; saved := saved' |}.

Fixpoint train_batches (args : LoopArgs) (batches : nat) (st : LoopState)
  : result LoopState :=
  match batches with
  | O => Ok st
  | S batches' => st' <- train_step args st ;; train_batches args batches' st'
  end.

Fixpoint train_epochs (args : LoopArgs) (epochs : nat) (st : LoopState)
  : result LoopState :=
  match epochs with
  | O => Ok st
  | S epochs' =>
      st' <- train_batches args (Z.to_nat (steps_per_epoch args)) st ;;
      train_epochs args epochs' st'
  end.

Definition train (args : LoopArgs) : result LoopState :=
  train_epochs args (Z.to_nat (num_epochs args))
    {| curr_step := 0; logged := []; saved := [] |}.

(** ** compute_validation_metrics *)

Record Batch (Image Question : Type) : Type := {
  image : list Image;
  question : list Question;
  ques_len : list Z;
  label : list Z
}.

Arguments image {Image Question} b.
Arguments question {Image Question} b.
Arguments ques_len {Image Question} b.
Arguments label {Image Question} b.

Record DataLoader (Image Question : Type) : Type := {
  batch_size : Z;
  batches : list (Batch Image Question)
}.

Arguments batch_size {Image Question} d.
Arguments batches {Image Question} d.

Record Metrics : Type := { accuracy : Q; loss : Q }.

(** [torch.argmax] of one row of logits: the first maximal entry. *)
Fixpoint argmax_from (best : Q) (best_at next : Z) (row : list Q) : Z :=
  match row with
  | [] => best_at
  | x :: row' =>
      if Qle_bool x best then argmax_from best best_at (next + 1) row'
      else argmax_from x next (next + 1) row'
  end.

Definition argmax (row : list Q) : Z :=
  match row with
  | [] => 0
  | x :: row' => argmax_from x 0 1 row'
  end.

(** [(label == label_predicted).sum().item()] *)
Definition count_correct (labels predicted : list Z) : Z :=
  len (filter (fun p => fst p =? snd p) (combine labels predicted)).

Section Validation.
Context {Image Question : Type}.
Variable tensor_sort : list Z -> list Z * list nat.
(** The forward pass, one row of class logits per sample, and
    [F.cross_entropy(label_logits, label, reduction='mean')]. *)
Variable model : list Image -> list Question -> list Z -> list (list Q).
Variable cross_entropy : list (list Q) -> list Z -> Q.

(** [for i, batch in enumerate(dataloader)], with the number of batches the
    loop has taken from the stream as a ghost counter. *)
Fixpoint evaluate_batches (n_iters i : Z) (stream : list (Batch Image Question))
    (loss : Q) (num_correct : Z) (consumed : nat)
  : result (Q * Z * nat) :=
  match stream with
  | [] => Ok (loss, num_correct, consumed)
  | batch :: stream' =>
      sorted <- sort_batch tensor_sort (image batch) (question batch)
                  (label batch) (ques_len batch) ;;
      let '(image, question, label, ques_len) := sorted in
      let label_logits := model image question ques_len in
      let label_predicted := map argmax label_logits in
      let num_correct := num_correct + count_correct label label_predicted in
      let loss := (loss + cross_entropy label_logits label)%Q in
      if i >=? n_iters then Ok (loss, num_correct, S consumed)
      else evaluate_batches n_iters (i + 1) stream' loss num_correct
             (S consumed)
  end.

(** The function with what it leaves implicit made visible: the metrics,
    the number of batches consumed and the denominator [total]. Once the
    accuracy is computed [n_iters] is not zero, so the last division is one
    of numbers whatever [loss] holds. *)
Definition validation_run (dataloader : DataLoader Image Question) (size : Z)
  : result (Metrics * nat * Z) :=
  let batch_size := batch_size dataloader in
  n_iters <- py_floordiv size batch_size ;;
  r <- evaluate_batches n_iters 0 (batches dataloader) 0%Q 0 O ;;
  let '(loss, num_correct, consumed) := r in
  let total := n_iters * batch_size in
  accuracy <- float_div (100 * inject_Z num_correct)%Q total ;;
  loss <- float_div loss n_iters ;;
  Ok ({| accuracy := accuracy; loss := loss |}, consumed, total).

Definition compute_validation_metrics
    (dataloader : DataLoader Image Question) (size : Z) : result Metrics :=
  r <- validation_run dataloader size ;;
  Ok (fst (fst r)).

End Validation.

(** A batch as a loader with [drop_last=True] yields it: [n] samples in
    each of its four tensors. *)
Definition full_batch {Image Question : Type} (n : Z)
    (b : Batch Image Question) : Prop :=
  len (image b) = n /\ len (question b) = n /\
  len (ques_len b) = n /\ len (label b) = n.

(** * Sample inputs *)

(** A line of the corpus file: [img_name \t question \t answer]. *)
Definition record_line (img question answer : string) : string :=
  (img ++ String tab (question ++ String tab answer))%string.

(** prepare_data.py writes a question as its words joined by commas; this
    pipeline cuts it at the commas. *)
Definition comma_nlp : Nlp :=
  fun s => map (fun w => {| text := w |}) (split "," s).

Definition sample_corpus : list string :=
  [ record_line "a.jpg" "is,it,a,cat" "yes";
    record_line "b.jpg" "is,it,s,s" "no";
    record_line "c.jpg" "cat,cat" "yes" ].

Definition sample_word2idx : dict (K:=string) (V:=Z) :=
  [("<PAD>", 0); ("<UNKNOWN>", 1); ("s", 7); ("/s", 3);
   ("is", 4); ("it", 5); ("cat", 6)].

Definition sample_idx2word : dict (K:=Z) (V:=string) :=
  [(0, "<PAD>"); (1, "<UNKNOWN>"); (7, "s"); (3, "/s");
   (4, "is"); (5, "it"); (6, "cat")].

Definition sample_word_count : dict (K:=string) (V:=Z) :=
  [("is", 1); ("it", 1); ("a", 0); ("cat", 2); ("s", 1)].

(** * Counting by hand *)

(** The words of all the questions of the corpus, in corpus order, as the
    loop of [build_vocab] meets them. *)
Fixpoint corpus_words (tokenize : string -> result (list string))
    (data : list string) : result (list string) :=
  match data with
  | [] => Ok []
  | sample :: data' =>
      field <- py_index (split tab sample) 1 ;;
      wds <- tokenize (strip field) ;;
      rest <- corpus_words tokenize data' ;;
      Ok (wds ++ rest)
  end.

(** How often [w] occurs among [words]. *)
Definition occurrences (w : string) (words : list string) : Z :=
  len (filter (String.eqb w) words).

Definition words_of_sample_corpus : list string :=
  ["is"; "it"; "a"; "cat"; "is"; "it"; "s"; "s"; "cat"; "cat"].

Definition sample_label2idx : dict (K:=string) (V:=Z) :=
  [("UNKNOWN", 0); ("yes", 1); ("no", 2)].

Definition sample_idx2label : dict (K:=Z) (V:=string) :=
  [(0, "UNKNOWN"); (1, "yes"); (2, "no")].

(** A batch of two samples whose labels are both class 1, a model that
    always puts class 1 first, and a loss of one half per batch. *)
Definition sample_batch : Batch string (list Z) :=
  {| image := ["a.jpg"; "b.jpg"];
     question := [[4; 5; 6; 0]; [4; 5; 0; 0]];
     ques_len := [3; 2];
     label := [1; 1] |}.

Definition sample_model (images : list string) (questions : list (list Z))
    (lens : list Z) : list (list Q) :=
  map (fun _ => [0; 1; 0]%Q) images.

Definition sample_cross_entropy (logits : list (list Q)) (labels : list Z)
  : Q := 1 # 2.

Definition sample_loader (n : nat) : DataLoader string (list Z) :=
  {| batch_size := 2; batches := repeat sample_batch n |}.

Definition sample_args (interval : Z) : LoopArgs :=
  {| log_interval := interval;
     save_interval := 3000;
     num_epochs := 2;
     steps_per_epoch := 3;
     clock := fun step => (inject_Z (step + 1) / 10)%Q |}.

(** The answers of the corpus, one per sample, in corpus order, as the loop
    of [build_answer] reads them. *)
Fixpoint corpus_answers (data : list string) : result (list string) :=
  match data with
  | [] => Ok []
  | sample :: data' =>
      field <- py_index (split tab sample) 2 ;;
      rest <- corpus_answers data' ;;
      Ok (strip field :: rest)
  end.

(** The distinct words of a list in the order of their first occurrence,
    those of [seen] left out. *)
Fixpoint first_occurrences_from (seen words : list string) : list string :=
  match words with
  | [] => []
  | w :: words' =>
      if existsb (String.eqb w) seen
      then first_occurrences_from seen words'
      else w :: first_occurrences_from (seen ++ [w]) words'
  end.

Definition first_occurrences (words : list string) : list string :=
  first_occurrences_from [] words.

(** The words that get an index of their own: seen more than
    [min_word_count] times, in the order of their first occurrence. *)
Definition kept_words (min_word_count : Z) (words : list string)
  : list string :=
  filter (fun w => min_word_count + 1 <=? occurrences w words)
    (first_occurrences words).

(** The test of [for word in word_list] on a word of the frequency dict. *)
Definition meets_threshold (word_count : dict (K:=string) (V:=Z))
    (min_word_count : Z) (word : string) : bool :=
  match dict_get String.eqb word_count word with
  | Some c => c >=? min_word_count
  | None => false
  end.

(** The token counts of the questions, one per sample. *)
Fixpoint question_lengths (tokenize : string -> result (list string))
    (data : list string) : result (list Z) :=
  match data with
  | [] => Ok []
  | sample :: data' =>
      field <- py_index (split tab sample) 1 ;;
      wds <- tokenize (strip field) ;;
      rest <- question_lengths tokenize data' ;;
      Ok (len wds :: rest)
  end.

(** * utils.py: the functions that read the corpus file *)

Definition newline : ascii := ascii_of_nat 10.

(** The dict that [save_vocab] pickles. *)
Record Vocab : Type := {
  vocab_word2idx : dict (K:=string) (V:=Z);
  vocab_idx2word : dict (K:=Z) (V:=string);
  vocab_label2idx : dict (K:=string) (V:=Z);
  vocab_idx2label : dict (K:=Z) (V:=string);
  vocab_max_seq_length : Z
}.

(** [save_vocab], from the text read from [train_file] to the dict it
    would write; opening the two files and the two prints are left out. *)
Definition save_vocab (file_text : string) (min_word_count K : Z)
  : result Vocab :=
  let train_data := split newline (strip file_text) in
  built <- build_vocab train_data min_word_count ;;
  let '(word2idx, idx2word, max_seq_length) := built in
  labels <- build_answer train_data K ;;
  let '(label2idx, idx2label) := labels in
  Ok {| vocab_word2idx := word2idx;
        vocab_idx2word := idx2word;
        vocab_label2idx := label2idx;
        vocab_idx2label := idx2label;
        vocab_max_seq_length := max_seq_length |}.

(** The loop of [filter_samples_by_label] over the lines [readline]
    returns, one after the other; the empty string is how [readline]
    reports the end of the file, and [while line:] stops there. [labels]
    is the set built from the list, tested by membership. *)
Fixpoint filter_lines (labels : list string) (lines : list string)
    (data : list string) : result (list string) :=
  match lines with
  | [] => Ok data
  | line :: lines' =>
      if String.eqb line "" then Ok data
      else
        answer <- py_index (split tab (strip line)) 2 ;;
        let data :=
          if existsb (String.eqb answer) labels then data ++ [line]
          else data in
        filter_lines labels lines' data
  end.

Definition filter_samples_by_label (file_lines : list string)
    (labels : list string) : result (list string) :=
  filter_lines labels file_lines [].

(** The answer [filter_samples_by_label] reads off a line, and its test. *)
Definition line_answer (line : string) : option string :=
  nth_error (split tab (strip line)) 2.

Definition answer_in (labels : list string) (line : string) : bool :=
  match line_answer line with
  | Some answer => existsb (String.eqb answer) labels
  | None => false
  end.

(** * The steps of a run, for stating what the loop did *)

(** [first], [first + 1], ...: [n] consecutive step numbers. *)
Fixpoint steps_from (first : Z) (n : nat) : list Z :=
  match n with
  | O => []
  | S n' => first :: steps_from (first + 1) n'
  end.

(** The estimate the loop logs when [curr_step] is [step]. *)
Definition time_left_at (args : LoopArgs) (step : Z) : Q :=
  (clock args step / inject_Z step * inject_Z (steps_per_epoch args)
     * inject_Z (num_epochs args) - clock args step)%Q.

(** The steps, counted from 1 as the log line shows them, at which the
    loop logs and at which it saves. *)
Definition logs_at (args : LoopArgs) (s : Z) : bool :=
  (s mod log_interval args =? 0) || (s =? 2).

Definition saves_at (args : LoopArgs) (s : Z) : bool :=
  s mod save_interval args =? 0.

Definition total_steps (args : LoopArgs) : nat :=
  (Z.to_nat (num_epochs args) * Z.to_nat (steps_per_epoch args))%nat.

(** * prepare_data.py *)

(** ** More of Python's strings *)

(** [c in s] for a character [c]. *)
Fixpoint has_char (c : ascii) (s : string) : bool :=
  match s with
  | EmptyString => false
  | String c' s' => Ascii.eqb c' c || has_char c s'
  end.

(** Every character of [s] passes the test [p]. *)
Fixpoint all_chars (p : ascii -> bool) (s : string) : bool :=
  match s with
  | EmptyString => true
  | String c s' => p c && all_chars p s'
  end.

Definition not_space (c : ascii) : bool := negb (is_space c).

(** [s.split()] with no argument: the maximal runs of characters that are
    no whitespace. *)
Fixpoint split_ws (s : string) : list string :=
  match s with
  | EmptyString => []
  | String c s' =>
      if is_space c then split_ws s'
      else match s' with
           | EmptyString => [String c EmptyString]
           | String c' _ =>
               if is_space c' then String c EmptyString :: split_ws s'
               else match split_ws s' with
                    | [] => [String c EmptyString]
                    | w :: ws => String c w :: ws
                    end
           end
  end.

(** [sep.join(words)] *)
Fixpoint join (sep : string) (words : list string) : string :=
  match words with
  | [] => EmptyString
  | [w] => w
  | w :: words' => (w ++ sep ++ join sep words')%string
  end.

(** [n * s] for an int [n]: the empty string when [n] is not positive. *)
Fixpoint repeat_string (n : nat) (s : string) : string :=
  match n with
  | O => EmptyString
  | S n' => (s ++ repeat_string n' s)%string
  end.

Definition py_mul_string (n : Z) (s : string) : string :=
  repeat_string (Z.to_nat n) s.

(** [str(n)] for an int: decimal digits, most significant first, a minus
    sign in front of a negative number. [fuel] bounds the number of
    digits. *)
Definition digit_char (d : Z) : ascii := ascii_of_nat (48 + Z.to_nat d).

Fixpoint digits (fuel : nat) (n : Z) : string :=
  match fuel with
  | O => EmptyString
  | S fuel' =>
      if n <? 10 then String (digit_char n) EmptyString
      else (digits fuel' (n / 10)
              ++ String (digit_char (n mod 10)) EmptyString)%string
  end.

Definition str_of_int (n : Z) : string :=
  if n <? 0
  then String "-" (digits (S (Z.to_nat (Z.log2 (- n)))) (- n))
  else digits (S (Z.to_nat (Z.log2 n))) n.

(** The number a string of decimal digits writes, leading zeros allowed. *)
Definition digit_value (c : ascii) : Z := Z.of_nat (nat_of_ascii c) - 48.

Fixpoint decimal_from (acc : Z) (s : string) : Z :=
  match s with
  | EmptyString => acc
  | String c s' => decimal_from (10 * acc + digit_value c) s'
  end.

Definition decimal_value (s : string) : Z := decimal_from 0 s.

(** ** pad_with_zero *)

Definition pad_with_zero (num : Z) (balanced_real_images : bool) : string :=
  let total_digits := if balanced_real_images then 6 else 5 in
  let num_zeros := total_digits - Z.of_nat (String.length (str_of_int num)) in
  (py_mul_string num_zeros "0" ++ str_of_int num)%string.

(** ** The line written for one annotation *)

(** [','.join(question.strip().split())] *)
Definition comma_question (question : string) : string :=
  join "," (split_ws (strip question)).


(** The text of the corpus file after prepare_data has written one line
    after the other, each with its end of line. *)
Fixpoint corpus_file (lines : list string) : string :=
  match lines with
  | [] => EmptyString
  | line :: lines' => (line ++ String newline (corpus_file lines'))%string
  end.



(** [x] stands before [y] in [l]. *)
Definition before {A : Type} (l : list A) (x y : A) : Prop :=
  exists l1 l2 l3, l = l1 ++ x :: l2 ++ y :: l3.

(** The order the sort leaves: a larger key first, and among equal keys
    the one that stood first in the input. *)
Definition stable_order {A : Type} (key : A -> Z) (l : list A) (p q : A)
  : Prop :=
  key q < key p \/ (key q = key p /\ before l p q).

(** * Properties *)

(** ** The error monad *)

Lemma bind_Ok_inv {A B : Type} (r : result A) (k : A -> result B) (b : B) :
  bind r k = Ok b -> exists a, r = Ok a /\ k a = Ok b.
Proof.
  destruct r as [a|e]; simpl; intros H.
  - exists a; split; [reflexivity | exact H].
  - discriminate H.
Qed.

(** ** Facts about dicts *)

Section DictFacts.
Context {K V : Type}.
Variable eqb : K -> K -> bool.
Hypothesis eqb_eq : forall x y, eqb x y = true <-> x = y.

#[local] Abbreviation dict := (@dict K V).
#[local] Abbreviation dict_get := (dict_get eqb).
#[local] Abbreviation dict_set := (dict_set eqb).
#[local] Abbreviation dict_update := (dict_update eqb).

Lemma eqb_refl' (k : K) : eqb k k = true.
Proof. apply eqb_eq; reflexivity. Qed.

Lemma eqb_neq (x y : K) : x <> y -> eqb x y = false.
Proof.
  intros H. destruct (eqb x y) eqn:E; [|reflexivity].
  apply eqb_eq in E. contradiction.
Qed.

Lemma dict_get_In (d : dict) (k : K) (v : V) :
  dict_get d k = Some v -> In (k, v) d.
Proof.
  induction d as [|[k' v'] d IH]; simpl; [discriminate|].
  destruct (eqb k' k) eqn:E.
  - intros [= ->]. apply eqb_eq in E. subst. now left.
  - intros H. right. now apply IH.
Qed.

Lemma dict_get_None (d : dict) (k : K) :
  dict_get d k = None <-> ~ In k (dict_keys d).
Proof.
  induction d as [|[k' v'] d IH]; simpl.
  - split; [intros _ [] | reflexivity].
  - destruct (eqb k' k) eqn:E.
    + apply eqb_eq in E. subst. split; [discriminate | intros H; exfalso; apply H; now left].
    + rewrite IH. split.
      * intros H [H1|H1]; [|now apply H].
        subst. rewrite eqb_refl' in E. discriminate.
      * intros H H1. apply H. now right.
Qed.

Lemma In_dict_get (d : dict) (k : K) (v : V) :
  NoDup (dict_keys d) -> In (k, v) d -> dict_get d k = Some v.
Proof.
  induction d as [|[k' v'] d IH]; simpl; [intros _ []|].
  intros Hnd [H|H].
  - injection H as -> ->. now rewrite eqb_refl'.
  - inversion Hnd as [|? ? Hk' Hnd']; subst.
    destruct (eqb k' k) eqn:E.
    + apply eqb_eq in E. subst. exfalso. apply Hk'.
      apply (in_map fst) in H. exact H.
    + now apply IH.
Qed.

Lemma dict_set_fresh (d : dict) (k : K) (v : V) :
  ~ In k (dict_keys d) -> dict_set d k v = d ++ [(k, v)].
Proof.
  induction d as [|[k' v'] d IH]; simpl; [reflexivity|].
  intros H. rewrite eqb_neq by (intros ->; apply H; now left).
  rewrite IH; [reflexivity|]. intros H1. apply H. now right.
Qed.

Lemma dict_set_keys_In (d : dict) (k : K) (v : V) (x : K) :
  In x (dict_keys (dict_set d k v)) <-> x = k \/ In x (dict_keys d).
Proof.
  induction d as [|[k' v'] d IH]; simpl.
  - split; [intros [H|[]]; now left | intros [H|[]]; now left].
  - destruct (eqb k' k) eqn:E; simpl.
    + apply eqb_eq in E. subst. split; [tauto | intros [H|H]; [now left | exact H]].
    + rewrite IH. split; tauto.
Qed.

Lemma dict_set_keys_NoDup (d : dict) (k : K) (v : V) :
  NoDup (dict_keys d) -> NoDup (dict_keys (dict_set d k v)).
Proof.
  induction d as [|[k' v'] d IH]; simpl; intros Hnd.
  - constructor; [intros [] | constructor].
  - inversion Hnd as [|? ? Hk' Hnd']; subst.
    destruct (eqb k' k) eqn:E; simpl.
    + constructor; assumption.
    + constructor; [|now apply IH].
      intros H. apply dict_set_keys_In in H. destruct H as [H|H].
      * subst. rewrite eqb_refl' in E. discriminate.
      * contradiction.
Qed.

Lemma dict_set_values_In (d : dict) (k : K) (v x : V) :
  In x (dict_values (dict_set d k v)) -> x = v \/ In x (dict_values d).
Proof.
  induction d as [|[k' v'] d IH]; simpl.
  - intros [H|[]]; now left.
  - destruct (eqb k' k); simpl.
    + intros [H|H]; [now left | right; now right].
    + intros [H|H]; [right; now left|].
      destruct (IH H) as [H1|H1]; [now left | right; now right].
Qed.

Lemma dict_set_values_NoDup (d : dict) (k : K) (v : V) :
  NoDup (dict_values d) -> ~ In v (dict_values d) ->
  NoDup (dict_values (dict_set d k v)).
Proof.
  induction d as [|[k' v'] d IH]; simpl; intros Hnd Hv.
  - constructor; [intros [] | constructor].
  - inversion Hnd as [|? ? Hv' Hnd']; subst.
    destruct (eqb k' k); simpl.
    + constructor; [|assumption]. intros H. apply Hv. now right.
    + constructor.
      * intros H. apply dict_set_values_In in H. destruct H as [H|H].
        -- subst. apply Hv. now left.
        -- contradiction.
      * apply IH; [assumption|]. intros H. apply Hv. now right.
Qed.

Lemma dict_get_set_same (d : dict) (k : K) (v : V) :
  dict_get (dict_set d k v) k = Some v.
Proof.
  induction d as [|[k' v'] d IH]; simpl.
  - now rewrite eqb_refl'.
  - destruct (eqb k' k) eqn:E; simpl; rewrite E; [reflexivity | exact IH].
Qed.

Lemma dict_get_set_other (d : dict) (k k0 : K) (v : V) :
  k <> k0 -> dict_get (dict_set d k v) k0 = dict_get d k0.
Proof.
  intros Hne. induction d as [|[k' v'] d IH]; simpl.
  - now rewrite eqb_neq.
  - destruct (eqb k' k) eqn:E; simpl.
    + apply eqb_eq in E. subst. now rewrite !eqb_neq.
    + destruct (eqb k' k0); [reflexivity | exact IH].
Qed.

Lemma dict_set_length (d : dict) (k : K) (v : V) :
  (length (dict_set d k v) <= S (length d))%nat.
Proof.
  induction d as [|[k' v'] d IH]; simpl; [lia|].
  destruct (eqb k' k); simpl; lia.
Qed.

Lemma dict_update_keys_NoDup (items : list (K * V)) (d : dict) :
  NoDup (dict_keys d) -> NoDup (dict_keys (dict_update d items)).
Proof.
  unfold dict_update.
  revert d. induction items as [|[k v] items IH]; intros d Hnd; simpl.
  - exact Hnd.
  - apply IH. now apply dict_set_keys_NoDup.
Qed.

Lemma dict_update_length (items : list (K * V)) (d : dict) :
  (length (dict_update d items) <= length d + length items)%nat.
Proof.
  unfold dict_update.
  revert d. induction items as [|[k v] items IH]; intros d; simpl.
  - lia.
  - specialize (IH (dict_set d k v)).
    pose proof (dict_set_length d k v). lia.
Qed.

(** A later item for another key leaves the entry of [k] alone. *)
Lemma dict_update_get_other (items : list (K * V)) (d : dict) (k : K) :
  ~ In k (map fst items) -> dict_get (dict_update d items) k = dict_get d k.
Proof.
  unfold dict_update.
  revert d. induction items as [|[k' v'] items IH]; intros d Hk; simpl.
  - reflexivity.
  - rewrite IH.
    + apply dict_get_set_other. intros ->. apply Hk. now left.
    + intros H. apply Hk. now right.
Qed.

(** Items whose keys are new and pairwise distinct are appended as they
    come. *)
Lemma dict_update_fresh (items : list (K * V)) (d : dict) :
  NoDup (dict_keys d ++ map fst items) -> dict_update d items = d ++ items.
Proof.
  unfold dict_update.
  revert d. induction items as [|[k v] items IH]; intros d Hnd; simpl.
  - now rewrite app_nil_r.
  - assert (Hk : ~ In k (dict_keys d)).
    { apply NoDup_remove_2 in Hnd. intros H. apply Hnd.
      apply in_or_app. now left. }
    rewrite dict_set_fresh by exact Hk.
    rewrite IH.
    + now rewrite <- app_assoc.
    + unfold dict_keys. rewrite map_app. simpl.
      rewrite <- app_assoc. exact Hnd.
Qed.

End DictFacts.

(** ** Dicts keyed by strings and by integers *)

Lemma string_eqb_eq (x y : string) : String.eqb x y = true <-> x = y.
Proof. apply String.eqb_eq. Qed.

Lemma Z_eqb_eq (x y : Z) : Z.eqb x y = true <-> x = y.
Proof. apply Z.eqb_eq. Qed.

#[local] Hint Resolve string_eqb_eq Z_eqb_eq : core.

(** Merging items whose values are new and pairwise distinct keeps the
    values of the dict pairwise distinct. *)
Lemma dict_update_values_NoDup {K V : Type} (eqb : K -> K -> bool)
    (items : list (K * V)) (d : dict) :
  NoDup (dict_values d) -> NoDup (map snd items) ->
  (forall v, In v (dict_values d) -> ~ In v (map snd items)) ->
  NoDup (dict_values (dict_update eqb d items)).
Proof.
  unfold dict_update.
  revert d. induction items as [|[k v] items IH]; intros d Hd Hi Hdis; simpl.
  - exact Hd.
  - simpl in Hi. inversion Hi as [|? ? Hv Hi']; subst.
    apply IH.
    + apply dict_set_values_NoDup; [exact Hd|].
      intros H. apply (Hdis v H). now left.
    + exact Hi'.
    + intros x Hx Hin. apply dict_set_values_In in Hx. destruct Hx as [->|Hx].
      * contradiction.
      * apply (Hdis x Hx). now right.
Qed.

(** An item of a list with distinct keys is what the merged dict holds for
    its key. *)
Lemma dict_update_get_In {K V : Type} (eqb : K -> K -> bool)
    (eqb_eq : forall x y, eqb x y = true <-> x = y)
    (items : list (K * V)) (d : dict) (k : K) (v : V) :
  NoDup (map fst items) -> In (k, v) items ->
  dict_get eqb (dict_update eqb d items) k = Some v.
Proof.
  revert d. induction items as [|[k' v'] items IH]; intros d Hnd Hin.
  - destruct Hin.
  - simpl in Hnd. inversion Hnd as [|? ? Hk Hnd']; subst.
    destruct Hin as [Heq|Hin].
    + injection Heq as -> ->.
      change (dict_update eqb d ((k, v) :: items))
        with (dict_update eqb (dict_set eqb d k v) items).
      rewrite (dict_update_get_other eqb eqb_eq) by exact Hk.
      apply (dict_get_set_same eqb eqb_eq).
    + change (dict_update eqb d ((k', v') :: items))
        with (dict_update eqb (dict_set eqb d k' v') items).
      now apply IH.
Qed.

(** A dict comprehension over items with distinct keys is the item list. *)
Lemma dict_of_items_fresh {K V : Type} (eqb : K -> K -> bool)
    (eqb_eq : forall x y, eqb x y = true <-> x = y) (items : list (K * V)) :
  NoDup (map fst items) -> dict_of_items eqb items = items.
Proof.
  intros H. unfold dict_of_items.
  now rewrite (dict_update_fresh eqb eqb_eq).
Qed.

Lemma map_fst_swap {A B : Type} (l : list (A * B)) :
  map fst (map swap l) = map snd l.
Proof. rewrite map_map. reflexivity. Qed.

Lemma map_snd_swap {A B : Type} (l : list (A * B)) :
  map snd (map swap l) = map fst l.
Proof. rewrite map_map. reflexivity. Qed.

Lemma In_swap {A B : Type} (l : list (A * B)) (a : A) (b : B) :
  In (b, a) (map swap l) <-> In (a, b) l.
Proof.
  split.
  - intros H. apply in_map_iff in H. destruct H as [[a' b'] [Heq Hin]].
    unfold swap in Heq. simpl in Heq. injection Heq as -> ->. exact Hin.
  - intros H. apply in_map_iff. exists (a, b). split; [reflexivity | exact H].
Qed.

(** ** build_vocab: the index assignment *)

Lemma vocab_inv_set (vocab_tokens : dict) (vocab_idx : Z) (word : string) :
  4 <= vocab_idx ->
  vocab_inv vocab_tokens vocab_idx ->
  vocab_inv (dict_set String.eqb vocab_tokens word vocab_idx) (vocab_idx + 1).
Proof.
  intros Hidx (Hk & Hv & Hb).
  assert (Hfresh : ~ In vocab_idx (dict_values vocab_tokens)).
  { intros H. rewrite Forall_forall in Hb. specialize (Hb _ H). lia. }
  repeat split.
  - now apply (dict_set_keys_NoDup String.eqb string_eqb_eq).
  - now apply dict_set_values_NoDup.
  - apply Forall_forall. intros x Hx.
    apply dict_set_values_In in Hx. destruct Hx as [->|Hx]; [lia|].
    rewrite Forall_forall in Hb. specialize (Hb _ Hx). lia.
Qed.

Lemma select_words_inv (word_count : dict) (min_word_count : Z)
    (word_list : list string) :
  forall vocab_tokens vocab_idx r,
    4 <= vocab_idx ->
    vocab_inv vocab_tokens vocab_idx ->
    select_words word_count min_word_count word_list vocab_tokens vocab_idx
      = Ok r ->
    exists vocab_idx', vocab_idx <= vocab_idx' /\ vocab_inv r vocab_idx'.
Proof.
  induction word_list as [|word word_list IH]; intros vt idx r Hidx Hinv; simpl.
  - intros [= <-]. exists idx. split; [lia | exact Hinv].
  - intros H. apply bind_Ok_inv in H. destruct H as (c & _ & H).
    destruct (c >=? min_word_count).
    + apply IH in H; [| lia | now apply vocab_inv_set].
      destruct H as (idx' & Hle & Hinv'). exists idx'. split; [lia | exact Hinv'].
    + now apply IH in H.
Qed.

(** A key of [vocab_tokens] stays one. *)
Lemma select_words_keeps (word_count : dict) (min_word_count : Z)
    (word_list : list string) (w : string) :
  forall vocab_tokens vocab_idx r,
    select_words word_count min_word_count word_list vocab_tokens vocab_idx
      = Ok r ->
    In w (dict_keys vocab_tokens) -> In w (dict_keys r).
Proof.
  induction word_list as [|word word_list IH]; intros vt idx r; simpl.
  - intros [= <-] H. exact H.
  - intros H Hin. apply bind_Ok_inv in H. destruct H as (c & _ & H).
    destruct (c >=? min_word_count).
    + apply IH in H; [exact H|].
      apply (dict_set_keys_In String.eqb string_eqb_eq). now right.
    + now apply IH in H.
Qed.

(** A listed word whose count meets the threshold becomes a key. *)
Lemma select_words_adds (word_count : dict) (min_word_count : Z)
    (word_list : list string) (w : string) (c : Z) :
  forall vocab_tokens vocab_idx r,
    select_words word_count min_word_count word_list vocab_tokens vocab_idx
      = Ok r ->
    In w word_list -> dict_get String.eqb word_count w = Some c ->
    min_word_count <= c ->
    In w (dict_keys r).
Proof.
  induction word_list as [|word word_list IH]; intros vt idx r; simpl.
  - intros _ [].
  - intros H Hin Hc Hmin. apply bind_Ok_inv in H. destruct H as (c' & Hc' & H).
    destruct Hin as [->|Hin].
    + unfold dict_getitem in Hc'. rewrite Hc in Hc'. injection Hc' as <-.
      assert (E : (c >=? min_word_count) = true) by (apply Z.geb_le; lia).
      rewrite E in H.
      eapply select_words_keeps; [exact H|].
      apply (dict_set_keys_In String.eqb string_eqb_eq). now left.
    + destruct (c' >=? min_word_count); eapply IH; eauto.
Qed.

(** A key of the result was a key before or is a listed word whose count
    meets the threshold. *)
Lemma select_words_only (word_count : dict) (min_word_count : Z)
    (word_list : list string) (w : string) :
  forall vocab_tokens vocab_idx r,
    select_words word_count min_word_count word_list vocab_tokens vocab_idx
      = Ok r ->
    In w (dict_keys r) ->
    In w (dict_keys vocab_tokens) \/
    (In w word_list /\
     exists c, dict_get String.eqb word_count w = Some c /\ min_word_count <= c).
Proof.
  induction word_list as [|word word_list IH]; intros vt idx r; simpl.
  - intros [= <-] H. now left.
  - intros H Hin. apply bind_Ok_inv in H. destruct H as (c & Hc & H).
    unfold dict_getitem in Hc.
    destruct (dict_get String.eqb word_count word) as [c0|] eqn:Eg;
      [|discriminate]. injection Hc as ->.
    destruct (c >=? min_word_count) eqn:E.
    + destruct (IH _ _ _ H Hin) as [H1|(H1 & H2)].
      * apply (dict_set_keys_In String.eqb string_eqb_eq) in H1.
        destruct H1 as [->|H1]; [|now left].
        right. split; [now left|]. exists c. split; [exact Eg|].
        apply Z.geb_le in E. lia.
      * right. split; [now right | exact H2].
    + destruct (IH _ _ _ H Hin) as [H1|(H1 & H2)]; [now left|].
      right. split; [now right | exact H2].
Qed.

(** Every word of the list is counted, so the loop does not raise. *)
Lemma select_words_returns (word_count : dict) (min_word_count : Z)
    (word_list : list string) :
  (forall w, In w word_list -> In w (dict_keys word_count)) ->
  forall vocab_tokens vocab_idx,
    returns
      (select_words word_count min_word_count word_list vocab_tokens vocab_idx).
Proof.
  induction word_list as [|word word_list IH]; intros Hsub vt idx; simpl.
  - now exists vt.
  - unfold dict_getitem.
    destruct (dict_get String.eqb word_count word) as [c|] eqn:E.
    + simpl. destruct (c >=? min_word_count); apply IH;
        intros w Hw; apply Hsub; now right.
    + exfalso. apply (dict_get_None String.eqb string_eqb_eq) in E.
      apply E, Hsub. now left.
Qed.

(** ** build_vocab: the reserved block and the merge *)

Lemma helper_tokens_keys_NoDup : NoDup (dict_keys helper_tokens).
Proof.
  unfold helper_tokens, dict_keys. simpl.
  repeat constructor; simpl; intuition discriminate.
Qed.

Lemma helper_tokens_values_NoDup : NoDup (dict_values helper_tokens).
Proof.
  unfold helper_tokens, dict_values. simpl.
  repeat constructor; simpl; intuition discriminate.
Qed.

Lemma helper_tokens_values_range (v : Z) :
  In v (dict_values helper_tokens) -> 0 <= v <= 3.
Proof.
  unfold helper_tokens, dict_values. simpl. intuition lia.
Qed.

Lemma helper_tokens_literal :
  dict_of_items String.eqb helper_tokens = helper_tokens.
Proof. reflexivity. Qed.

(** The steps of [build_vocab], read off a run that returned. *)
Lemma build_vocab_with_inv (tokenize : string -> result (list string))
    (data : list string) (min_word_count : Z)
    (word2idx : dict) (idx2word : dict) (max_sequence_length : Z) :
  build_vocab_with tokenize data min_word_count
    = Ok (word2idx, idx2word, max_sequence_length) ->
  exists word_count vocab_tokens,
    scan_questions tokenize data [] 0 = Ok (word_count, max_sequence_length) /\
    select_words word_count min_word_count (dict_keys word_count) [] 4
      = Ok vocab_tokens /\
    word2idx = dict_update String.eqb helper_tokens vocab_tokens /\
    idx2word = dict_of_items Z.eqb (map swap word2idx).
Proof.
  unfold build_vocab_with. intros H.
  apply bind_Ok_inv in H. destruct H as ([wc msl] & Hscan & H).
  apply bind_Ok_inv in H. destruct H as (vt & Hsel & H).
  rewrite helper_tokens_literal in H. injection H as <- <- <-.
  exists wc, vt. repeat split; assumption.
Qed.

Lemma vocab_inv_empty : vocab_inv [] 4.
Proof. repeat split; constructor. Qed.

Lemma word2idx_keys_NoDup (vocab_tokens : dict) :
  NoDup (dict_keys (dict_update String.eqb helper_tokens vocab_tokens)).
Proof.
  apply (dict_update_keys_NoDup String.eqb string_eqb_eq).
  exact helper_tokens_keys_NoDup.
Qed.

Lemma word2idx_values_NoDup (vocab_tokens : dict) (vocab_idx : Z) :
  vocab_inv vocab_tokens vocab_idx ->
  NoDup (dict_values (dict_update String.eqb helper_tokens vocab_tokens)).
Proof.
  intros (_ & Hv & Hb).
  apply dict_update_values_NoDup.
  - exact helper_tokens_values_NoDup.
  - exact Hv.
  - intros v Hh Hin. apply helper_tokens_values_range in Hh.
    rewrite Forall_forall in Hb. specialize (Hb _ Hin). lia.
Qed.

(** With distinct indices the comprehension [{idx: word for word, idx in
    word2idx.items()}] loses no item. *)
Lemma idx2word_is_swap (word2idx : dict (K:=string) (V:=Z)) :
  NoDup (dict_values word2idx) ->
  dict_of_items Z.eqb (map swap word2idx) = map swap word2idx.
Proof.
  intros H. apply (dict_of_items_fresh Z.eqb Z_eqb_eq).
  rewrite map_fst_swap. exact H.
Qed.

(** Looking an index up in the swapped item list gives the word back. *)
Lemma swap_lookup (word2idx : dict (K:=string) (V:=Z)) (w : string) (i : Z) :
  NoDup (dict_values word2idx) ->
  dict_get String.eqb word2idx w = Some i ->
  dict_get Z.eqb (map swap word2idx) i = Some w.
Proof.
  intros Hvals Hg. apply (In_dict_get Z.eqb Z_eqb_eq).
  - unfold dict_keys. rewrite map_fst_swap. exact Hvals.
  - apply In_swap. now apply (dict_get_In String.eqb string_eqb_eq).
Qed.

(** C7. For every corpus, tokenizer call and min_word_count, the word2idx
    and idx2word that build_vocab returns are exact inverses: idx2word maps
    word2idx[w] back to w for every word w of word2idx, word2idx maps
    idx2word[i] back to i for every index i of idx2word, and the two dicts
    have the same number of entries. The run of build_vocab as the source
    calls the tokenizer is the instance [build_vocab]. *)
Theorem build_vocab_inverse_consistency
    (tokenize : string -> result (list string)) (data : list string)
    (min_word_count : Z) (word2idx : dict) (idx2word : dict)
    (max_sequence_length : Z) :
  build_vocab_with tokenize data min_word_count
    = Ok (word2idx, idx2word, max_sequence_length) ->
  (forall w i, dict_get String.eqb word2idx w = Some i ->
               dict_get Z.eqb idx2word i = Some w) /\
  (forall i w, dict_get Z.eqb idx2word i = Some w ->
               dict_get String.eqb word2idx w = Some i) /\
  dict_len word2idx = dict_len idx2word.
Proof.
  intros H. apply build_vocab_with_inv in H.
  destruct H as (wc & vt & _ & Hsel & Hw & Hi).
  destruct (select_words_inv _ _ _ _ _ _ (Z.le_refl 4) vocab_inv_empty Hsel)
    as (idx' & _ & Hinv).
  assert (Hkeys : NoDup (dict_keys word2idx))
    by (subst word2idx; apply word2idx_keys_NoDup).
  assert (Hvals : NoDup (dict_values word2idx))
    by (subst word2idx; eapply word2idx_values_NoDup; exact Hinv).
  rewrite (idx2word_is_swap _ Hvals) in Hi.
  repeat split.
  - intros w i Hg. subst idx2word. now apply swap_lookup.
  - intros i w Hg. apply (In_dict_get String.eqb string_eqb_eq); [exact Hkeys|].
    apply (dict_get_In Z.eqb Z_eqb_eq) in Hg. subst idx2word.
    apply (proj1 (In_swap _ _ _)). exact Hg.
  - subst idx2word. unfold dict_len, len. now rewrite length_map.
Qed.

Lemma build_vocab_inverse_consistency_witness :
  build_vocab_with (tokenize_with comma_nlp) sample_corpus 1
    = Ok (sample_word2idx, sample_idx2word, 4) /\
  ((forall w i, dict_get String.eqb sample_word2idx w = Some i ->
                dict_get Z.eqb sample_idx2word i = Some w) /\
   (forall i w, dict_get Z.eqb sample_idx2word i = Some w ->
                dict_get String.eqb sample_word2idx w = Some i) /\
   dict_len sample_word2idx = dict_len sample_idx2word).
Proof.
  split; [reflexivity|].
  apply (build_vocab_inverse_consistency
           (tokenize_with comma_nlp) sample_corpus 1 _ _ 4).
  reflexivity.
Defined.

(** The source's own call returns on the empty corpus, and there too the
    two dicts are inverses. *)
Lemma build_vocab_empty_corpus (min_word_count : Z) :
  build_vocab [] min_word_count
    = Ok (helper_tokens, map swap helper_tokens, 0).
Proof. reflexivity. Qed.

(** Once the questions are tokenized and counted, the rest of build_vocab
    cannot raise: every word it looks up is a key of the frequency dict. *)
Lemma build_vocab_with_returns (tokenize : string -> result (list string))
    (data : list string) (min_word_count : Z) (word_count : dict)
    (max_sequence_length : Z) :
  scan_questions tokenize data [] 0 = Ok (word_count, max_sequence_length) ->
  exists word2idx idx2word,
    build_vocab_with tokenize data min_word_count
      = Ok (word2idx, idx2word, max_sequence_length).
Proof.
  intros Hscan. unfold build_vocab_with. rewrite Hscan. simpl bind.
  destruct (select_words_returns word_count min_word_count
              (dict_keys word_count) (fun w H => H) []
              (len helper_tokens)) as (vt & Hvt).
  rewrite Hvt. simpl bind. eexists _, _. reflexivity.
Qed.

(** ** build_vocab: a reserved token that is also a corpus word *)

Lemma helper_tokens_injective (w t : string) (r : Z) :
  dict_get String.eqb helper_tokens w = Some r ->
  dict_get String.eqb helper_tokens t = Some r ->
  w = t.
Proof.
  intros Hw Ht.
  apply (dict_get_In String.eqb string_eqb_eq) in Hw.
  apply (dict_get_In String.eqb string_eqb_eq) in Ht.
  unfold helper_tokens in Hw, Ht. simpl in Hw, Ht.
  intuition congruence.
Qed.

Lemma dict_get_Some_key {K V : Type} (eqb : K -> K -> bool)
    (eqb_eq : forall x y, eqb x y = true <-> x = y)
    (d : dict) (k : K) (v : V) :
  dict_get eqb d k = Some v -> In k (dict_keys d).
Proof.
  intros H. apply (dict_get_In eqb eqb_eq) in H.
  apply (in_map fst) in H. exact H.
Qed.

Lemma dict_key_get {K V : Type} (eqb : K -> K -> bool)
    (eqb_eq : forall x y, eqb x y = true <-> x = y)
    (d : dict (K:=K) (V:=V)) (k : K) :
  In k (dict_keys d) -> exists v, dict_get eqb d k = Some v.
Proof.
  intros H. destruct (dict_get eqb d k) as [v|] eqn:E.
  - now exists v.
  - apply (dict_get_None eqb eqb_eq) in E. contradiction.
Qed.

(** C10. When a corpus token equal to one of the reserved tokens
    ('<PAD>', '<UNKNOWN>', 's', '/s') has a count that meets
    min_word_count, the merged word2idx maps that token to the index
    allocated for it in the loop, which is 4 or more, and not to its
    reserved index; the reserved index (0 to 3) is then no key of idx2word
    and the value of no word in word2idx. *)
Theorem reserved_token_reindexed
    (tokenize : string -> result (list string)) (data : list string)
    (min_word_count : Z) (word_count : dict) (word2idx : dict)
    (idx2word : dict) (max_sequence_length max_sequence_length' : Z)
    (token : string) (reserved_idx c : Z) :
  scan_questions tokenize data [] 0 = Ok (word_count, max_sequence_length) ->
  build_vocab_with tokenize data min_word_count
    = Ok (word2idx, idx2word, max_sequence_length') ->
  dict_get String.eqb helper_tokens token = Some reserved_idx ->
  dict_get String.eqb word_count token = Some c ->
  min_word_count <= c ->
  0 <= reserved_idx <= 3 /\
  exists k,
    4 <= k /\
    dict_get String.eqb word2idx token = Some k /\
    dict_get Z.eqb idx2word k = Some token /\
    dict_get Z.eqb idx2word reserved_idx = None /\
    (forall w, dict_get String.eqb word2idx w <> Some reserved_idx).
Proof.
  intros Hscan Hbuild Hres Hcount Hmin.
  assert (Hrange : 0 <= reserved_idx <= 3).
  { apply helper_tokens_values_range.
    apply (dict_get_In String.eqb string_eqb_eq) in Hres.
    apply (in_map snd) in Hres. exact Hres. }
  split; [exact Hrange|].
  apply build_vocab_with_inv in Hbuild.
  destruct Hbuild as (wc & vt & Hscan' & Hsel & Hw & Hi).
  rewrite Hscan in Hscan'. injection Hscan' as <- <-.
  destruct (select_words_inv _ _ _ _ _ _ (Z.le_refl 4) vocab_inv_empty Hsel)
    as (idx' & _ & Hinv).
  pose proof Hinv as (Hvk & Hvv & Hvb).
  assert (Hin : In token (dict_keys vt)).
  { eapply select_words_adds; [exact Hsel | | exact Hcount | exact Hmin].
    eapply dict_get_Some_key; [exact string_eqb_eq | exact Hcount]. }
  destruct (dict_key_get String.eqb string_eqb_eq _ _ Hin) as (k & Hk).
  assert (Hbound : forall w v, dict_get String.eqb vt w = Some v -> 4 <= v).
  { intros w v Hg. apply (dict_get_In String.eqb string_eqb_eq) in Hg.
    apply (in_map snd) in Hg. rewrite Forall_forall in Hvb.
    specialize (Hvb _ Hg). simpl in Hvb. lia. }
  assert (Hmerged : forall w v, dict_get String.eqb vt w = Some v ->
                                dict_get String.eqb word2idx w = Some v).
  { intros w v Hg. subst word2idx.
    apply (dict_update_get_In String.eqb string_eqb_eq); [exact Hvk|].
    now apply (dict_get_In String.eqb string_eqb_eq). }
  assert (Hnone : forall w, dict_get String.eqb word2idx w <> Some reserved_idx).
  { intros w Hg.
    destruct (dict_get String.eqb vt w) as [v|] eqn:Ev.
    - pose proof (Hmerged _ _ Ev) as Hm. rewrite Hg in Hm. injection Hm as <-.
      specialize (Hbound _ _ Ev). lia.
    - apply (dict_get_None String.eqb string_eqb_eq) in Ev.
      subst word2idx.
      rewrite (dict_update_get_other String.eqb string_eqb_eq) in Hg
        by exact Ev.
      pose proof (helper_tokens_injective _ _ _ Hg Hres) as ->.
      contradiction. }
  exists k. repeat split.
  - eapply Hbound; exact Hk.
  - now apply Hmerged.
  - rewrite Hi, idx2word_is_swap
      by (subst word2idx; eapply word2idx_values_NoDup; exact Hinv).
    apply swap_lookup; [|now apply Hmerged].
    subst word2idx. eapply word2idx_values_NoDup; exact Hinv.
  - apply (dict_get_None Z.eqb Z_eqb_eq). intros Habs.
    rewrite Hi in Habs.
    rewrite idx2word_is_swap in Habs
      by (subst word2idx; eapply word2idx_values_NoDup; exact Hinv).
    unfold dict_keys in Habs. rewrite map_fst_swap in Habs.
    apply in_map_iff in Habs. destruct Habs as ([w v] & Hv & Hwv).
    simpl in Hv. subst v.
    apply (Hnone w).
    apply (In_dict_get String.eqb string_eqb_eq); [|exact Hwv].
    subst word2idx. apply word2idx_keys_NoDup.
  - exact Hnone.
Qed.

Lemma reserved_token_reindexed_witness :
  0 <= 2 <= 3 /\
  exists k,
    4 <= k /\
    dict_get String.eqb sample_word2idx "s" = Some k /\
    dict_get Z.eqb sample_idx2word k = Some "s" /\
    dict_get Z.eqb sample_idx2word 2 = None /\
    (forall w, dict_get String.eqb sample_word2idx w <> Some 2).
Proof.
  apply (reserved_token_reindexed (tokenize_with comma_nlp) sample_corpus 1
           sample_word_count sample_word2idx sample_idx2word 4 4 "s" 2 1).
  - reflexivity.
  - reflexivity.
  - reflexivity.
  - reflexivity.
  - lia.
Defined.

(** ** build_vocab: the tokenizer call *)

(** C5. build_vocab calls preprocess_text with one argument while the
    function has two required parameters (input_string and nlp): on a corpus
    whose first sample has a question field the call raises TypeError and no
    vocabulary is produced; the empty corpus avoids the call and returns the
    reserved tokens alone; and no other corpus returns normally. *)
Theorem build_vocab_raises_TypeError (data : list string) (min_word_count : Z) :
  (data = [] ->
   build_vocab data min_word_count
     = Ok (helper_tokens, map swap helper_tokens, 0)) /\
  (forall sample data',
     data = sample :: data' ->
     (1 < length (split tab sample))%nat ->
     build_vocab data min_word_count = Raise TypeError) /\
  (returns (build_vocab data min_word_count) -> data = []).
Proof.
  split; [|split].
  - intros ->. reflexivity.
  - intros sample data' -> Hfields.
    unfold build_vocab, build_vocab_with. simpl. unfold py_index.
    destruct (nth_error (split tab sample) 1) as [field|] eqn:E.
    + reflexivity.
    + apply nth_error_None in E. lia.
  - intros [r Hr]. destruct data as [|sample data']; [reflexivity|].
    exfalso. revert Hr.
    unfold build_vocab, build_vocab_with. simpl. unfold py_index.
    destruct (nth_error (split tab sample) 1); simpl; discriminate.
Qed.

Lemma build_vocab_raises_TypeError_witness :
  build_vocab sample_corpus 1 = Raise TypeError.
Proof.
  apply (proj1 (proj2 (build_vocab_raises_TypeError sample_corpus 1))
           (record_line "a.jpg" "is,it,a,cat" "yes")
           [ record_line "b.jpg" "is,it,s,s" "no";
             record_line "c.jpg" "cat,cat" "yes" ]).
  - reflexivity.
  - vm_compute. lia.
Defined.

(** A first sample with no tab in it fails before the call is reached. *)
Lemma build_vocab_sample_without_tab (sample : string) (data : list string)
    (min_word_count : Z) :
  length (split tab sample) = 1%nat ->
  build_vocab (sample :: data) min_word_count = Raise IndexError.
Proof.
  intros H. unfold build_vocab, build_vocab_with. simpl. unfold py_index.
  destruct (nth_error (split tab sample) 1) as [field|] eqn:E.
  - assert (nth_error (split tab sample) 1 <> None) as Hne by congruence.
    apply nth_error_Some in Hne. lia.
  - reflexivity.
Qed.

(** A corpus line always has its question field. *)
Lemma split_length (sep : ascii) (s : string) :
  (1 <= length (split sep s))%nat.
Proof.
  induction s as [|c s IH]; simpl; [lia|].
  destruct (Ascii.eqb c sep); simpl; [lia|].
  destruct (split sep s); simpl; lia.
Qed.

Lemma split_record_line (img question answer : string) :
  (1 < length (split tab (record_line img question answer)))%nat.
Proof.
  unfold record_line. induction img as [|c img IH].
  - change (("" ++ String tab (question ++ String tab answer))%string)
      with (String tab (question ++ String tab answer)%string).
    cbn [split]. rewrite Ascii.eqb_refl. cbn [length].
    pose proof (split_length tab (question ++ String tab answer)). lia.
  - change ((String c img ++ String tab (question ++ String tab answer))%string)
      with (String c (img ++ String tab (question ++ String tab answer))%string).
    cbn [split].
    destruct (Ascii.eqb c tab).
    + cbn [length]. lia.
    + destruct (split tab (img ++ String tab (question ++ String tab answer)));
        cbn [length] in *; lia.
Qed.

(** ** build_vocab: what the frequency dict counts *)

Lemma occurrences_cons (w x : string) (l : list string) :
  occurrences w (x :: l)
    = (if String.eqb w x then 1 else 0) + occurrences w l.
Proof.
  unfold occurrences, len. simpl.
  destruct (String.eqb w x); simpl length; lia.
Qed.

Lemma occurrences_nonneg (w : string) (l : list string) :
  0 <= occurrences w l.
Proof. unfold occurrences, len. lia. Qed.

Lemma occurrences_app (w : string) (l1 l2 : list string) :
  occurrences w (l1 ++ l2) = occurrences w l1 + occurrences w l2.
Proof.
  unfold occurrences, len. rewrite filter_app, length_app. lia.
Qed.

(** The first sight of a word stores 0 and every later one adds 1: a word
    new to the dict and seen [n > 0] times ends at [n - 1]. *)
Lemma fold_count_word (wds : list string) (w : string) :
  forall word_count,
    dict_get String.eqb (fold_left count_word wds word_count) w =
    if occurrences w wds =? 0 then dict_get String.eqb word_count w
    else match dict_get String.eqb word_count w with
         | Some c => Some (c + occurrences w wds)
         | None => Some (occurrences w wds - 1)
         end.
Proof.
  induction wds as [|word wds IH]; intros wc.
  - reflexivity.
  - simpl fold_left. rewrite IH. rewrite occurrences_cons.
    pose proof (occurrences_nonneg w wds) as Hn.
    destruct (String.eqb w word) eqn:E.
    + apply String.eqb_eq in E. subst word.
      replace (1 + occurrences w wds =? 0) with false
        by (symmetry; apply Z.eqb_neq; lia).
      unfold count_word.
      destruct (dict_get String.eqb wc w) as [c|] eqn:Ec;
        rewrite (dict_get_set_same String.eqb string_eqb_eq);
        destruct (occurrences w wds =? 0) eqn:E0;
        try (apply Z.eqb_eq in E0; rewrite E0);
        f_equal; lia.
    + apply String.eqb_neq in E.
      replace (0 + occurrences w wds) with (occurrences w wds) by lia.
      assert (Hsame : dict_get String.eqb (count_word wc word) w
                      = dict_get String.eqb wc w).
      { unfold count_word.
        destruct (dict_get String.eqb wc word);
          apply (dict_get_set_other String.eqb string_eqb_eq); congruence. }
      rewrite Hsame. reflexivity.
Qed.

(** The loop over the corpus counts the words of [corpus_words]. *)
Lemma scan_questions_words (tokenize : string -> result (list string))
    (data : list string) :
  forall word_count msl word_count' msl',
    scan_questions tokenize data word_count msl = Ok (word_count', msl') ->
    exists words,
      corpus_words tokenize data = Ok words /\
      word_count' = fold_left count_word words word_count.
Proof.
  induction data as [|sample data IH]; intros wc msl wc' msl'; simpl.
  - intros [= <- <-]. now exists [].
  - intros H. apply bind_Ok_inv in H. destruct H as (field & Hf & H).
    apply bind_Ok_inv in H. destruct H as (wds & Hw & H).
    apply IH in H. destruct H as (rest & Hrest & ->).
    exists (wds ++ rest). rewrite Hf. simpl. rewrite Hw. simpl.
    rewrite Hrest. simpl. split; [reflexivity|].
    now rewrite fold_left_app.
Qed.

Lemma dict_update_keys_In {K V : Type} (eqb : K -> K -> bool)
    (eqb_eq : forall x y, eqb x y = true <-> x = y)
    (items : list (K * V)) (d : dict) (x : K) :
  In x (dict_keys (dict_update eqb d items)) <->
  In x (dict_keys d) \/ In x (map fst items).
Proof.
  unfold dict_update.
  revert d. induction items as [|[k v] items IH]; intros d; simpl.
  - tauto.
  - rewrite IH. rewrite (dict_set_keys_In eqb eqb_eq).
    split; intros H; intuition (subst; auto).
Qed.

(** Which words of the corpus get an index of their own: those seen at
    least [min_word_count + 1] times. *)
Lemma word2idx_membership (tokenize : string -> result (list string))
    (data : list string) (min_word_count : Z) (word2idx : dict)
    (idx2word : dict) (max_sequence_length : Z) (words : list string)
    (w : string) :
  build_vocab_with tokenize data min_word_count
    = Ok (word2idx, idx2word, max_sequence_length) ->
  corpus_words tokenize data = Ok words ->
  dict_get String.eqb helper_tokens w = None ->
  (In w (dict_keys word2idx) <->
   1 <= occurrences w words /\ min_word_count + 1 <= occurrences w words).
Proof.
  intros Hbuild Hwords Hres.
  apply build_vocab_with_inv in Hbuild.
  destruct Hbuild as (wc & vt & Hscan & Hsel & Hw & _).
  apply scan_questions_words in Hscan.
  destruct Hscan as (words' & Hwords' & Hwc).
  rewrite Hwords in Hwords'. injection Hwords' as <-.
  assert (Hcount : dict_get String.eqb wc w =
                   if occurrences w words =? 0 then None
                   else Some (occurrences w words - 1)).
  { rewrite Hwc, fold_count_word. reflexivity. }
  pose proof (occurrences_nonneg w words) as Hn.
  apply (dict_get_None String.eqb string_eqb_eq) in Hres.
  subst word2idx. rewrite (dict_update_keys_In String.eqb string_eqb_eq).
  fold (dict_keys vt). split.
  - intros [H|H]; [contradiction|].
    destruct (select_words_only _ _ _ _ _ _ _ Hsel H) as [[]|(_ & c & Hc & Hm)].
    rewrite Hcount in Hc.
    destruct (occurrences w words =? 0) eqn:E0; [discriminate|].
    apply Z.eqb_neq in E0. injection Hc as <-. lia.
  - intros [H1 H2]. right.
    assert (E0 : (occurrences w words =? 0) = false)
      by (apply Z.eqb_neq; lia).
    rewrite E0 in Hcount.
    eapply select_words_adds; [exact Hsel | | exact Hcount | lia].
    eapply dict_get_Some_key; [exact string_eqb_eq | exact Hcount].
Qed.

(** C1, as the code has it. A word that is not a reserved token and occurs
    exactly min_word_count times in the questions is absent from word2idx
    (the specification says present): the frequency dict stores 0 at the first
    sight of a word, so it holds the occurrences less one. The word needs
    min_word_count + 1 occurrences to be kept. *)
Theorem build_vocab_threshold_off_by_one
    (tokenize : string -> result (list string)) (data : list string)
    (min_word_count : Z) (word2idx : dict) (idx2word : dict)
    (max_sequence_length : Z) (words : list string) (w : string) :
  build_vocab_with tokenize data min_word_count
    = Ok (word2idx, idx2word, max_sequence_length) ->
  corpus_words tokenize data = Ok words ->
  dict_get String.eqb helper_tokens w = None ->
  (occurrences w words = min_word_count ->
   dict_get String.eqb word2idx w = None) /\
  (occurrences w words = min_word_count + 1 -> 0 <= min_word_count ->
   exists i, dict_get String.eqb word2idx w = Some i).
Proof.
  intros Hbuild Hwords Hres.
  pose proof (word2idx_membership _ _ _ _ _ _ _ w Hbuild Hwords Hres) as Hmem.
  split.
  - intros Hocc. apply (dict_get_None String.eqb string_eqb_eq).
    intros H. apply Hmem in H. lia.
  - intros Hocc Hmin. apply (dict_key_get String.eqb string_eqb_eq).
    apply Hmem. lia.
Qed.

Lemma build_vocab_threshold_off_by_one_witness :
  (occurrences "a" (words_of_sample_corpus) = 1 ->
   dict_get String.eqb sample_word2idx "a" = None) /\
  (occurrences "a" (words_of_sample_corpus) = 1 + 1 -> 0 <= 1 ->
   exists i, dict_get String.eqb sample_word2idx "a" = Some i).
Proof.
  apply (build_vocab_threshold_off_by_one (tokenize_with comma_nlp)
           sample_corpus 1 sample_word2idx sample_idx2word 4).
  - reflexivity.
  - reflexivity.
  - reflexivity.
Defined.

(** The single-occurrence word of the specification, at min_word_count = 1: the
    source's call raises, and with the tokenizer called as it asks the word
    is dropped. *)
Lemma single_occurrence_word_dropped :
  build_vocab [record_line "img.jpg" "cat" "yes"] 1 = Raise TypeError /\
  corpus_words (tokenize_with comma_nlp) [record_line "img.jpg" "cat" "yes"]
    = Ok ["cat"] /\
  build_vocab_with (tokenize_with comma_nlp)
    [record_line "img.jpg" "cat" "yes"] 1
    = Ok (helper_tokens, map swap helper_tokens, 1).
Proof. repeat split. Qed.

(** ** The stable descending sort *)

Lemma insert_desc_In {A : Type} (key : A -> Z) (x y : A) (l : list A) :
  In y (insert_desc key x l) <-> y = x \/ In y l.
Proof.
  induction l as [|z l IH]; simpl.
  - split; [intros [H|[]]; now left | intros [H|[]]; now left].
  - destruct (key x <? key z); simpl; [rewrite IH|]; intuition auto.
Qed.

Lemma insert_desc_length {A : Type} (key : A -> Z) (x : A) (l : list A) :
  length (insert_desc key x l) = S (length l).
Proof.
  induction l as [|z l IH]; simpl; [reflexivity|].
  destruct (key x <? key z); simpl; [now rewrite IH | reflexivity].
Qed.

Lemma sorted_desc_In {A : Type} (key : A -> Z) (y : A) (l : list A) :
  In y (sorted_desc key l) <-> In y l.
Proof.
  induction l as [|x l IH]; simpl; [tauto|].
  rewrite insert_desc_In, IH. intuition auto.
Qed.

Lemma sorted_desc_length {A : Type} (key : A -> Z) (l : list A) :
  length (sorted_desc key l) = length l.
Proof.
  induction l as [|x l IH]; simpl; [reflexivity|].
  now rewrite insert_desc_length, IH.
Qed.

Lemma insert_desc_Permutation {A : Type} (key : A -> Z) (x : A) (l : list A) :
  Permutation (x :: l) (insert_desc key x l).
Proof.
  induction l as [|z l IH]; simpl; [reflexivity|].
  destruct (key x <? key z); [|reflexivity].
  rewrite perm_swap. now apply perm_skip.
Qed.

Lemma sorted_desc_Permutation {A : Type} (key : A -> Z) (l : list A) :
  Permutation l (sorted_desc key l).
Proof.
  induction l as [|x l IH]; simpl; [constructor|].
  rewrite <- insert_desc_Permutation. now apply perm_skip.
Qed.

(** ** Slices and enumerations *)

Lemma py_slice_to_length {A : Type} (k : Z) (l : list A) :
  0 <= k -> len (py_slice_to k l) <= k.
Proof.
  intros Hk. unfold py_slice_to, len.
  replace (0 <=? k) with true by (symmetry; apply Z.leb_le; exact Hk).
  rewrite length_firstn. lia.
Qed.

Lemma In_firstn {A : Type} (n : nat) (l : list A) (x : A) :
  In x (firstn n l) -> In x l.
Proof.
  intros H. rewrite <- (firstn_skipn n l). apply in_or_app. now left.
Qed.

Lemma py_slice_to_In {A : Type} (k : Z) (l : list A) (x : A) :
  In x (py_slice_to k l) -> In x l.
Proof.
  unfold py_slice_to. destruct (0 <=? k); apply In_firstn.
Qed.

Lemma enumerate_from_length {A : Type} (l : list A) (i : Z) :
  length (enumerate_from i l) = length l.
Proof.
  revert i. induction l as [|x l IH]; intros i; simpl; [reflexivity|].
  now rewrite IH.
Qed.

Lemma enumerate_from_values {A : Type} (l : list A) (i : Z) :
  map snd (enumerate_from i l) = l.
Proof.
  revert i. induction l as [|x l IH]; intros i; simpl; [reflexivity|].
  now rewrite IH.
Qed.

(** ** build_answer *)

(** An answer that is counted is the answer field of some sample. *)
Lemma count_answers_keys (data : list string) (a : string) :
  forall answer_frequency r,
    count_answers data answer_frequency = Ok r ->
    In a (dict_keys r) ->
    In a (dict_keys answer_frequency) \/
    exists sample field,
      In sample data /\ py_index (split tab sample) 2 = Ok field /\
      strip field = a.
Proof.
  induction data as [|sample data IH]; intros af r; simpl.
  - intros [= <-] H. now left.
  - intros H Hin. apply bind_Ok_inv in H. destruct H as (field & Hf & H).
    destruct (IH _ _ H Hin) as [Hk|(s & f & Hs & Hsf & Hst)].
    + assert (Hk' : a = strip field \/ In a (dict_keys af)).
      { destruct (dict_get String.eqb af (strip field));
          apply (dict_set_keys_In String.eqb string_eqb_eq) in Hk; exact Hk. }
      destruct Hk' as [->|Hk']; [|now left].
      right. exists sample, field. repeat split; [now left | exact Hf].
    + right. exists s, f. repeat split; [now right | exact Hsf | exact Hst].
Qed.

(** The corpus is counted to the end when every sample has an answer
    field. *)
Lemma count_answers_returns (data : list string) :
  Forall (fun sample => (2 < length (split tab sample))%nat) data ->
  forall answer_frequency, returns (count_answers data answer_frequency).
Proof.
  induction 1 as [|sample data Hs _ IH]; intros af; simpl.
  - now exists af.
  - unfold py_index.
    destruct (nth_error (split tab sample) 2) as [field|] eqn:E.
    + simpl. apply IH.
    + apply nth_error_None in E. lia.
Qed.

(** The steps of [build_answer], read off a run that returned. *)
Lemma build_answer_inv (data : list string) (K : Z)
    (label2idx : dict) (idx2label : dict) :
  build_answer data K = Ok (label2idx, idx2label) ->
  exists answer_frequency top_k_answers,
    count_answers data [] = Ok answer_frequency /\
    top_k_answers
      = map fst (py_slice_to K (sorted_desc snd answer_frequency)) /\
    label2idx
      = dict_update String.eqb [("UNKNOWN", 0)]
          (map swap (enumerate_from 1 top_k_answers)) /\
    idx2label = dict_of_items Z.eqb (enumerate ("UNKNOWN" :: top_k_answers)).
Proof.
  unfold build_answer. intros H.
  apply bind_Ok_inv in H. destruct H as (af & Haf & H).
  injection H as <- <-.
  exists af, (map fst (py_slice_to K (sorted_desc snd af))).
  repeat split. exact Haf.
Qed.

(** C6, as the code has it. For every corpus and every K >= 0 the
    label2idx that build_answer returns has at most K + 1 entries;
    'UNKNOWN' is always one of its keys; and label2idx['UNKNOWN'] is 0
    whenever no sample's answer is the string 'UNKNOWN'. *)
Theorem build_answer_label_bound (data : list string) (K : Z)
    (label2idx : dict) (idx2label : dict) :
  build_answer data K = Ok (label2idx, idx2label) ->
  (0 <= K -> dict_len label2idx <= K + 1) /\
  (exists j, dict_get String.eqb label2idx "UNKNOWN" = Some j) /\
  ((forall sample field,
      In sample data -> py_index (split tab sample) 2 = Ok field ->
      strip field <> "UNKNOWN") ->
   dict_get String.eqb label2idx "UNKNOWN" = Some 0).
Proof.
  intros H. apply build_answer_inv in H.
  destruct H as (af & top & Haf & Htop & Hl & _).
  assert (Hkeys : map fst (map swap (enumerate_from 1 top)) = top).
  { rewrite map_fst_swap. apply enumerate_from_values. }
  split; [|split].
  - intros HK. subst label2idx. unfold dict_len, len.
    pose proof (dict_update_length String.eqb
                  (map swap (enumerate_from 1 top)) [("UNKNOWN", 0)]) as Hlen.
    rewrite length_map, enumerate_from_length in Hlen. simpl in Hlen.
    assert (Htl : len top <= K).
    { subst top. unfold len. rewrite length_map.
      now apply py_slice_to_length. }
    unfold len in Htl. lia.
  - apply (dict_key_get String.eqb string_eqb_eq).
    subst label2idx. apply (dict_update_keys_In String.eqb string_eqb_eq).
    left. now left.
  - intros Hno. subst label2idx.
    rewrite (dict_update_get_other String.eqb string_eqb_eq); [reflexivity|].
    rewrite Hkeys. intros Hin. subst top.
    apply in_map_iff in Hin. destruct Hin as ([a c] & Ha & Hin).
    simpl in Ha. subst a.
    apply py_slice_to_In, sorted_desc_In in Hin.
    apply (in_map fst) in Hin. simpl in Hin.
    destruct (count_answers_keys _ _ _ _ Haf Hin)
      as [[]|(s & f & Hs & Hf & Hst)].
    exact (Hno s f Hs Hf Hst).
Qed.

Lemma build_answer_label_bound_witness :
  (0 <= 2 -> dict_len sample_label2idx <= 2 + 1) /\
  (exists j, dict_get String.eqb sample_label2idx "UNKNOWN" = Some j) /\
  ((forall sample field,
      In sample sample_corpus -> py_index (split tab sample) 2 = Ok field ->
      strip field <> "UNKNOWN") ->
   dict_get String.eqb sample_label2idx "UNKNOWN" = Some 0).
Proof.
  apply (build_answer_label_bound sample_corpus 2
           sample_label2idx sample_idx2label).
  reflexivity.
Defined.

(** C6 as stated fails twice. With K = -1 the slice [[:K]] drops the last
    answer instead of keeping none, and already on the empty corpus
    label2idx has one entry where K + 1 is 0. With an answer that is the
    string 'UNKNOWN' among the selected ones, the comprehension overwrites
    the entry of the dummy label and label2idx['UNKNOWN'] is the rank of
    that answer. *)
Lemma build_answer_label_bound_fails :
  (build_answer [] (-1) = Ok ([("UNKNOWN", 0)], [(0, "UNKNOWN")]) /\
   ~ dict_len [("UNKNOWN", 0)] <= -1 + 1) /\
  (build_answer
     [ record_line "a.jpg" "is,it" "yes";
       record_line "b.jpg" "what" "cat";
       record_line "c.jpg" "who" "no" ] (-1)
     = Ok ([("UNKNOWN", 0); ("yes", 1); ("cat", 2)],
           [(0, "UNKNOWN"); (1, "yes"); (2, "cat")]) /\
   ~ dict_len [("UNKNOWN", 0); ("yes", 1); ("cat", 2)] <= -1 + 1) /\
  (build_answer [record_line "a.jpg" "what,is,it" "UNKNOWN"] 1
     = Ok ([("UNKNOWN", 1)], [(0, "UNKNOWN"); (1, "UNKNOWN")]) /\
   dict_get String.eqb [("UNKNOWN", 1)] "UNKNOWN" <> Some 0).
Proof.
  repeat split; try reflexivity.
  - unfold dict_len, len. simpl. lia.
  - unfold dict_len, len. simpl. lia.
  - simpl. discriminate.
Qed.

(** The label builder returns on every corpus whose samples have an answer
    field, whatever K. *)
Lemma build_answer_returns (data : list string) (K : Z) :
  Forall (fun sample => (2 < length (split tab sample))%nat) data ->
  returns (build_answer data K).
Proof.
  intros H. unfold build_answer.
  destruct (count_answers_returns data H []) as (af & Haf).
  rewrite Haf. simpl. eexists. reflexivity.
Qed.

(** ** pad_sequences *)

Lemma as_int64_in_range (vals : list Z) :
  Forall (fun x => in_int64 x = true) vals -> as_int64 vals = Ok vals.
Proof.
  induction 1 as [|x vals Hx _ IH]; simpl; [reflexivity|].
  now rewrite Hx, IH.
Qed.

Lemma Forall_firstn_keep {A : Type} (P : A -> Prop) (n : nat) (l : list A) :
  Forall P l -> Forall P (firstn n l).
Proof.
  rewrite !Forall_forall. intros H x Hx. apply H. eapply In_firstn. exact Hx.
Qed.

Lemma skipn_repeat {A : Type} (x : A) (k n : nat) :
  skipn k (repeat x n) = repeat x (n - k).
Proof.
  revert k. induction n as [|n IH]; intros k; simpl.
  - now destruct k.
  - destruct k; simpl; [reflexivity | apply IH].
Qed.

(** A sequence longer than [max_len] is cut to its first [max_len] ids. *)
Lemma pad_sequences_truncates (seq : list Z) (max_len : Z) :
  0 <= max_len -> Forall (fun x => in_int64 x = true) seq ->
  max_len < len seq ->
  pad_sequences seq max_len = Ok (firstn (Z.to_nat max_len) seq).
Proof.
  intros Hm Hr Hlen. unfold pad_sequences, np_zeros.
  replace (max_len <? 0) with false by (symmetry; apply Z.ltb_ge; lia).
  simpl bind.
  replace (len seq >? max_len) with true
    by (symmetry; apply Z.gtb_lt; lia).
  unfold np_assign_to, py_slice_to.
  replace (0 <=? max_len) with true by (symmetry; apply Z.leb_le; lia).
  rewrite as_int64_in_range by (now apply Forall_firstn_keep).
  simpl bind. rewrite repeat_length, Nat.min_id, length_firstn.
  unfold len in Hlen.
  replace (Nat.min (Z.to_nat max_len) (length seq)) with (Z.to_nat max_len)
    by lia.
  rewrite Nat.eqb_refl, skipn_repeat, Nat.sub_diag. simpl.
  now rewrite app_nil_r.
Qed.

(** A sequence that fits is padded on the right with 0, the index of
    <PAD>. *)
Lemma pad_sequences_pads (seq : list Z) (max_len : Z) :
  Forall (fun x => in_int64 x = true) seq ->
  len seq <= max_len ->
  pad_sequences seq max_len
    = Ok (seq ++ repeat 0 (Z.to_nat max_len - length seq)).
Proof.
  intros Hr Hlen. unfold pad_sequences, np_zeros. unfold len in Hlen.
  replace (max_len <? 0) with false by (symmetry; apply Z.ltb_ge; lia).
  simpl bind.
  replace (len seq >? max_len) with false
    by (symmetry; unfold len; rewrite Z.gtb_ltb; apply Z.ltb_ge; lia).
  unfold np_assign_to.
  rewrite as_int64_in_range by exact Hr.
  simpl bind. rewrite repeat_length.
  replace (Nat.min (length seq) (Z.to_nat max_len)) with (length seq) by lia.
  rewrite Nat.eqb_refl, skipn_repeat. reflexivity.
Qed.

(** C9. Encoding a sequence of token ids (int64 values) at a maximum
    length max_seq_length >= 0 returns; the output has exactly
    max_seq_length entries; a longer sequence is cut to its first
    max_seq_length ids and its true length is recorded as max_seq_length;
    a sequence that fits is followed by 0s up to max_seq_length and its
    true length is its token count. *)
Theorem encode_question_pads_or_truncates (token_ids : list Z)
    (max_seq_length : Z) :
  0 <= max_seq_length ->
  Forall (fun x => in_int64 x = true) token_ids ->
  exists padded true_length,
    encode_question token_ids max_seq_length = Ok (padded, true_length) /\
    pad_sequences token_ids max_seq_length = Ok padded /\
    len padded = max_seq_length /\
    (max_seq_length < len token_ids ->
     padded = firstn (Z.to_nat max_seq_length) token_ids /\
     true_length = max_seq_length) /\
    (len token_ids <= max_seq_length ->
     padded = token_ids
                ++ repeat 0 (Z.to_nat max_seq_length - length token_ids) /\
     true_length = len token_ids).
Proof.
  intros Hm Hr. unfold encode_question.
  destruct (Z.lt_ge_cases max_seq_length (len token_ids)) as [Hlong|Hfits].
  - rewrite (pad_sequences_truncates _ _ Hm Hr Hlong). simpl bind.
    replace (len token_ids >? max_seq_length) with true
      by (symmetry; apply Z.gtb_lt; lia).
    eexists _, _. split; [reflexivity|]. split; [reflexivity|].
    split; [|split].
    + unfold len in *. rewrite length_firstn. lia.
    + intros _. split; reflexivity.
    + intros H. lia.
  - rewrite (pad_sequences_pads _ _ Hr Hfits). simpl bind.
    replace (len token_ids >? max_seq_length) with false
      by (symmetry; rewrite Z.gtb_ltb; apply Z.ltb_ge; lia).
    eexists _, _. split; [reflexivity|]. split; [reflexivity|].
    split; [|split].
    + unfold len in *. rewrite length_app, repeat_length. lia.
    + intros H. lia.
    + intros _. split; reflexivity.
Qed.

Lemma encode_question_pads_or_truncates_witness :
  (exists padded true_length,
     encode_question [11; 12; 13; 14; 15; 16; 17] 5
       = Ok (padded, true_length) /\
     pad_sequences [11; 12; 13; 14; 15; 16; 17] 5 = Ok padded /\
     len padded = 5 /\
     (5 < len [11; 12; 13; 14; 15; 16; 17] ->
      padded = firstn (Z.to_nat 5) [11; 12; 13; 14; 15; 16; 17] /\
      true_length = 5) /\
     (len [11; 12; 13; 14; 15; 16; 17] <= 5 ->
      padded = [11; 12; 13; 14; 15; 16; 17]
                 ++ repeat 0 (Z.to_nat 5 - length [11; 12; 13; 14; 15; 16; 17]) /\
      true_length = len [11; 12; 13; 14; 15; 16; 17])).
Proof.
  apply (encode_question_pads_or_truncates [11; 12; 13; 14; 15; 16; 17] 5).
  - lia.
  - repeat constructor.
Defined.

(** The two encodings the specification gives. *)
Lemma encode_question_examples :
  encode_question [11; 12; 13; 14; 15; 16; 17] 5
    = Ok ([11; 12; 13; 14; 15], 5) /\
  encode_question [11; 12; 13] 5 = Ok ([11; 12; 13; 0; 0], 3).
Proof. split; reflexivity. Qed.

(** Outside the hypotheses the padding raises: a negative length is no
    array shape, and an id outside int64 does not fit the array. *)
Lemma pad_sequences_raises :
  pad_sequences [1; 2; 3] (-1) = Raise ValueError /\
  pad_sequences [2 ^ 63] 2 = Raise OverflowError.
Proof. split; reflexivity. Qed.

(** ** Indexing by an index tensor *)

Lemma index_select_length {A : Type} (t : list A) (idx : list nat) :
  forall r, index_select t idx = Ok r -> length r = length idx.
Proof.
  induction idx as [|i idx IH]; intros r; simpl.
  - intros [= <-]. reflexivity.
  - intros H. apply bind_Ok_inv in H. destruct H as (x & _ & H).
    apply bind_Ok_inv in H. destruct H as (xs & Hxs & H).
    injection H as <-. simpl. now rewrite (IH _ Hxs).
Qed.

Lemma index_select_nth {A : Type} (t : list A) (idx : list nat) :
  forall r, index_select t idx = Ok r ->
  forall i j, nth_error idx i = Some j ->
  exists x, nth_error t j = Some x /\ nth_error r i = Some x.
Proof.
  induction idx as [|k idx IH]; intros r; simpl.
  - intros _ i j H. destruct i; discriminate.
  - intros H. apply bind_Ok_inv in H. destruct H as (x & Hx & H).
    apply bind_Ok_inv in H. destruct H as (xs & Hxs & H).
    injection H as <-. intros i j Hij. destruct i as [|i]; simpl in *.
    + injection Hij as ->. exists x. split; [|reflexivity].
      unfold py_index in Hx. destruct (nth_error t j); [|discriminate].
      now injection Hx as ->.
    + eapply IH; eauto.
Qed.

Lemma index_select_returns {A : Type} (t : list A) (idx : list nat) :
  (forall j, In j idx -> (j < length t)%nat) ->
  returns (index_select t idx).
Proof.
  induction idx as [|i idx IH]; intros Hin; simpl.
  - now exists [].
  - unfold py_index.
    destruct (nth_error t i) as [x|] eqn:E.
    + simpl. destruct IH as (xs & Hxs).
      { intros j Hj. apply Hin. now right. }
      rewrite Hxs. simpl. now exists (x :: xs).
    + apply nth_error_None in E.
      specialize (Hin i (or_introl eq_refl)). lia.
Qed.

(** ** sort_batch *)

Section SortBatchFacts.
Context {Image Question Answer : Type}.
Variable tensor_sort : list Z -> list Z * list nat.
Hypothesis tensor_sort_ok : sorts_descending tensor_sort.

Lemma tensor_sort_indices (t : list Z) (j : nat) :
  In j (snd (tensor_sort t)) <-> (j < length t)%nat.
Proof.
  destruct (tensor_sort_ok t) as (Hperm & _ & _). split.
  - intros H. apply (Permutation_in _ Hperm) in H. apply in_seq in H. lia.
  - intros H. apply (Permutation_in _ (Permutation_sym Hperm)).
    apply in_seq. lia.
Qed.

Lemma tensor_sort_select {A : Type} (xs : list A) (t : list Z) :
  length xs = length t ->
  returns (index_select xs (snd (tensor_sort t))).
Proof.
  intros Hlen. apply index_select_returns.
  intros j Hj. apply tensor_sort_indices in Hj. lia.
Qed.

(** The batch sorter returns on four tensors of one length, and what it
    returns is each tensor indexed by the indices of the sort. *)
Lemma sort_batch_returns (images : list Image) (questions : list Question)
    (answers : list Answer) (ques_seq_lens : list Z) :
  length images = length ques_seq_lens ->
  length questions = length ques_seq_lens ->
  length answers = length ques_seq_lens ->
  exists images' questions' answers',
    sort_batch tensor_sort images questions answers ques_seq_lens
      = Ok (images', questions', answers', fst (tensor_sort ques_seq_lens)) /\
    index_select images (snd (tensor_sort ques_seq_lens)) = Ok images' /\
    index_select questions (snd (tensor_sort ques_seq_lens)) = Ok questions' /\
    index_select answers (snd (tensor_sort ques_seq_lens)) = Ok answers'.
Proof.
  intros Hi Hq Ha. unfold sort_batch.
  destruct (tensor_sort_select images ques_seq_lens Hi) as (im' & Him).
  destruct (tensor_sort_select questions ques_seq_lens Hq) as (q' & Hq').
  destruct (tensor_sort_select answers ques_seq_lens Ha) as (a' & Ha').
  exists im', q', a'.
  destruct (tensor_sort ques_seq_lens) as [lens' idx]. simpl in *.
  rewrite Hq', Ha', Him. simpl. repeat split; reflexivity.
Qed.

End SortBatchFacts.

(** C8. For every batch of four parallel tensors (images, questions,
    answers, sequence lengths), sort_batch returns the batch with the
    sequence lengths non-increasing, every one of the four tensors indexed
    by one and the same permutation of the positions, so that the image,
    question, answer and length at an output position stood together at
    one position of the input. Stated for every sort that keeps the
    contract of [Tensor.sort(descending=True)]. *)
Theorem sort_batch_same_permutation {Image Question Answer : Type}
    (tensor_sort : list Z -> list Z * list nat)
    (images : list Image) (questions : list Question)
    (answers : list Answer) (ques_seq_lens : list Z) :
  sorts_descending tensor_sort ->
  length images = length ques_seq_lens ->
  length questions = length ques_seq_lens ->
  length answers = length ques_seq_lens ->
  exists images' questions' answers' ques_seq_lens' idx,
    sort_batch tensor_sort images questions answers ques_seq_lens
      = Ok (images', questions', answers', ques_seq_lens') /\
    non_increasing ques_seq_lens' /\
    Permutation idx (seq 0 (length ques_seq_lens)) /\
    index_select images idx = Ok images' /\
    index_select questions idx = Ok questions' /\
    index_select answers idx = Ok answers' /\
    index_select ques_seq_lens idx = Ok ques_seq_lens' /\
    (forall i, (i < length ques_seq_lens)%nat ->
     exists j im q a l,
       (j < length ques_seq_lens)%nat /\
       nth_error images j = Some im /\ nth_error images' i = Some im /\
       nth_error questions j = Some q /\ nth_error questions' i = Some q /\
       nth_error answers j = Some a /\ nth_error answers' i = Some a /\
       nth_error ques_seq_lens j = Some l /\
       nth_error ques_seq_lens' i = Some l).
Proof.
  intros Hsort Hi Hq Ha.
  destruct (sort_batch_returns tensor_sort Hsort images questions answers
              ques_seq_lens Hi Hq Ha) as (im' & q' & a' & Hrun & Him & Hq' & Ha').
  destruct (Hsort ques_seq_lens) as (Hperm & Hlens & Hdesc).
  exists im', q', a', (fst (tensor_sort ques_seq_lens)),
    (snd (tensor_sort ques_seq_lens)).
  repeat (split; [assumption|]).
  intros i Hlt.
  assert (Hlen : length (snd (tensor_sort ques_seq_lens))
                 = length ques_seq_lens).
  { rewrite (Permutation_length Hperm). apply length_seq. }
  destruct (nth_error (snd (tensor_sort ques_seq_lens)) i) as [j|] eqn:Ej.
  - assert (Hj : (j < length ques_seq_lens)%nat).
    { apply (tensor_sort_indices tensor_sort Hsort).
      eapply nth_error_In. exact Ej. }
    destruct (index_select_nth _ _ _ Him _ _ Ej) as (im & H1 & H2).
    destruct (index_select_nth _ _ _ Hq' _ _ Ej) as (q & H3 & H4).
    destruct (index_select_nth _ _ _ Ha' _ _ Ej) as (a & H5 & H6).
    destruct (index_select_nth _ _ _ Hlens _ _ Ej) as (l & H7 & H8).
    exists j, im, q, a, l. repeat split; assumption.
  - apply nth_error_None in Ej. lia.
Qed.

(** ** The stable sort keeps the contract *)

Lemma insert_desc_sorted {A : Type} (key : A -> Z) (x : A) (l : list A) :
  StronglySorted (fun a b => key b <= key a) l ->
  StronglySorted (fun a b => key b <= key a) (insert_desc key x l).
Proof.
  induction 1 as [|y l Hs IH Hy]; simpl.
  - constructor; constructor.
  - destruct (key x <? key y) eqn:E.
    + apply Z.ltb_lt in E. constructor; [exact IH|].
      apply Forall_forall. intros z Hz.
      apply insert_desc_In in Hz. destruct Hz as [->|Hz]; [lia|].
      rewrite Forall_forall in Hy. now apply Hy.
    + apply Z.ltb_ge in E. constructor.
      * now constructor.
      * constructor; [exact E|].
        apply Forall_forall. intros z Hz.
        rewrite Forall_forall in Hy. specialize (Hy z Hz). lia.
Qed.

Lemma sorted_desc_sorted {A : Type} (key : A -> Z) (l : list A) :
  StronglySorted (fun a b => key b <= key a) (sorted_desc key l).
Proof.
  induction l as [|x l IH]; simpl; [constructor|].
  now apply insert_desc_sorted.
Qed.

Lemma sorted_non_increasing (l : list Z) :
  StronglySorted (fun a b => b <= a) l -> non_increasing l.
Proof.
  induction 1 as [|x l Hs IH Hx]; intros i j a b Hij Hi Hj.
  - destruct i; discriminate.
  - destruct i as [|i], j as [|j]; simpl in *.
    + injection Hi as <-. injection Hj as <-. lia.
    + injection Hi as <-. apply nth_error_In in Hj.
      rewrite Forall_forall in Hx. now apply Hx.
    + lia.
    + eapply IH; [|exact Hi | exact Hj]. lia.
Qed.

Lemma StronglySorted_map_fst {B : Type} (l : list (Z * B)) :
  StronglySorted (fun a b => fst b <= fst a) l ->
  StronglySorted (fun a b => b <= a) (map fst l).
Proof.
  induction 1 as [|x l Hs IH Hx]; simpl; constructor.
  - exact IH.
  - apply Forall_forall. intros z Hz. apply in_map_iff in Hz.
    destruct Hz as (p & <- & Hp). rewrite Forall_forall in Hx. now apply Hx.
Qed.

Lemma map_snd_combine_seq {A : Type} (t : list A) (k : nat) :
  map snd (combine t (seq k (length t))) = seq k (length t).
Proof.
  revert k. induction t as [|x t IH]; intros k; simpl; [reflexivity|].
  now rewrite IH.
Qed.

(** Every pair of [zip(t, range(len(t)))] is a value with its position. *)
Lemma combine_seq_nth {A : Type} (t : list A) (v : A) (i : nat) :
  forall k, In (v, i) (combine t (seq k (length t))) ->
  (k <= i)%nat /\ nth_error t (i - k) = Some v.
Proof.
  induction t as [|x t IH]; intros k; simpl; [intros []|].
  intros [H|H].
  - injection H as -> ->. rewrite Nat.sub_diag. split; [lia | reflexivity].
  - apply IH in H. destruct H as (Hk & Hn). split; [lia|].
    replace (i - k)%nat with (S (i - S k)) by lia. exact Hn.
Qed.

Lemma index_select_pairs {A : Type} (t : list A) (s : list (A * nat)) :
  (forall v i, In (v, i) s -> nth_error t i = Some v) ->
  index_select t (map snd s) = Ok (map fst s).
Proof.
  induction s as [|[v i] s IH]; intros H; simpl; [reflexivity|].
  unfold py_index. rewrite (H v i (or_introl eq_refl)). simpl.
  rewrite IH; [reflexivity|]. intros v' i' Hin. apply H. now right.
Qed.

Lemma stable_sort_sorts_descending : sorts_descending stable_sort.
Proof.
  intros t. unfold stable_sort. simpl.
  set (pairs := combine t (seq 0 (length t))).
  split; [|split].
  - rewrite <- (map_snd_combine_seq t 0). fold pairs.
    apply Permutation_map. apply Permutation_sym, sorted_desc_Permutation.
  - apply index_select_pairs. intros v i Hin.
    apply sorted_desc_In in Hin. unfold pairs in Hin.
    apply combine_seq_nth in Hin. destruct Hin as (_ & Hin).
    now rewrite Nat.sub_0_r in Hin.
  - apply sorted_non_increasing, StronglySorted_map_fst, sorted_desc_sorted.
Qed.

Lemma sort_batch_same_permutation_witness :
  exists images' questions' answers' ques_seq_lens' idx,
    sort_batch stable_sort ["a.jpg"; "b.jpg"; "c.jpg"; "d.jpg"]
      [[4; 5; 6]; [4; 5; 6; 7; 8]; [9; 4; 6]; [4; 5; 9; 9; 9; 7; 8]]
      [1; 2; 0; 1] [3; 5; 3; 7]
      = Ok (images', questions', answers', ques_seq_lens') /\
    non_increasing ques_seq_lens' /\
    Permutation idx (seq 0 (length [3; 5; 3; 7])) /\
    index_select ["a.jpg"; "b.jpg"; "c.jpg"; "d.jpg"] idx = Ok images' /\
    index_select
      [[4; 5; 6]; [4; 5; 6; 7; 8]; [9; 4; 6]; [4; 5; 9; 9; 9; 7; 8]] idx
      = Ok questions' /\
    index_select [1; 2; 0; 1] idx = Ok answers' /\
    index_select [3; 5; 3; 7] idx = Ok ques_seq_lens' /\
    (forall i, (i < length [3; 5; 3; 7])%nat ->
     exists j im q a l,
       (j < length [3; 5; 3; 7])%nat /\
       nth_error ["a.jpg"; "b.jpg"; "c.jpg"; "d.jpg"] j = Some im /\
       nth_error images' i = Some im /\
       nth_error
         [[4; 5; 6]; [4; 5; 6; 7; 8]; [9; 4; 6]; [4; 5; 9; 9; 9; 7; 8]] j
         = Some q /\
       nth_error questions' i = Some q /\
       nth_error [1; 2; 0; 1] j = Some a /\ nth_error answers' i = Some a /\
       nth_error [3; 5; 3; 7] j = Some l /\
       nth_error ques_seq_lens' i = Some l).
Proof.
  apply (sort_batch_same_permutation stable_sort
           ["a.jpg"; "b.jpg"; "c.jpg"; "d.jpg"]
           [[4; 5; 6]; [4; 5; 6; 7; 8]; [9; 4; 6]; [4; 5; 9; 9; 9; 7; 8]]
           [1; 2; 0; 1] [3; 5; 3; 7]).
  - exact stable_sort_sorts_descending.
  - reflexivity.
  - reflexivity.
  - reflexivity.
Defined.

(** The same batch, sorted: the longest question first, the two
    questions of length 3 in their input order. *)
Lemma sort_batch_example :
  sort_batch stable_sort ["a.jpg"; "b.jpg"; "c.jpg"; "d.jpg"]
    [[4; 5; 6]; [4; 5; 6; 7; 8]; [9; 4; 6]; [4; 5; 9; 9; 9; 7; 8]]
    [1; 2; 0; 1] [3; 5; 3; 7]
  = Ok (["d.jpg"; "b.jpg"; "a.jpg"; "c.jpg"],
        [[4; 5; 9; 9; 9; 7; 8]; [4; 5; 6; 7; 8]; [4; 5; 6]; [9; 4; 6]],
        [1; 2; 1; 0], [7; 5; 3; 3]).
Proof. reflexivity. Qed.

(** Tensors of different lengths are no batch: the indexing raises. *)
Lemma sort_batch_ragged :
  sort_batch stable_sort ["a.jpg"] [[4; 5; 6]; [4; 5]] [1] [3; 2]
    = Raise IndexError.
Proof. reflexivity. Qed.

(** ** The training loop: the time estimate *)

Lemma first_step_raises (args : LoopArgs) (st : LoopState) :
  curr_step st = 0 ->
  log_interval args = 1 \/ log_interval args = -1 \/ log_interval args = 0 ->
  train_step args st = Raise ZeroDivisionError.
Proof.
  intros Hs Hli. unfold train_step, log_due, estimate_time_left.
  rewrite Hs. destruct Hli as [-> | [-> | ->]]; reflexivity.
Qed.

(** C4, as the code has it. The estimate divides the elapsed time by
    curr_step with no guard: with log_interval = 1 (or -1) the logging
    branch is taken at the first step, where curr_step is 0, and the
    division raises ZeroDivisionError; with log_interval = 0 the test of
    the branch itself divides by zero. Training stops at its first step. *)
Theorem time_estimate_divides_by_zero (args : LoopArgs) :
  1 <= num_epochs args -> 1 <= steps_per_epoch args ->
  log_interval args = 1 \/ log_interval args = -1 \/ log_interval args = 0 ->
  train args = Raise ZeroDivisionError.
Proof.
  intros He Hs Hli. unfold train.
  destruct (Z.to_nat (num_epochs args)) as [|epochs] eqn:Ee; [lia|].
  simpl train_epochs.
  destruct (Z.to_nat (steps_per_epoch args)) as [|steps] eqn:Es; [lia|].
  simpl train_batches.
  rewrite (first_step_raises args
             {| curr_step := 0; logged := []; saved := [] |} eq_refl Hli).
  reflexivity.
Qed.

Lemma time_estimate_divides_by_zero_witness :
  train (sample_args 1) = Raise ZeroDivisionError.
Proof.
  apply (time_estimate_divides_by_zero (sample_args 1)).
  - simpl. lia.
  - simpl. lia.
  - left. reflexivity.
Defined.

(** With the default interval the first log line is the one of
    [curr_step == 1], and the division is by 1. *)
Lemma train_default_interval :
  exists st,
    train (sample_args 100) = Ok st /\
    curr_step st = 6 /\ map fst (logged st) = [2].
Proof. eexists. split; [reflexivity|]. split; reflexivity. Qed.

(** ** compute_validation_metrics *)

Lemma count_correct_bounds (labels predicted : list Z) :
  0 <= count_correct labels predicted <= len labels.
Proof.
  unfold count_correct, len.
  pose proof (filter_length_le (fun p => fst p =? snd p)
                (combine labels predicted)) as Hf.
  rewrite length_combine in Hf. lia.
Qed.

(** An accuracy is a percentage when the correct answers are no more than
    the samples it is taken over. *)
Lemma percent_bounds (num_correct total : Z) :
  0 <= num_correct -> 0 < total ->
  (0 <= 100 * inject_Z num_correct / inject_Z total)%Q /\
  (num_correct <= total ->
   (100 * inject_Z num_correct / inject_Z total <= 100)%Q).
Proof.
  intros Hc Ht.
  assert (Hpos : (0 < inject_Z total)%Q) by (unfold Qlt; simpl; lia).
  split.
  - apply Qle_shift_div_l; [exact Hpos|].
    unfold Qle, Qmult, inject_Z; cbn [Qnum Qden]; lia.
  - intros Hle. apply Qle_shift_div_r; [exact Hpos|].
    unfold Qle, Qmult, inject_Z; cbn [Qnum Qden]; lia.
Qed.

Section ValidationFacts.
Context {Image Question : Type}.
Variable tensor_sort : list Z -> list Z * list nat.
Hypothesis tensor_sort_ok : sorts_descending tensor_sort.
Variable model : list Image -> list Question -> list Z -> list (list Q).
Variable cross_entropy : list (list Q) -> list Z -> Q.

(** A full batch is sorted without an error and keeps its size. *)
Lemma sort_full_batch (n : Z) (b : Batch Image Question) :
  full_batch n b ->
  exists images questions labels lens,
    sort_batch tensor_sort (image b) (question b) (label b) (ques_len b)
      = Ok (images, questions, labels, lens) /\
    len labels = n.
Proof.
  intros (Hi & Hq & Hl & Ha). unfold len in *.
  destruct (sort_batch_returns tensor_sort tensor_sort_ok
              (image b) (question b) (label b) (ques_len b))
    as (im' & q' & a' & Hrun & _ & _ & Hsel); try lia.
  exists im', q', a', (fst (tensor_sort (ques_len b))).
  split; [exact Hrun|].
  apply index_select_length in Hsel. rewrite Hsel.
  destruct (tensor_sort_ok (ques_len b)) as (Hperm & _ & _).
  rewrite (Permutation_length Hperm), length_seq. exact Hl.
Qed.

(** The loop over the stream: it returns, it takes the batch of index
    n_iters too before it breaks, and it counts at most batch_size correct
    answers a batch. *)
Lemma evaluate_batches_run (n_iters bs : Z)
    (stream : list (Batch Image Question)) :
  Forall (full_batch bs) stream ->
  forall i loss num_correct consumed,
  exists loss' num_correct' consumed',
    evaluate_batches tensor_sort model cross_entropy n_iters i stream
      loss num_correct consumed = Ok (loss', num_correct', consumed') /\
    Z.of_nat consumed' - Z.of_nat consumed
      = Z.min (len stream) (Z.max 1 (n_iters - i + 1)) /\
    num_correct <= num_correct' /\
    num_correct' - num_correct
      <= bs * (Z.of_nat consumed' - Z.of_nat consumed).
Proof.
  induction 1 as [|b stream Hb Hrest IH]; intros i loss nc consumed.
  - exists loss, nc, consumed. simpl. unfold len. simpl.
    split; [reflexivity|]. lia.
  - destruct (sort_full_batch bs b Hb) as (im & q & lb & ls & Hsort & Hlen).
    simpl evaluate_batches. rewrite Hsort. simpl bind.
    pose proof (count_correct_bounds lb (map argmax (model im q ls))) as Hc.
    rewrite Hlen in Hc.
    assert (Hcons : len (b :: stream) = 1 + len stream)
      by (unfold len; simpl length; lia).
    assert (Hnn : 0 <= len stream) by (unfold len; lia).
    destruct (i >=? n_iters) eqn:E.
    + apply Z.geb_le in E.
      eexists _, _, _. split; [reflexivity|]. rewrite Hcons. lia.
    + rewrite Z.geb_leb in E. apply Z.leb_gt in E.
      destruct (IH (i + 1)
                  (loss + cross_entropy (model im q ls) lb)%Q
                  (nc + count_correct lb (map argmax (model im q ls)))
                  (S consumed))
        as (loss' & nc' & consumed' & Hrun & Hcount & Hlo & Hhi).
      exists loss', nc', consumed'. split; [exact Hrun|].
      rewrite Hcons. nia.
Qed.

(** The evaluator on a budget of at least one batch. *)
Lemma validation_run_returns (dataloader : DataLoader Image Question)
    (size : Z) :
  0 < batch_size dataloader -> batch_size dataloader <= size ->
  Forall (full_batch (batch_size dataloader)) (batches dataloader) ->
  exists loss_sum num_correct consumed,
    validation_run tensor_sort model cross_entropy dataloader size
      = Ok ({| accuracy :=
                 (100 * inject_Z num_correct
                    / inject_Z (size / batch_size dataloader
                                  * batch_size dataloader))%Q;
               loss :=
                 (loss_sum / inject_Z (size / batch_size dataloader))%Q |},
            consumed,
            size / batch_size dataloader * batch_size dataloader) /\
    Z.of_nat consumed
      = Z.min (len (batches dataloader))
          (size / batch_size dataloader + 1) /\
    0 <= num_correct <= batch_size dataloader * Z.of_nat consumed.
Proof.
  intros Hbs Hsize Hfull.
  assert (Hn : 1 <= size / batch_size dataloader).
  { apply Z.div_le_lower_bound; lia. }
  destruct (evaluate_batches_run (size / batch_size dataloader)
              (batch_size dataloader) (batches dataloader) Hfull 0 0%Q 0 O)
    as (loss' & nc & consumed & Hrun & Hcount & Hlo & Hhi).
  exists loss', nc, consumed.
  unfold validation_run, py_floordiv.
  replace (batch_size dataloader =? 0) with false
    by (symmetry; apply Z.eqb_neq; lia).
  simpl bind. rewrite Hrun. simpl bind. unfold float_div.
  replace (size / batch_size dataloader * batch_size dataloader =? 0)
    with false by (symmetry; apply Z.eqb_neq; nia).
  simpl bind.
  replace (size / batch_size dataloader =? 0) with false
    by (symmetry; apply Z.eqb_neq; lia).
  simpl bind. split; [reflexivity|]. split; [lia | nia].
Qed.

(** The evaluator on a budget below one batch. *)
Lemma validation_run_small_budget (dataloader : DataLoader Image Question)
    (size : Z) :
  0 <= size < batch_size dataloader ->
  Forall (full_batch (batch_size dataloader)) (batches dataloader) ->
  validation_run tensor_sort model cross_entropy dataloader size
    = Raise ZeroDivisionError.
Proof.
  intros Hsize Hfull.
  destruct (evaluate_batches_run 0
              (batch_size dataloader) (batches dataloader) Hfull 0 0%Q 0 O)
    as (loss' & nc & consumed & Hrun & _).
  unfold validation_run, py_floordiv.
  replace (batch_size dataloader =? 0) with false
    by (symmetry; apply Z.eqb_neq; lia).
  simpl bind. rewrite (Z.div_small size (batch_size dataloader)) by lia.
  rewrite Hrun. reflexivity.
Qed.

End ValidationFacts.

(** C2, as the code has it. With a batch size above 0, full batches and a
    sample budget of at least one batch, the evaluator returns an accuracy
    of 0 or more, and of 100 or less when the stream yields no more than
    floor(size / batch_size) batches; with a budget of 0 or more and below
    one batch, the division by [total = 0] raises ZeroDivisionError, which
    nothing in the evaluator guards or catches. *)
Theorem validation_accuracy_bounds {Image Question : Type}
    (tensor_sort : list Z -> list Z * list nat)
    (model : list Image -> list Question -> list Z -> list (list Q))
    (cross_entropy : list (list Q) -> list Z -> Q)
    (dataloader : DataLoader Image Question) (size : Z) :
  sorts_descending tensor_sort ->
  0 < batch_size dataloader ->
  Forall (full_batch (batch_size dataloader)) (batches dataloader) ->
  (batch_size dataloader <= size ->
   exists metrics,
     compute_validation_metrics tensor_sort model cross_entropy
       dataloader size = Ok metrics /\
     (0 <= accuracy metrics)%Q /\
     (len (batches dataloader) <= size / batch_size dataloader ->
      (accuracy metrics <= 100)%Q)) /\
  (0 <= size < batch_size dataloader ->
   compute_validation_metrics tensor_sort model cross_entropy
     dataloader size = Raise ZeroDivisionError).
Proof.
  intros Hsort Hbs Hfull. split.
  - intros Hsize.
    destruct (validation_run_returns tensor_sort Hsort model cross_entropy
                dataloader size Hbs Hsize Hfull)
      as (ls & nc & consumed & Hrun & Hcons & Hnc).
    assert (Hn : 1 <= size / batch_size dataloader)
      by (apply Z.div_le_lower_bound; lia).
    assert (Htotal : 0 < size / batch_size dataloader * batch_size dataloader)
      by nia.
    destruct (percent_bounds nc _ (proj1 Hnc) Htotal) as (Hlo & Hhi).
    eexists. unfold compute_validation_metrics. rewrite Hrun. simpl.
    split; [reflexivity|]. split; [exact Hlo|].
    intros Hshort. apply Hhi. nia.
  - intros Hsize. unfold compute_validation_metrics.
    now rewrite (validation_run_small_budget tensor_sort Hsort model
                   cross_entropy dataloader size Hsize Hfull).
Qed.

Lemma sample_loader_full (n : nat) :
  Forall (full_batch (batch_size (sample_loader n)))
    (batches (sample_loader n)).
Proof.
  simpl. apply Forall_forall. intros b Hb. apply repeat_spec in Hb.
  subst b. repeat split.
Qed.

Lemma validation_accuracy_bounds_witness :
  (2 <= 4 ->
   exists metrics,
     compute_validation_metrics stable_sort sample_model
       sample_cross_entropy (sample_loader 2) 4 = Ok metrics /\
     (0 <= accuracy metrics)%Q /\
     (len (batches (sample_loader 2)) <= 4 / 2 ->
      (accuracy metrics <= 100)%Q)) /\
  (0 <= 4 < 2 ->
   compute_validation_metrics stable_sort sample_model
     sample_cross_entropy (sample_loader 2) 4 = Raise ZeroDivisionError).
Proof.
  apply (validation_accuracy_bounds stable_sort sample_model
           sample_cross_entropy (sample_loader 2) 4).
  - exact stable_sort_sorts_descending.
  - simpl. lia.
  - exact (sample_loader_full 2).
Defined.

(** C2 as stated fails. A budget of one batch on a stream of two batches,
    every answer correct: two batches are counted over a denominator of
    one, and the accuracy is 200. A budget below one batch: the division
    raises ZeroDivisionError, the exception of the division itself. A
    negative budget: the denominator is negative and so is the accuracy. *)
Lemma validation_accuracy_bounds_fails :
  (exists metrics,
     compute_validation_metrics stable_sort sample_model
       sample_cross_entropy (sample_loader 2) 2 = Ok metrics /\
     (accuracy metrics == 200)%Q /\ ~ (accuracy metrics <= 100)%Q) /\
  compute_validation_metrics stable_sort sample_model
    sample_cross_entropy (sample_loader 2) 1 = Raise ZeroDivisionError /\
  (exists metrics,
     compute_validation_metrics stable_sort sample_model
       sample_cross_entropy (sample_loader 2) (-2) = Ok metrics /\
     ~ (0 <= accuracy metrics)%Q).
Proof.
  split; [|split].
  - eexists. split; [reflexivity|]. split.
    + reflexivity.
    + intros H. vm_compute in H. apply H. reflexivity.
  - reflexivity.
  - eexists. split; [reflexivity|].
    intros H. vm_compute in H. apply H. reflexivity.
Qed.

(** C3, as the code has it. On a stream of at least
    floor(size / batch_size) + 1 full batches the evaluator consumes
    floor(size / batch_size) + 1 of them, one more than the specification says:
    the test [i >= n_iters] stands after the work on batch i. The
    denominator is floor(size / batch_size) * batch_size, the size of one
    batch less than what was counted. *)
Theorem validation_consumes_one_batch_more {Image Question : Type}
    (tensor_sort : list Z -> list Z * list nat)
    (model : list Image -> list Question -> list Z -> list (list Q))
    (cross_entropy : list (list Q) -> list Z -> Q)
    (dataloader : DataLoader Image Question) (size : Z) :
  sorts_descending tensor_sort ->
  0 < batch_size dataloader ->
  batch_size dataloader <= size ->
  Forall (full_batch (batch_size dataloader)) (batches dataloader) ->
  size / batch_size dataloader + 1 <= len (batches dataloader) ->
  exists metrics consumed total,
    validation_run tensor_sort model cross_entropy dataloader size
      = Ok (metrics, consumed, total) /\
    Z.of_nat consumed = size / batch_size dataloader + 1 /\
    total = size / batch_size dataloader * batch_size dataloader /\
    total = (Z.of_nat consumed - 1) * batch_size dataloader.
Proof.
  intros Hsort Hbs Hsize Hfull Hlong.
  destruct (validation_run_returns tensor_sort Hsort model cross_entropy
              dataloader size Hbs Hsize Hfull)
    as (ls & nc & consumed & Hrun & Hcons & _).
  eexists _, consumed, _. split; [exact Hrun|].
  assert (Hc : Z.of_nat consumed = size / batch_size dataloader + 1) by lia.
  split; [exact Hc|]. split; [reflexivity|]. rewrite Hc. ring.
Qed.

Lemma validation_consumes_one_batch_more_witness :
  exists metrics consumed total,
    validation_run stable_sort sample_model sample_cross_entropy
      (sample_loader 3) 4 = Ok (metrics, consumed, total) /\
    Z.of_nat consumed = 4 / 2 + 1 /\
    total = 4 / 2 * 2 /\
    total = (Z.of_nat consumed - 1) * 2.
Proof.
  apply (validation_consumes_one_batch_more stable_sort sample_model
           sample_cross_entropy (sample_loader 3) 4).
  - exact stable_sort_sorts_descending.
  - simpl. lia.
  - simpl. lia.
  - exact (sample_loader_full 3).
  - vm_compute. discriminate.
Defined.

(** A budget of one batch on a stream of two: both are consumed, and the
    two correct answers of the second are counted over the first alone. *)
Lemma validation_run_example :
  exists metrics,
    validation_run stable_sort sample_model sample_cross_entropy
      (sample_loader 2) 2 = Ok (metrics, 2%nat, 2) /\
    (accuracy metrics == 200)%Q.
Proof. eexists. split; reflexivity. Qed.

(** When the stream ends first, as at the end of an epoch where the budget
    is the whole validation set, every batch consumed is in the
    denominator. *)
Lemma validation_run_whole_stream {Image Question : Type}
    (tensor_sort : list Z -> list Z * list nat)
    (model : list Image -> list Question -> list Z -> list (list Q))
    (cross_entropy : list (list Q) -> list Z -> Q)
    (dataloader : DataLoader Image Question) (size : Z) :
  sorts_descending tensor_sort ->
  0 < batch_size dataloader ->
  batch_size dataloader <= size ->
  Forall (full_batch (batch_size dataloader)) (batches dataloader) ->
  len (batches dataloader) <= size / batch_size dataloader ->
  exists metrics total,
    validation_run tensor_sort model cross_entropy dataloader size
      = Ok (metrics, length (batches dataloader), total).
Proof.
  intros Hsort Hbs Hsize Hfull Hshort.
  destruct (validation_run_returns tensor_sort Hsort model cross_entropy
              dataloader size Hbs Hsize Hfull)
    as (ls & nc & consumed & Hrun & Hcons & _).
  assert (consumed = length (batches dataloader)) as <-
    by (unfold len in *; lia).
  eexists _, _. exact Hrun.
Qed.

(** * Further properties *)

(** ** build_answer: the two label dicts *)

Lemma dict_set_In {K V : Type} (eqb : K -> K -> bool)
    (eqb_eq : forall x y, eqb x y = true <-> x = y) (d : dict)
    (k k' : K) (v v' : V) :
  In (k', v') (dict_set eqb d k v) -> (k', v') = (k, v) \/ In (k', v') d.
Proof.
  induction d as [|[k0 v0] d IH]; simpl.
  - intros [H|[]]. left. now symmetry.
  - destruct (eqb k0 k) eqn:E; simpl.
    + intros [H|H]; [|right; now right].
      injection H as <- <-. apply eqb_eq in E. subst k0. now left.
    + intros [H|H]; [right; now left|].
      destruct (IH H) as [H1|H1]; [now left | right; now right].
Qed.

Lemma dict_update_In {K V : Type} (eqb : K -> K -> bool)
    (eqb_eq : forall x y, eqb x y = true <-> x = y)
    (items : list (K * V)) (d : dict) (kv : K * V) :
  In kv (dict_update eqb d items) -> In kv d \/ In kv items.
Proof.
  unfold dict_update.
  revert d. induction items as [|[k v] items IH]; intros d; simpl.
  - now left.
  - intros H. destruct (IH _ H) as [H1|H1]; [|right; now right].
    destruct kv as [k' v'].
    destruct (dict_set_In eqb eqb_eq _ _ _ _ _ H1) as [H2|H2].
    + right. left. now symmetry.
    + now left.
Qed.

Lemma enumerate_from_In {A : Type} (l : list A) (i j : Z) (x : A) :
  In (j, x) (enumerate_from i l) -> i <= j < i + len l.
Proof.
  revert i. induction l as [|y l IH]; intros i; simpl; [intros []|].
  unfold len in *. simpl length. intros [H|H].
  - injection H as <- <-. lia.
  - apply IH in H. lia.
Qed.

Lemma enumerate_from_keys_NoDup {A : Type} (l : list A) (i : Z) :
  NoDup (map fst (enumerate_from i l)).
Proof.
  revert i. induction l as [|y l IH]; intros i; simpl; constructor.
  - intros H. apply in_map_iff in H. destruct H as ([j x] & Hj & H).
    simpl in Hj. subst j. apply enumerate_from_In in H. lia.
  - apply IH.
Qed.

(** The comprehension over [enumerate] has one entry per position. *)
Lemma idx2label_is_enumerate (data : list string) (K : Z)
    (label2idx : dict) (idx2label : dict) :
  build_answer data K = Ok (label2idx, idx2label) ->
  exists top_k_answers,
    (0 <= K -> len top_k_answers <= K) /\
    idx2label = enumerate ("UNKNOWN" :: top_k_answers) /\
    forall a i, In (a, i) label2idx ->
                In (i, a) (enumerate ("UNKNOWN" :: top_k_answers)).
Proof.
  intros H. apply build_answer_inv in H.
  destruct H as (af & top & _ & Htop & Hl & Hi).
  exists top. split; [|split].
  - intros HK. subst top. unfold len. rewrite length_map.
    now apply py_slice_to_length.
  - rewrite Hi. apply (dict_of_items_fresh Z.eqb Z_eqb_eq).
    apply enumerate_from_keys_NoDup.
  - intros a i Hin. subst label2idx.
    apply (dict_update_In String.eqb string_eqb_eq) in Hin.
    unfold enumerate. simpl.
    destruct Hin as [[H|[]]|H].
    + injection H as <- <-. now left.
    + right. apply (proj1 (In_swap _ _ _)). exact H.
Qed.

(** X1. The two label dicts of build_answer agree: idx2label maps
    label2idx[a] back to a for every label a of label2idx, and index 0 of
    idx2label is 'UNKNOWN', for every corpus and every K, also when an
    answer of the corpus is the string 'UNKNOWN'. *)
Theorem build_answer_round_trip (data : list string) (K : Z)
    (label2idx : dict) (idx2label : dict) :
  build_answer data K = Ok (label2idx, idx2label) ->
  dict_get Z.eqb idx2label 0 = Some "UNKNOWN" /\
  forall a i, dict_get String.eqb label2idx a = Some i ->
              dict_get Z.eqb idx2label i = Some a.
Proof.
  intros H. apply idx2label_is_enumerate in H.
  destruct H as (top & _ & -> & Hin). split; [reflexivity|].
  intros a i Hg. apply (In_dict_get Z.eqb Z_eqb_eq).
  - apply enumerate_from_keys_NoDup.
  - apply Hin. now apply (dict_get_In String.eqb string_eqb_eq).
Qed.

Lemma build_answer_round_trip_witness :
  dict_get Z.eqb sample_idx2label 0 = Some "UNKNOWN" /\
  forall a i, dict_get String.eqb sample_label2idx a = Some i ->
              dict_get Z.eqb sample_idx2label i = Some a.
Proof.
  apply (build_answer_round_trip sample_corpus 2).
  reflexivity.
Defined.

(** X2. For K >= 0 every index of label2idx and every key of idx2label
    lies in 0..K, so every label is a class of a model with K + 1
    outputs. *)
Theorem build_answer_index_range (data : list string) (K : Z)
    (label2idx : dict) (idx2label : dict) :
  build_answer data K = Ok (label2idx, idx2label) ->
  0 <= K ->
  (forall a i, dict_get String.eqb label2idx a = Some i -> 0 <= i <= K) /\
  (forall i a, dict_get Z.eqb idx2label i = Some a -> 0 <= i <= K).
Proof.
  intros H HK. apply idx2label_is_enumerate in H.
  destruct H as (top & Hlen & -> & Hin). specialize (Hlen HK).
  assert (Hrange : forall i a,
            In (i, a) (enumerate ("UNKNOWN" :: top)) -> 0 <= i <= K).
  { intros i a Hi. apply enumerate_from_In in Hi.
    unfold len in *. simpl length in Hi. lia. }
  split.
  - intros a i Hg. apply (Hrange i a), Hin.
    now apply (dict_get_In String.eqb string_eqb_eq).
  - intros i a Hg. apply (Hrange i a).
    now apply (dict_get_In Z.eqb Z_eqb_eq).
Qed.

Lemma build_answer_index_range_witness :
  (forall a i, dict_get String.eqb sample_label2idx a = Some i ->
               0 <= i <= 2) /\
  (forall i a, dict_get Z.eqb sample_idx2label i = Some a -> 0 <= i <= 2).
Proof.
  apply (build_answer_index_range sample_corpus 2).
  - reflexivity.
  - lia.
Defined.

(** ** build_answer: the counts and the selection *)

(** Unlike the word counts of build_vocab, an answer count starts at 1. *)
Lemma count_answers_get (data : list string) :
  forall answer_frequency r,
    count_answers data answer_frequency = Ok r ->
    exists answers,
      corpus_answers data = Ok answers /\
      forall a,
        dict_get String.eqb r a =
        match dict_get String.eqb answer_frequency a with
        | Some c => Some (c + occurrences a answers)
        | None => if occurrences a answers =? 0 then None
                  else Some (occurrences a answers)
        end.
Proof.
  induction data as [|sample data IH]; intros af r; simpl.
  - intros [= <-]. exists []. split; [reflexivity|].
    intros a. unfold occurrences, len. simpl.
    destruct (dict_get String.eqb af a) as [c|]; [f_equal; lia | reflexivity].
  - intros H. apply bind_Ok_inv in H. destruct H as (field & Hf & H).
    apply IH in H. destruct H as (rest & Hrest & Hget).
    exists (strip field :: rest). rewrite Hf. simpl. rewrite Hrest. simpl.
    split; [reflexivity|].
    intros a. rewrite Hget, occurrences_cons.
    pose proof (occurrences_nonneg a rest) as Hn.
    destruct (String.eqb a (strip field)) eqn:E.
    + apply String.eqb_eq in E. subst a.
      destruct (dict_get String.eqb af (strip field)) as [c|] eqn:Ec;
        rewrite (dict_get_set_same String.eqb string_eqb_eq).
      * f_equal. lia.
      * replace (1 + occurrences (strip field) rest =? 0) with false
          by (symmetry; apply Z.eqb_neq; lia).
        reflexivity.
    + apply String.eqb_neq in E.
      assert (Hsame :
        dict_get String.eqb
          (match dict_get String.eqb af (strip field) with
           | Some c => dict_set String.eqb af (strip field) (c + 1)
           | None => dict_set String.eqb af (strip field) 1
           end) a = dict_get String.eqb af a).
      { destruct (dict_get String.eqb af (strip field));
          apply (dict_get_set_other String.eqb string_eqb_eq); congruence. }
      rewrite Hsame.
      replace (0 + occurrences a rest) with (occurrences a rest) by lia.
      reflexivity.
Qed.

Lemma count_answers_keys_NoDup (data : list string) :
  forall answer_frequency r,
    count_answers data answer_frequency = Ok r ->
    NoDup (dict_keys answer_frequency) -> NoDup (dict_keys r).
Proof.
  induction data as [|sample data IH]; intros af r; simpl.
  - intros [= <-] H. exact H.
  - intros H Hnd. apply bind_Ok_inv in H. destruct H as (field & _ & H).
    apply IH in H; [exact H|].
    destruct (dict_get String.eqb af (strip field));
      now apply (dict_set_keys_NoDup String.eqb string_eqb_eq).
Qed.

Lemma StronglySorted_app_inv {A : Type} (R : A -> A -> Prop)
    (l1 l2 : list A) :
  StronglySorted R (l1 ++ l2) ->
  forall x y, In x l1 -> In y l2 -> R x y.
Proof.
  induction l1 as [|z l1 IH]; simpl; intros Hs x y Hx Hy; [destruct Hx|].
  inversion Hs as [|? ? Hs' Hz]; subst.
  destruct Hx as [->|Hx].
  - rewrite Forall_forall in Hz. apply Hz. apply in_or_app. now right.
  - now apply IH.
Qed.

(** X3. The frequency dict of build_answer holds, for every answer of the
    corpus, the number of samples with that answer, and nothing for a
    string that is no answer: its counts start at 1. *)
Theorem answer_frequency_counts (data : list string)
    (answer_frequency : dict) (answers : list string) (a : string) :
  count_answers data [] = Ok answer_frequency ->
  corpus_answers data = Ok answers ->
  dict_get String.eqb answer_frequency a =
  if occurrences a answers =? 0 then None
  else Some (occurrences a answers).
Proof.
  intros Hc Ha. apply count_answers_get in Hc.
  destruct Hc as (answers' & Ha' & Hget).
  rewrite Ha in Ha'. injection Ha' as <-.
  now rewrite Hget.
Qed.

Lemma answer_frequency_counts_witness :
  dict_get String.eqb [("yes", 2); ("no", 1)] "yes" =
  if occurrences "yes" ["yes"; "no"; "yes"] =? 0 then None
  else Some (occurrences "yes" ["yes"; "no"; "yes"]).
Proof.
  apply (answer_frequency_counts sample_corpus).
  - reflexivity.
  - reflexivity.
Defined.

(** The keys of label2idx are 'UNKNOWN' and the selected answers, and for
    K >= 0 the selected answers are the first K of the sorted counts. *)
Lemma build_answer_selection (data : list string) (K : Z)
    (label2idx : dict) (idx2label : dict) :
  build_answer data K = Ok (label2idx, idx2label) ->
  0 <= K ->
  exists answer_frequency,
    count_answers data [] = Ok answer_frequency /\
    dict_len idx2label
      = 1 + len (firstn (Z.to_nat K) (sorted_desc snd answer_frequency)) /\
    forall x,
      In x (dict_keys label2idx) <->
      x = "UNKNOWN" \/
      In x (map fst (firstn (Z.to_nat K)
                       (sorted_desc snd answer_frequency))).
Proof.
  intros H HK.
  pose proof (idx2label_is_enumerate _ _ _ _ H) as (top' & _ & Hi & _).
  apply build_answer_inv in H.
  destruct H as (af & top & Haf & Htop & Hl & Hi').
  exists af. split; [exact Haf|].
  unfold py_slice_to in Htop.
  replace (0 <=? K) with true in Htop by (symmetry; apply Z.leb_le; lia).
  split.
  - rewrite Hi'.
    rewrite (dict_of_items_fresh Z.eqb Z_eqb_eq)
      by apply enumerate_from_keys_NoDup.
    unfold dict_len, len, enumerate.
    rewrite enumerate_from_length. subst top. simpl length.
    rewrite length_map. lia.
  - intros x. subst label2idx.
    rewrite (dict_update_keys_In String.eqb string_eqb_eq).
    rewrite map_fst_swap, enumerate_from_values. subst top. simpl.
    intuition auto.
Qed.

(** X4. For K >= 0 the labels build_answer selects are answers of the
    corpus that occur at least as often as every answer it leaves out. *)
Theorem build_answer_top_k (data : list string) (K : Z)
    (label2idx : dict) (idx2label : dict) (answers : list string)
    (a b : string) :
  build_answer data K = Ok (label2idx, idx2label) ->
  corpus_answers data = Ok answers ->
  0 <= K ->
  a <> "UNKNOWN" ->
  In a (dict_keys label2idx) ->
  ~ In b (dict_keys label2idx) ->
  1 <= occurrences a answers /\
  occurrences b answers <= occurrences a answers.
Proof.
  intros Hb Hans HK Ha Hina Hninb.
  destruct (build_answer_selection _ _ _ _ Hb HK) as (af & Haf & _ & Hkeys).
  pose proof (count_answers_keys_NoDup _ _ _ Haf (NoDup_nil _)) as Hnd.
  assert (Hcount : forall x,
            dict_get String.eqb af x =
            if occurrences x answers =? 0 then None
            else Some (occurrences x answers)).
  { intros x. destruct (count_answers_get _ _ _ Haf) as (ans' & Ha' & Hget).
    rewrite Hans in Ha'. injection Ha' as <-. now rewrite Hget. }
  set (s := sorted_desc snd af) in *.
  set (n := Z.to_nat K) in *.
  assert (Hsorted : StronglySorted (fun p q => snd q <= snd p)
                      (firstn n s ++ skipn n s)).
  { rewrite firstn_skipn. apply sorted_desc_sorted. }
  apply Hkeys in Hina. destruct Hina as [Hina|Hina]; [contradiction|].
  apply in_map_iff in Hina. destruct Hina as ([a' ca] & Heq & Hina).
  simpl in Heq. subst a'.
  assert (Hca : dict_get String.eqb af a = Some ca).
  { apply (In_dict_get String.eqb string_eqb_eq); [exact Hnd|].
    apply (sorted_desc_In snd). eapply In_firstn. exact Hina. }
  rewrite Hcount in Hca.
  pose proof (occurrences_nonneg a answers) as Hna.
  pose proof (occurrences_nonneg b answers) as Hnb.
  destruct (occurrences a answers =? 0) eqn:Ea; [discriminate|].
  apply Z.eqb_neq in Ea. injection Hca as Hca.
  split; [lia|].
  destruct (occurrences b answers =? 0) eqn:Eb.
  - apply Z.eqb_eq in Eb. lia.
  - assert (Hcb : dict_get String.eqb af b = Some (occurrences b answers))
      by (rewrite Hcount, Eb; reflexivity).
    apply (dict_get_In String.eqb string_eqb_eq) in Hcb.
    apply (sorted_desc_In snd) in Hcb. fold s in Hcb.
    rewrite <- (firstn_skipn n s) in Hcb. apply in_app_or in Hcb.
    destruct Hcb as [Hcb|Hcb].
    + exfalso. apply Hninb. apply Hkeys. right.
      apply in_map_iff. exists (b, occurrences b answers). now split.
    + pose proof (StronglySorted_app_inv _ _ _ Hsorted _ _ Hina Hcb) as Hle.
      simpl in Hle. lia.
Qed.

Lemma build_answer_top_k_witness :
  1 <= occurrences "yes" ["yes"; "no"; "yes"] /\
  occurrences "no" ["yes"; "no"; "yes"]
    <= occurrences "yes" ["yes"; "no"; "yes"].
Proof.
  apply (build_answer_top_k sample_corpus 1
           [("UNKNOWN", 0); ("yes", 1)] [(0, "UNKNOWN"); (1, "yes")]).
  - reflexivity.
  - reflexivity.
  - lia.
  - discriminate.
  - simpl. right. left. reflexivity.
  - simpl. intros [H|[H|[]]]; discriminate.
Defined.

Lemma occurrences_In (w : string) (l : list string) :
  In w l <-> 1 <= occurrences w l.
Proof.
  induction l as [|x l IH].
  - unfold occurrences, len. simpl. split; [intros [] | lia].
  - rewrite occurrences_cons. pose proof (occurrences_nonneg w l) as Hn.
    destruct (String.eqb w x) eqn:E.
    + apply String.eqb_eq in E. subst x. split; [lia | intros _; now left].
    + apply String.eqb_neq in E. simpl. rewrite <- Z.add_0_l in IH at 1.
      split.
      * intros [H|H]; [congruence|]. apply IH in H. lia.
      * intros H. right. apply IH. lia.
Qed.

(** X5. When idx2label has no more than K entries, fewer than K answers
    were there to select and none is left out: every answer of the corpus
    is a label. *)
Theorem build_answer_keeps_all (data : list string) (K : Z)
    (label2idx : dict) (idx2label : dict) (answers : list string)
    (b : string) :
  build_answer data K = Ok (label2idx, idx2label) ->
  corpus_answers data = Ok answers ->
  0 <= K ->
  dict_len idx2label <= K ->
  In b answers ->
  In b (dict_keys label2idx).
Proof.
  intros Hb Hans HK Hlen Hin.
  destruct (build_answer_selection _ _ _ _ Hb HK) as (af & Haf & Hsize & Hkeys).
  apply Hkeys. right.
  assert (Hall : firstn (Z.to_nat K) (sorted_desc snd af)
                 = sorted_desc snd af).
  { apply firstn_all2. rewrite Hsize in Hlen. unfold len in Hlen.
    rewrite length_firstn in Hlen. lia. }
  rewrite Hall.
  destruct (count_answers_get _ _ _ Haf) as (ans' & Ha' & Hget).
  rewrite Hans in Ha'. injection Ha' as <-.
  apply occurrences_In in Hin.
  specialize (Hget b). simpl in Hget.
  replace (occurrences b answers =? 0) with false in Hget
    by (symmetry; apply Z.eqb_neq; lia).
  apply (dict_get_In String.eqb string_eqb_eq) in Hget.
  apply in_map_iff. exists (b, occurrences b answers).
  split; [reflexivity|]. now apply sorted_desc_In.
Qed.

Lemma build_answer_keeps_all_witness :
  In "no" (dict_keys sample_label2idx).
Proof.
  apply (build_answer_keeps_all sample_corpus 3
           sample_label2idx sample_idx2label ["yes"; "no"; "yes"] "no").
  - reflexivity.
  - reflexivity.
  - lia.
  - vm_compute. discriminate.
  - simpl. right. left. reflexivity.
Defined.

(** ** build_vocab: the order of the indices *)

Lemma existsb_eqb_In (w : string) (l : list string) :
  existsb (String.eqb w) l = true <-> In w l.
Proof.
  rewrite existsb_exists. split.
  - intros (x & Hx & E). apply String.eqb_eq in E. now subst.
  - intros H. exists w. split; [exact H | apply String.eqb_refl].
Qed.

Lemma dict_set_keys_hit {K V : Type} (eqb : K -> K -> bool)
    (eqb_eq : forall x y, eqb x y = true <-> x = y)
    (d : dict) (k : K) (v : V) :
  In k (dict_keys d) -> dict_keys (dict_set eqb d k v) = dict_keys d.
Proof.
  induction d as [|[k0 v0] d IH]; simpl; [intros []|].
  intros H. destruct (eqb k0 k) eqn:E; simpl; [reflexivity|].
  f_equal. apply IH. destruct H as [H|H]; [|exact H].
  subst k0. rewrite (proj2 (eqb_eq k k) eq_refl) in E. discriminate.
Qed.

(** The keys of the frequency dict are the words in the order they were
    first met. *)
Lemma fold_count_word_keys (words : list string) :
  forall word_count,
    dict_keys (fold_left count_word words word_count)
    = dict_keys word_count
        ++ first_occurrences_from (dict_keys word_count) words.
Proof.
  induction words as [|w words IH]; intros wc; simpl.
  - now rewrite app_nil_r.
  - rewrite IH. unfold count_word.
    destruct (dict_get String.eqb wc w) as [c|] eqn:E.
    + assert (Hin : In w (dict_keys wc))
        by (eapply dict_get_Some_key; [exact string_eqb_eq | exact E]).
      rewrite (dict_set_keys_hit String.eqb string_eqb_eq) by exact Hin.
      now rewrite (proj2 (existsb_eqb_In w (dict_keys wc)) Hin).
    + apply (dict_get_None String.eqb string_eqb_eq) in E.
      rewrite (dict_set_fresh String.eqb string_eqb_eq) by exact E.
      assert (Hex : existsb (String.eqb w) (dict_keys wc) = false).
      { destruct (existsb (String.eqb w) (dict_keys wc)) eqn:Ex;
          [|reflexivity].
        apply existsb_eqb_In in Ex. contradiction. }
      rewrite Hex. unfold dict_keys. rewrite map_app. simpl.
      now rewrite <- app_assoc.
Qed.

Lemma first_occurrences_from_spec (words : list string) :
  forall seen,
    NoDup (first_occurrences_from seen words) /\
    forall x, In x (first_occurrences_from seen words) <->
              In x words /\ ~ In x seen.
Proof.
  induction words as [|w words IH]; intros seen; simpl.
  - split; [constructor | intros x; tauto].
  - destruct (existsb (String.eqb w) seen) eqn:E.
    + apply existsb_eqb_In in E.
      destruct (IH seen) as (Hnd & Hin). split; [exact Hnd|].
      intros x. rewrite Hin. split; [tauto|].
      intros [[->|H] Hn]; [contradiction | tauto].
    + assert (Hw : ~ In w seen).
      { intros H. apply existsb_eqb_In in H. congruence. }
      destruct (IH (seen ++ [w])) as (Hnd & Hin). split.
      * constructor; [|exact Hnd].
        intros H. apply Hin in H. destruct H as (_ & H).
        apply H. apply in_or_app. right. now left.
      * intros x. simpl. rewrite Hin. rewrite in_app_iff. simpl.
        split.
        -- intros [->|(H1 & H2)]; [tauto|]. split; [now right | tauto].
        -- intros [[->|H1] H2]; [now left|].
           destruct (string_dec w x) as [->|Hne]; [now left|].
           right. split; [exact H1|]. intros [H|[H|[]]]; tauto.
Qed.

Lemma first_occurrences_NoDup (words : list string) :
  NoDup (first_occurrences words).
Proof. apply first_occurrences_from_spec. Qed.

Lemma first_occurrences_In (words : list string) (x : string) :
  In x (first_occurrences words) <-> In x words.
Proof.
  unfold first_occurrences.
  rewrite (proj2 (first_occurrences_from_spec words [])). simpl. tauto.
Qed.

(** On a list of distinct words that are no keys yet, the loop appends the
    words that meet the threshold and numbers them as they come. *)
Lemma select_words_fresh (word_count : dict) (min_word_count : Z)
    (word_list : list string) :
  forall vocab_tokens vocab_idx,
    NoDup word_list ->
    (forall w, In w word_list -> ~ In w (dict_keys vocab_tokens)) ->
    (forall w, In w word_list -> In w (dict_keys word_count)) ->
    select_words word_count min_word_count word_list vocab_tokens vocab_idx
    = Ok (vocab_tokens
            ++ map swap
                 (enumerate_from vocab_idx
                    (filter (meets_threshold word_count min_word_count)
                       word_list))).
Proof.
  induction word_list as [|word word_list IH]; intros vt idx Hnd Hfresh Hsub.
  - simpl. now rewrite app_nil_r.
  - inversion Hnd as [|? ? Hw Hnd']; subst.
    destruct (dict_key_get String.eqb string_eqb_eq _ _
                (Hsub word (or_introl eq_refl))) as (c & Hc).
    simpl. unfold dict_getitem, meets_threshold. rewrite Hc. simpl bind.
    destruct (c >=? min_word_count) eqn:E.
    + rewrite (dict_set_fresh String.eqb string_eqb_eq)
        by (apply Hfresh; now left).
      rewrite IH.
      * simpl. rewrite <- app_assoc. reflexivity.
      * exact Hnd'.
      * intros w Hin Hk. unfold dict_keys in Hk. rewrite map_app in Hk.
        apply in_app_or in Hk. destruct Hk as [Hk|[Hk|[]]].
        -- apply (Hfresh w); [now right | exact Hk].
        -- simpl in Hk. subst w. contradiction.
      * intros w Hin. apply Hsub. now right.
    + apply IH.
      * exact Hnd'.
      * intros w Hin. apply Hfresh. now right.
      * intros w Hin. apply Hsub. now right.
Qed.

(** The vocabulary tokens of a run, written out. *)
Lemma vocab_tokens_are_kept_words (tokenize : string -> result (list string))
    (data : list string) (min_word_count : Z) (word2idx : dict)
    (idx2word : dict) (max_sequence_length : Z) (words : list string) :
  build_vocab_with tokenize data min_word_count
    = Ok (word2idx, idx2word, max_sequence_length) ->
  corpus_words tokenize data = Ok words ->
  word2idx
  = dict_update String.eqb helper_tokens
      (map swap (enumerate_from 4 (kept_words min_word_count words))) /\
  idx2word = map swap word2idx.
Proof.
  intros Hbuild Hwords.
  apply build_vocab_with_inv in Hbuild.
  destruct Hbuild as (wc & vt & Hscan & Hsel & Hw & Hi).
  destruct (select_words_inv _ _ _ _ _ _ (Z.le_refl 4) vocab_inv_empty Hsel)
    as (idx' & _ & Hinv).
  split.
  2:{ rewrite Hi. apply idx2word_is_swap. subst word2idx.
      eapply word2idx_values_NoDup. exact Hinv. }
  apply scan_questions_words in Hscan.
  destruct Hscan as (words' & Hwords' & Hwc).
  rewrite Hwords in Hwords'. injection Hwords' as <-.
  assert (Hkeys : dict_keys wc = first_occurrences words).
  { rewrite Hwc, fold_count_word_keys. reflexivity. }
  rewrite select_words_fresh in Hsel.
  - injection Hsel as <-. rewrite Hw. simpl app. f_equal. f_equal. f_equal.
    rewrite Hkeys. unfold kept_words. apply filter_ext_in.
    intros w Hin. apply (proj1 (first_occurrences_In _ _)) in Hin.
    apply (proj1 (occurrences_In _ _)) in Hin.
    unfold meets_threshold. rewrite Hwc, fold_count_word. cbn [dict_get].
    replace (occurrences w words =? 0) with false
      by (symmetry; apply Z.eqb_neq; lia).
    rewrite Z.geb_leb.
    destruct (min_word_count <=? occurrences w words - 1) eqn:E1;
      destruct (min_word_count + 1 <=? occurrences w words) eqn:E2;
      try reflexivity.
    + apply Z.leb_le in E1. apply Z.leb_gt in E2. lia.
    + apply Z.leb_gt in E1. apply Z.leb_le in E2. lia.
  - rewrite Hkeys. apply first_occurrences_NoDup.
  - intros w _ [].
  - intros w H. exact H.
Qed.

Lemma enumerate_from_app {A : Type} (l1 l2 : list A) (i : Z) :
  enumerate_from i (l1 ++ l2)
  = enumerate_from i l1 ++ enumerate_from (i + len l1) l2.
Proof.
  revert i. induction l1 as [|x l1 IH]; intros i; simpl.
  - unfold len. simpl. now rewrite Z.add_0_r.
  - rewrite IH. unfold len. simpl length.
    replace (i + 1 + Z.of_nat (length l1))
      with (i + Z.of_nat (S (length l1))) by lia.
    reflexivity.
Qed.

Lemma enumerate_from_range {A : Type} (l : list A) (i j : Z) :
  i <= j < i + len l -> exists x, In (j, x) (enumerate_from i l).
Proof.
  revert i. induction l as [|y l IH]; intros i; unfold len in *; simpl length.
  - lia.
  - intros H. destruct (Z.eq_dec j i) as [->|Hne].
    + exists y. now left.
    + destruct (IH (i + 1)) as (x & Hx); [lia|]. exists x. now right.
Qed.

(** X6. When no kept word is a reserved token, word2idx is the reserved
    block followed by the distinct corpus words that occur more than
    min_word_count times, in the order of their first occurrence, numbered
    from 4; idx2word lists the same words by index; and the indices in use
    are exactly 0 .. len(word2idx) - 1. *)
Theorem build_vocab_first_encounter_order
    (tokenize : string -> result (list string)) (data : list string)
    (min_word_count : Z) (word2idx : dict) (idx2word : dict)
    (max_sequence_length : Z) (words : list string) :
  build_vocab_with tokenize data min_word_count
    = Ok (word2idx, idx2word, max_sequence_length) ->
  corpus_words tokenize data = Ok words ->
  (forall w, In w (kept_words min_word_count words) ->
             dict_get String.eqb helper_tokens w = None) ->
  word2idx
  = helper_tokens
      ++ map swap (enumerate_from 4 (kept_words min_word_count words)) /\
  idx2word
  = enumerate (["<PAD>"; "<UNKNOWN>"; "s"; "/s"]
                 ++ kept_words min_word_count words) /\
  (forall i, 0 <= i < dict_len word2idx <->
             exists w, dict_get String.eqb word2idx w = Some i).
Proof.
  intros Hbuild Hwords Hfree.
  destruct (vocab_tokens_are_kept_words _ _ _ _ _ _ _ Hbuild Hwords)
    as (Hw & Hi).
  set (kept := kept_words min_word_count words) in *.
  assert (Hkept : NoDup kept).
  { unfold kept, kept_words. apply NoDup_filter, first_occurrences_NoDup. }
  assert (Hshape : word2idx
                   = helper_tokens ++ map swap (enumerate_from 4 kept)).
  { rewrite Hw. apply (dict_update_fresh String.eqb string_eqb_eq).
    rewrite map_fst_swap, enumerate_from_values.
    apply NoDup_app; [exact helper_tokens_keys_NoDup | exact Hkept |].
    intros a Ha Hk. apply Hfree in Hk.
    apply (dict_get_None String.eqb string_eqb_eq) in Hk. contradiction. }
  assert (Hidx : idx2word
                 = enumerate (["<PAD>"; "<UNKNOWN>"; "s"; "/s"] ++ kept)).
  { rewrite Hi, Hshape, map_app. unfold enumerate. simpl.
    do 4 f_equal. rewrite map_map.
    rewrite <- (map_id (enumerate_from 4 kept)) at 2.
    apply map_ext. now intros [j x]. }
  split; [exact Hshape|]. split; [exact Hidx|].
  assert (Hlen : dict_len word2idx
                 = len (["<PAD>"; "<UNKNOWN>"; "s"; "/s"] ++ kept)).
  { rewrite Hshape. unfold dict_len, len.
    rewrite !length_app, length_map, enumerate_from_length. reflexivity. }
  assert (Hpairs : forall w i,
            In (w, i) word2idx <-> In (i, w) idx2word).
  { intros w i. rewrite Hi. symmetry. apply In_swap. }
  assert (Hnd : NoDup (dict_keys word2idx))
    by (rewrite Hw; apply word2idx_keys_NoDup).
  intros i. rewrite Hlen. split.
  - intros Hr. rewrite Hidx in Hpairs.
    destruct (enumerate_from_range
                (["<PAD>"; "<UNKNOWN>"; "s"; "/s"] ++ kept) 0 i) as (w & Hin);
      [lia|].
    exists w. apply (In_dict_get String.eqb string_eqb_eq); [exact Hnd|].
    now apply Hpairs.
  - intros (w & Hg). apply (dict_get_In String.eqb string_eqb_eq) in Hg.
    apply Hpairs in Hg. rewrite Hidx in Hg.
    apply enumerate_from_In in Hg. lia.
Qed.

Lemma build_vocab_first_encounter_order_witness :
  [("<PAD>", 0); ("<UNKNOWN>", 1); ("s", 2); ("/s", 3);
   ("is", 4); ("it", 5); ("a", 6); ("cat", 7)]
  = helper_tokens
      ++ map swap
           (enumerate_from 4
              (kept_words 0 ["is"; "it"; "a"; "cat"; "is"; "it"; "cat"])) /\
  [(0, "<PAD>"); (1, "<UNKNOWN>"); (2, "s"); (3, "/s");
   (4, "is"); (5, "it"); (6, "a"); (7, "cat")]
  = enumerate (["<PAD>"; "<UNKNOWN>"; "s"; "/s"]
                 ++ kept_words 0
                      ["is"; "it"; "a"; "cat"; "is"; "it"; "cat"]) /\
  (forall i,
     0 <= i < dict_len
                [("<PAD>", 0); ("<UNKNOWN>", 1); ("s", 2); ("/s", 3);
                 ("is", 4); ("it", 5); ("a", 6); ("cat", 7)] <->
     exists w,
       dict_get String.eqb
         [("<PAD>", 0); ("<UNKNOWN>", 1); ("s", 2); ("/s", 3);
          ("is", 4); ("it", 5); ("a", 6); ("cat", 7)] w = Some i).
Proof.
  apply (build_vocab_first_encounter_order (tokenize_with comma_nlp)
           [ record_line "a.jpg" "is,it,a,cat" "yes";
             record_line "b.jpg" "is,it,cat" "no" ] 0 _ _ 4).
  - reflexivity.
  - reflexivity.
  - intros w Hw. vm_compute in Hw.
    destruct Hw as [<-|[<-|[<-|[<-|[]]]]]; reflexivity.
Defined.

(** ** build_vocab: a kept reserved token and the vocabulary size *)

Lemma dict_set_length_hit {K V : Type} (eqb : K -> K -> bool)
    (eqb_eq : forall x y, eqb x y = true <-> x = y)
    (d : dict) (k : K) (v : V) :
  In k (dict_keys d) -> length (dict_set eqb d k v) = length d.
Proof.
  intros H.
  rewrite <- (length_map fst (dict_set eqb d k v)).
  fold (dict_keys (dict_set eqb d k v)).
  rewrite (dict_set_keys_hit eqb eqb_eq) by exact H.
  unfold dict_keys. now rewrite length_map.
Qed.

(** An item for a key the dict has already adds no entry. *)
Lemma dict_update_length_hit {K V : Type} (eqb : K -> K -> bool)
    (eqb_eq : forall x y, eqb x y = true <-> x = y)
    (items : list (K * V)) :
  forall d : dict,
    (exists k, In k (map fst items) /\ In k (dict_keys d)) ->
    (length (dict_update eqb d items) < length d + length items)%nat.
Proof.
  induction items as [|[k v] items IH]; intros d (k0 & Hk0 & Hd).
  - destruct Hk0.
  - change (dict_update eqb d ((k, v) :: items))
      with (dict_update eqb (dict_set eqb d k v) items).
    simpl length.
    destruct (dict_get eqb d k) as [c|] eqn:E.
    + pose proof (dict_update_length eqb items (dict_set eqb d k v)) as Hl.
      rewrite (dict_set_length_hit eqb eqb_eq) in Hl
        by (eapply dict_get_Some_key; [exact eqb_eq | exact E]).
      lia.
    + apply (dict_get_None eqb eqb_eq) in E.
      destruct Hk0 as [Hk0|Hk0]; [simpl in Hk0; subst k0; contradiction|].
      specialize (IH (dict_set eqb d k v)).
      pose proof (dict_set_length eqb d k v) as Hs.
      assert (Hlt : (length (dict_update eqb (dict_set eqb d k v) items)
                     < length (dict_set eqb d k v) + length items)%nat).
      { apply IH. exists k0. split; [exact Hk0|].
        apply (dict_set_keys_In eqb eqb_eq). now right. }
      lia.
Qed.

(** X7. When a kept corpus word is one of the reserved tokens, word2idx
    holds an index that is not below len(word2idx): the merge overwrites
    the reserved entry, so the dict has fewer entries than indices were
    handed out, and main.py sizes the vocabulary by len(word2idx). *)
Theorem build_vocab_index_beyond_size
    (tokenize : string -> result (list string)) (data : list string)
    (min_word_count : Z) (word2idx : dict) (idx2word : dict)
    (max_sequence_length : Z) (words : list string) (token : string) :
  build_vocab_with tokenize data min_word_count
    = Ok (word2idx, idx2word, max_sequence_length) ->
  corpus_words tokenize data = Ok words ->
  In token (kept_words min_word_count words) ->
  dict_get String.eqb helper_tokens token <> None ->
  exists w i,
    dict_get String.eqb word2idx w = Some i /\ dict_len word2idx <= i.
Proof.
  intros Hbuild Hwords Hkept Hres.
  destruct (vocab_tokens_are_kept_words _ _ _ _ _ _ _ Hbuild Hwords)
    as (Hw & _).
  set (kept := kept_words min_word_count words) in *.
  assert (Hnd : NoDup kept).
  { unfold kept, kept_words. apply NoDup_filter, first_occurrences_NoDup. }
  assert (Hne : kept <> []) by (intros E; rewrite E in Hkept; destruct Hkept).
  destruct (exists_last Hne) as (kept' & wl & Hsplit).
  exists wl, (4 + len kept'). split.
  - rewrite Hw. apply (dict_update_get_In String.eqb string_eqb_eq).
    + rewrite map_fst_swap, enumerate_from_values. exact Hnd.
    + apply In_swap. rewrite Hsplit, enumerate_from_app.
      apply in_or_app. right. now left.
  - rewrite Hw. unfold dict_len, len.
    pose proof (dict_update_length_hit String.eqb string_eqb_eq
                  (map swap (enumerate_from 4 kept)) helper_tokens) as Hlt.
    rewrite length_map, enumerate_from_length in Hlt.
    assert (Hex : exists k,
              In k (map fst (map swap (enumerate_from 4 kept))) /\
              In k (dict_keys helper_tokens)).
    { exists token. rewrite map_fst_swap, enumerate_from_values.
      split; [exact Hkept|].
      destruct (dict_get String.eqb helper_tokens token) as [r|] eqn:E;
        [|congruence].
      eapply dict_get_Some_key; [exact string_eqb_eq | exact E]. }
    specialize (Hlt Hex).
    assert (Hk : length kept = S (length kept'))
      by (rewrite Hsplit, length_app; simpl; lia).
    simpl length in Hlt. lia.
Qed.

Lemma build_vocab_index_beyond_size_witness :
  exists w i,
    dict_get String.eqb sample_word2idx w = Some i /\
    dict_len sample_word2idx <= i.
Proof.
  apply (build_vocab_index_beyond_size (tokenize_with comma_nlp)
           sample_corpus 1 sample_word2idx sample_idx2word 4
           words_of_sample_corpus "s").
  - reflexivity.
  - reflexivity.
  - vm_compute. right. right. right. left. reflexivity.
  - discriminate.
Defined.

(** ** build_vocab: the maximum sequence length *)

Lemma fold_max_spec (lens : list Z) :
  forall m,
    m <= fold_left Z.max lens m /\
    (forall n, In n lens -> n <= fold_left Z.max lens m) /\
    (fold_left Z.max lens m = m \/ In (fold_left Z.max lens m) lens).
Proof.
  induction lens as [|x lens IH]; intros m; simpl.
  - split; [lia|]. split; [intros n [] | now left].
  - destruct (IH (Z.max m x)) as (H1 & H2 & H3).
    split; [lia|]. split.
    + intros n [->|Hn]; [lia | now apply H2].
    + destruct H3 as [H3|H3]; [|right; now right].
      destruct (Z.max_spec m x) as [(_ & E)|(_ & E)]; rewrite E in H3 |- *.
      * right. left. now symmetry.
      * now left.
Qed.

Lemma scan_questions_lengths (tokenize : string -> result (list string))
    (data : list string) :
  forall word_count msl word_count' msl',
    scan_questions tokenize data word_count msl = Ok (word_count', msl') ->
    exists lens,
      question_lengths tokenize data = Ok lens /\
      msl' = fold_left Z.max lens msl.
Proof.
  induction data as [|sample data IH]; intros wc msl wc' msl'; simpl.
  - intros [= <- <-]. now exists [].
  - intros H. apply bind_Ok_inv in H. destruct H as (field & Hf & H).
    apply bind_Ok_inv in H. destruct H as (wds & Hw & H).
    apply IH in H. destruct H as (rest & Hrest & ->).
    exists (len wds :: rest). rewrite Hf. simpl. rewrite Hw. simpl.
    rewrite Hrest. simpl. split; [reflexivity|]. f_equal.
    destruct (len wds >? msl) eqn:E.
    + apply Z.gtb_lt in E. lia.
    + rewrite Z.gtb_ltb in E. apply Z.ltb_ge in E. lia.
Qed.

(** X8. The max_sequence_length build_vocab returns is the token count of
    the longest question: no question has more tokens, and some question
    has exactly that many; on the empty corpus it is 0. *)
Theorem build_vocab_max_sequence_length
    (tokenize : string -> result (list string)) (data : list string)
    (min_word_count : Z) (word2idx : dict) (idx2word : dict)
    (max_sequence_length : Z) (lens : list Z) :
  build_vocab_with tokenize data min_word_count
    = Ok (word2idx, idx2word, max_sequence_length) ->
  question_lengths tokenize data = Ok lens ->
  (forall n, In n lens -> n <= max_sequence_length) /\
  (lens = [] -> max_sequence_length = 0) /\
  (lens <> [] -> In max_sequence_length lens).
Proof.
  intros Hbuild Hlens.
  apply build_vocab_with_inv in Hbuild.
  destruct Hbuild as (wc & vt & Hscan & _).
  apply scan_questions_lengths in Hscan.
  destruct Hscan as (lens' & Hlens' & Hmsl).
  rewrite Hlens in Hlens'. injection Hlens' as <-.
  destruct (fold_max_spec lens 0) as (H0 & Hall & Hin).
  rewrite <- Hmsl in *.
  split; [exact Hall|]. split.
  - intros ->. exact Hmsl.
  - intros Hne. destruct Hin as [Hin|Hin]; [|exact Hin].
    destruct lens as [|n lens]; [congruence|].
    assert (Hn : 0 <= n).
    { clear - Hlens. destruct data as [|s d]; simpl in Hlens; [discriminate|].
      apply bind_Ok_inv in Hlens. destruct Hlens as (f & _ & H).
      apply bind_Ok_inv in H. destruct H as (wds & _ & H).
      apply bind_Ok_inv in H. destruct H as (rest & _ & H).
      injection H as <- _. unfold len. lia. }
    specialize (Hall n (or_introl eq_refl)).
    left. lia.
Qed.

Lemma build_vocab_max_sequence_length_witness :
  (forall n, In n [4; 4; 2] -> n <= 4) /\
  ([4; 4; 2] = [] -> 4 = 0) /\
  ([4; 4; 2] <> [] -> In 4 [4; 4; 2]).
Proof.
  apply (build_vocab_max_sequence_length (tokenize_with comma_nlp)
           sample_corpus 1 sample_word2idx sample_idx2word).
  - reflexivity.
  - reflexivity.
Defined.

(** The two ways build_vocab fails on a corpus that is not empty. *)
Lemma build_vocab_first_sample (sample : string)
    (data : list string) (min_word_count : Z) :
  ((1 < length (split tab sample))%nat ->
   build_vocab (sample :: data) min_word_count = Raise TypeError) /\
  (length (split tab sample) = 1%nat ->
   build_vocab (sample :: data) min_word_count = Raise IndexError).
Proof.
  split.
  - intros H. unfold build_vocab, build_vocab_with. simpl. unfold py_index.
    destruct (nth_error (split tab sample) 1) as [field|] eqn:E.
    + reflexivity.
    + apply nth_error_None in E. lia.
  - intros H. now apply build_vocab_sample_without_tab.
Qed.

(** ** save_vocab *)

(** X9. save_vocab never produces a vocabulary: whatever the training file
    holds, the list of its lines is not empty, and build_vocab raises on
    its first line, TypeError from the call of preprocess_text when the
    line has a question field and IndexError when it has none (the empty
    file is one line without a tab). *)
Theorem save_vocab_always_raises (file_text : string)
    (min_word_count K : Z) :
  exists first rest,
    split newline (strip file_text) = first :: rest /\
    ((1 < length (split tab first))%nat ->
     save_vocab file_text min_word_count K = Raise TypeError) /\
    (length (split tab first) = 1%nat ->
     save_vocab file_text min_word_count K = Raise IndexError) /\
    (save_vocab file_text min_word_count K = Raise TypeError \/
     save_vocab file_text min_word_count K = Raise IndexError).
Proof.
  unfold save_vocab.
  pose proof (split_length newline (strip file_text)) as Hlen.
  destruct (split newline (strip file_text)) as [|first rest] eqn:E;
    [simpl in Hlen; lia|].
  exists first, rest. split; [reflexivity|].
  pose proof (split_length tab first) as Hf.
  destruct (build_vocab_first_sample first rest min_word_count)
    as [Ht Hi].
  split; [|split].
  - intros H. now rewrite (Ht H).
  - intros H. now rewrite (Hi H).
  - destruct (Nat.eq_dec (length (split tab first)) 1) as [H1|H1].
    + right. now rewrite (Hi H1).
    + left. rewrite Ht; [reflexivity | lia].
Qed.

(** ** filter_samples_by_label *)

Lemma filter_lines_keeps (labels lines : list string) :
  Forall (fun line => line <> "" /\ line_answer line <> None) lines ->
  forall data,
    filter_lines labels lines data
    = Ok (data ++ filter (answer_in labels) lines).
Proof.
  induction 1 as [|line lines (Hne & Hans) _ IH]; intros data; simpl.
  - now rewrite app_nil_r.
  - rewrite (proj2 (String.eqb_neq line "") Hne).
    unfold answer_in, line_answer, py_index in *.
    destruct (nth_error (split tab (strip line)) 2) as [answer|];
      [|congruence].
    simpl bind. rewrite IH.
    destruct (existsb (String.eqb answer) labels).
    + now rewrite <- app_assoc.
    + reflexivity.
Qed.

(** X10. On a file whose lines all have three tab-separated fields once
    stripped, filter_samples_by_label returns exactly the lines whose third
    field is one of the labels, unchanged and in file order. *)
Theorem filter_samples_by_label_keeps (file_lines labels : list string) :
  Forall (fun line => line <> "" /\ line_answer line <> None) file_lines ->
  filter_samples_by_label file_lines labels
    = Ok (filter (answer_in labels) file_lines) /\
  forall line,
    In line (filter (answer_in labels) file_lines) <->
    In line file_lines /\
    exists answer, line_answer line = Some answer /\ In answer labels.
Proof.
  intros H. split.
  - unfold filter_samples_by_label. now rewrite filter_lines_keeps.
  - intros line. rewrite filter_In. unfold answer_in.
    split; intros (Hin & Ha); (split; [exact Hin|]).
    + destruct (line_answer line) as [answer|]; [|discriminate].
      exists answer. split; [reflexivity|]. now apply existsb_eqb_In.
    + destruct Ha as (answer & -> & Hl). now apply existsb_eqb_In.
Qed.

Lemma filter_samples_by_label_keeps_witness :
  filter_samples_by_label
    [ String.append (record_line "a.jpg" "is,it" "yes") (String newline "");
      String.append (record_line "b.jpg" "what" "cat") (String newline "");
      String.append (record_line "c.jpg" "who" "no") (String newline "") ]
    ["yes"; "no"]
    = Ok (filter (answer_in ["yes"; "no"])
            [ String.append (record_line "a.jpg" "is,it" "yes")
                (String newline "");
              String.append (record_line "b.jpg" "what" "cat")
                (String newline "");
              String.append (record_line "c.jpg" "who" "no")
                (String newline "") ]) /\
  forall line,
    In line
      (filter (answer_in ["yes"; "no"])
         [ String.append (record_line "a.jpg" "is,it" "yes")
             (String newline "");
           String.append (record_line "b.jpg" "what" "cat")
             (String newline "");
           String.append (record_line "c.jpg" "who" "no")
             (String newline "") ]) <->
    In line
      [ String.append (record_line "a.jpg" "is,it" "yes")
          (String newline "");
        String.append (record_line "b.jpg" "what" "cat")
          (String newline "");
        String.append (record_line "c.jpg" "who" "no")
          (String newline "") ] /\
    exists answer,
      line_answer line = Some answer /\ In answer ["yes"; "no"].
Proof.
  apply (filter_samples_by_label_keeps
           [ String.append (record_line "a.jpg" "is,it" "yes")
               (String newline "");
             String.append (record_line "b.jpg" "what" "cat")
               (String newline "");
             String.append (record_line "c.jpg" "who" "no")
               (String newline "") ]
           ["yes"; "no"]).
  repeat constructor; discriminate.
Defined.

(** X11. A line with fewer than three fields once stripped makes
    filter_samples_by_label raise IndexError, wherever it stands in a file
    of lines: nothing is returned for the lines before it. *)
Theorem filter_samples_by_label_short_line (file_lines labels : list string) :
  Forall (fun line => line <> "") file_lines ->
  Exists (fun line => line_answer line = None) file_lines ->
  filter_samples_by_label file_lines labels = Raise IndexError.
Proof.
  unfold filter_samples_by_label. generalize (@nil string) as data.
  induction file_lines as [|line lines IH]; intros data Hne Hex.
  - inversion Hex.
  - inversion Hne as [|? ? Hl Hne']; subst. simpl.
    rewrite (proj2 (String.eqb_neq line "") Hl).
    unfold py_index.
    destruct (nth_error (split tab (strip line)) 2) as [answer|] eqn:E.
    + simpl bind. apply IH; [exact Hne'|].
      inversion Hex as [? ? Hh|? ? Ht]; subst; [|exact Ht].
      unfold line_answer in Hh. congruence.
    + reflexivity.
Qed.

Lemma filter_samples_by_label_short_line_witness :
  filter_samples_by_label
    [ String.append (record_line "a.jpg" "is,it" "yes") (String newline "");
      String.append (record_line "b.jpg" "what" "") (String newline "") ]
    ["yes"]
  = Raise IndexError.
Proof.
  apply filter_samples_by_label_short_line.
  - repeat constructor; discriminate.
  - apply Exists_cons_tl, Exists_cons_hd. reflexivity.
Defined.

(** The same line with an empty answer is counted by build_answer, which
    strips the field and not the line. *)
Lemma empty_answer_is_counted :
  build_answer
    [ record_line "a.jpg" "is,it" "yes"; record_line "b.jpg" "what" "" ] 2
  = Ok ([("UNKNOWN", 0); ("yes", 1); ("", 2)],
        [(0, "UNKNOWN"); (1, "yes"); (2, "")]).
Proof. reflexivity. Qed.

(** ** The training loop: a run that does not raise *)

Lemma steps_from_app (n m : nat) (first : Z) :
  steps_from first (n + m)
  = steps_from first n ++ steps_from (first + Z.of_nat n) m.
Proof.
  revert first. induction n as [|n IH]; intros first.
  - simpl. now rewrite Z.add_0_r.
  - change (steps_from first (S n + m))
      with (first :: steps_from (first + 1) (n + m)).
    rewrite IH. simpl steps_from. simpl app.
    replace (first + 1 + Z.of_nat n) with (first + Z.of_nat (S n)) by lia.
    reflexivity.
Qed.

Lemma steps_from_In (n : nat) (first s : Z) :
  In s (steps_from first n) <-> first <= s < first + Z.of_nat n.
Proof.
  revert first. induction n as [|n IH]; intros first; simpl.
  - lia.
  - rewrite IH. lia.
Qed.

(** With an interval of 2 or more (either sign) the first step is not a
    logging step. *)
Lemma one_mod_interval (li : Z) : 2 <= Z.abs li -> 1 mod li <> 0.
Proof.
  intros H E.
  assert (Hnz : li <> 0) by lia.
  pose proof (Z.div_mod 1 li Hnz) as Hd. rewrite E in Hd.
  set (q := 1 / li) in *.
  assert (Hq : q <= -1 \/ q = 0 \/ 1 <= q) by lia.
  destruct Hq as [Hq|[Hq|Hq]]; nia.
Qed.

Lemma train_step_run (args : LoopArgs) (st : LoopState) :
  2 <= Z.abs (log_interval args) -> save_interval args <> 0 ->
  0 <= curr_step st ->
  train_step args st
  = Ok {| curr_step := curr_step st + 1;
          logged :=
            logged st
              ++ map (fun s => (s, time_left_at args (s - 1)))
                   (filter (logs_at args) [curr_step st + 1]);
          saved := saved st ++ filter (saves_at args) [curr_step st + 1] |}.
Proof.
  intros Hli Hsi Hstep. unfold train_step, log_due, py_mod.
  replace (log_interval args =? 0) with false
    by (symmetry; apply Z.eqb_neq; lia).
  replace (save_interval args =? 0) with false
    by (symmetry; apply Z.eqb_neq; lia).
  simpl bind. simpl filter. unfold logs_at, saves_at.
  replace (curr_step st + 1 =? 2) with (curr_step st =? 1)
    by (destruct (curr_step st =? 1) eqn:E;
        [apply Z.eqb_eq in E; symmetry; apply Z.eqb_eq; lia
        |apply Z.eqb_neq in E; symmetry; apply Z.eqb_neq; lia]).
  destruct (((curr_step st + 1) mod log_interval args =? 0)
            || (curr_step st =? 1)) eqn:Edue.
  - assert (Hnz : curr_step st <> 0).
    { intros E0. rewrite E0 in Edue. simpl in Edue.
      rewrite orb_false_r in Edue. apply Z.eqb_eq in Edue.
      now apply (one_mod_interval _ Hli). }
    unfold estimate_time_left, float_div.
    replace (curr_step st =? 0) with false
      by (symmetry; apply Z.eqb_neq; exact Hnz).
    simpl bind. unfold time_left_at.
    destruct ((curr_step st + 1) mod save_interval args =? 0);
      simpl; rewrite ?app_nil_r;
      replace (curr_step st + 1 - 1) with (curr_step st) by lia;
      reflexivity.
  - simpl bind.
    destruct ((curr_step st + 1) mod save_interval args =? 0);
      simpl; rewrite ?app_nil_r; reflexivity.
Qed.

(** What [n] steps from a state do. *)
Lemma train_batches_run (args : LoopArgs) (n : nat) :
  2 <= Z.abs (log_interval args) -> save_interval args <> 0 ->
  forall st, 0 <= curr_step st ->
  train_batches args n st
  = Ok {| curr_step := curr_step st + Z.of_nat n;
          logged :=
            logged st
              ++ map (fun s => (s, time_left_at args (s - 1)))
                   (filter (logs_at args)
                      (steps_from (curr_step st + 1) n));
          saved :=
            saved st
              ++ filter (saves_at args) (steps_from (curr_step st + 1) n) |}.
Proof.
  intros Hli Hsi. induction n as [|n IH]; intros st Hstep.
  - simpl. rewrite Z.add_0_r, !app_nil_r. now destruct st.
  - simpl train_batches. rewrite (train_step_run args st Hli Hsi Hstep).
    simpl bind. rewrite IH by (simpl; lia).
    cbn [curr_step logged saved].
    change (steps_from (curr_step st + 1) (S n))
      with ([curr_step st + 1] ++ steps_from (curr_step st + 1 + 1) n).
    rewrite !filter_app, map_app, <- !app_assoc.
    replace (curr_step st + 1 + Z.of_nat n)
      with (curr_step st + Z.of_nat (S n)) by lia.
    reflexivity.
Qed.

Lemma train_epochs_run (args : LoopArgs) (epochs : nat) :
  2 <= Z.abs (log_interval args) -> save_interval args <> 0 ->
  forall st, 0 <= curr_step st ->
  train_epochs args epochs st
  = Ok {| curr_step :=
            curr_step st
              + Z.of_nat (epochs * Z.to_nat (steps_per_epoch args));
          logged :=
            logged st
              ++ map (fun s => (s, time_left_at args (s - 1)))
                   (filter (logs_at args)
                      (steps_from (curr_step st + 1)
                         (epochs * Z.to_nat (steps_per_epoch args))));
          saved :=
            saved st
              ++ filter (saves_at args)
                   (steps_from (curr_step st + 1)
                      (epochs * Z.to_nat (steps_per_epoch args))) |}.
Proof.
  intros Hli Hsi. induction epochs as [|epochs IH]; intros st Hstep.
  - simpl. rewrite Z.add_0_r, !app_nil_r. now destruct st.
  - simpl train_epochs.
    rewrite (train_batches_run args _ Hli Hsi st Hstep). simpl bind.
    rewrite IH by (simpl; lia).
    cbn [curr_step logged saved].
    change (S epochs * Z.to_nat (steps_per_epoch args))%nat
      with (Z.to_nat (steps_per_epoch args)
            + epochs * Z.to_nat (steps_per_epoch args))%nat.
    rewrite steps_from_app, !filter_app, map_app, <- !app_assoc.
    replace (curr_step st + Z.of_nat (Z.to_nat (steps_per_epoch args)) + 1)
      with (curr_step st + 1 + Z.of_nat (Z.to_nat (steps_per_epoch args)))
      by lia.
    rewrite Nat2Z.inj_add, Z.add_assoc. reflexivity.
Qed.

Lemma train_run (args : LoopArgs) :
  2 <= Z.abs (log_interval args) -> save_interval args <> 0 ->
  train args
  = Ok {| curr_step := Z.of_nat (total_steps args);
          logged :=
            map (fun s => (s, time_left_at args (s - 1)))
              (filter (logs_at args) (steps_from 1 (total_steps args)));
          saved :=
            filter (saves_at args) (steps_from 1 (total_steps args)) |}.
Proof.
  intros Hli Hsi. unfold train.
  rewrite (train_epochs_run args _ Hli Hsi) by (simpl; lia).
  reflexivity.
Qed.

(** X12. With a log interval of 2 or more in absolute value and a save
    interval other than 0, the training loop (run without a validation
    file) runs to its end without an arithmetic error, through
    num_epochs * steps_per_epoch steps. *)
Theorem train_returns (args : LoopArgs) :
  2 <= Z.abs (log_interval args) -> save_interval args <> 0 ->
  exists st,
    train args = Ok st /\ curr_step st = Z.of_nat (total_steps args).
Proof.
  intros Hli Hsi. eexists. split; [exact (train_run args Hli Hsi)|].
  reflexivity.
Qed.

Lemma train_returns_witness :
  exists st,
    train (sample_args 100) = Ok st /\
    curr_step st = Z.of_nat (total_steps (sample_args 100)).
Proof.
  apply (train_returns (sample_args 100)).
  - simpl. lia.
  - simpl. lia.
Defined.

(** X13. In a run that ends, a checkpoint is saved at exactly the steps
    (counted from 1) that are multiples of save_interval, each once and in
    increasing order. *)
Theorem train_checkpoints (args : LoopArgs) (st : LoopState) :
  2 <= Z.abs (log_interval args) -> save_interval args <> 0 ->
  train args = Ok st ->
  saved st = filter (saves_at args) (steps_from 1 (total_steps args)) /\
  forall s,
    In s (saved st) <->
    1 <= s <= Z.of_nat (total_steps args) /\ s mod save_interval args = 0.
Proof.
  intros Hli Hsi Hrun. rewrite (train_run args Hli Hsi) in Hrun.
  injection Hrun as <-. cbn [saved]. split; [reflexivity|].
  intros s. rewrite filter_In, steps_from_In. unfold saves_at.
  rewrite Z.eqb_eq. lia.
Qed.

Lemma train_checkpoints_witness :
  exists st,
    train (sample_args 2) = Ok st /\
    (saved st = filter (saves_at (sample_args 2))
                  (steps_from 1 (total_steps (sample_args 2))) /\
     forall s,
       In s (saved st) <->
       1 <= s <= Z.of_nat (total_steps (sample_args 2)) /\
       s mod save_interval (sample_args 2) = 0).
Proof.
  eexists. split; [reflexivity|].
  apply (train_checkpoints (sample_args 2)).
  - simpl. lia.
  - simpl. lia.
  - reflexivity.
Defined.

(** X14. In a run that ends, a line is logged at exactly the steps
    (counted from 1) that are multiples of log_interval and at step 2; no
    line is logged at step 1; and the estimate on the line of step s is
    computed from s - 1 steps: elapsed / (s - 1) * steps_per_epoch *
    num_epochs - elapsed. *)
Theorem train_log_lines (args : LoopArgs) (st : LoopState) :
  2 <= Z.abs (log_interval args) -> save_interval args <> 0 ->
  train args = Ok st ->
  map fst (logged st)
    = filter (logs_at args) (steps_from 1 (total_steps args)) /\
  (forall s t, In (s, t) (logged st) ->
     2 <= s <= Z.of_nat (total_steps args) /\
     (s mod log_interval args = 0 \/ s = 2) /\
     t = time_left_at args (s - 1)).
Proof.
  intros Hli Hsi Hrun. rewrite (train_run args Hli Hsi) in Hrun.
  injection Hrun as <-. cbn [logged]. split.
  - rewrite map_map. simpl. apply map_id.
  - intros s t Hin. apply in_map_iff in Hin.
    destruct Hin as (s' & Heq & Hin). injection Heq as Hs Ht. subst s' t.
    apply filter_In in Hin. destruct Hin as (Hr & Hl).
    apply steps_from_In in Hr. unfold logs_at in Hl.
    apply orb_true_iff in Hl. rewrite !Z.eqb_eq in Hl.
    split; [|split; [exact Hl | reflexivity]].
    split; [|lia].
    destruct (Z.eq_dec s 1) as [->|Hne]; [|lia].
    destruct Hl as [Hl|Hl]; [|lia].
    exfalso. now apply (one_mod_interval _ Hli).
Qed.

Lemma train_log_lines_witness :
  exists st,
    train (sample_args 2) = Ok st /\
    (map fst (logged st)
       = filter (logs_at (sample_args 2))
           (steps_from 1 (total_steps (sample_args 2))) /\
     (forall s t, In (s, t) (logged st) ->
        2 <= s <= Z.of_nat (total_steps (sample_args 2)) /\
        (s mod log_interval (sample_args 2) = 0 \/ s = 2) /\
        t = time_left_at (sample_args 2) (s - 1))).
Proof.
  eexists. split; [reflexivity|].
  apply (train_log_lines (sample_args 2)).
  - simpl. lia.
  - simpl. lia.
  - reflexivity.
Defined.

(** ** sort_batch: no sample lost, none repeated *)

Lemma index_select_Some {A : Type} (t : list A) (idx : list nat) :
  forall r, index_select t idx = Ok r ->
            map (nth_error t) idx = map Some r.
Proof.
  induction idx as [|i idx IH]; intros r; simpl.
  - intros [= <-]. reflexivity.
  - intros H. apply bind_Ok_inv in H. destruct H as (x & Hx & H).
    apply bind_Ok_inv in H. destruct H as (xs & Hxs & H).
    injection H as <-. simpl. rewrite (IH _ Hxs). f_equal.
    unfold py_index in Hx. destruct (nth_error t i); [|discriminate].
    now injection Hx as ->.
Qed.

Lemma map_nth_error_seq {A : Type} (t : list A) :
  map (nth_error t) (seq 0 (length t)) = map Some t.
Proof.
  induction t as [|x t IH]; simpl; [reflexivity|].
  f_equal. rewrite <- seq_shift, map_map. exact IH.
Qed.

Lemma map_Some_inj {A : Type} (l1 l2 : list A) :
  map Some l1 = map Some l2 -> l1 = l2.
Proof.
  revert l2. induction l1 as [|x l1 IH]; intros [|y l2]; simpl;
    try discriminate; [reflexivity|].
  intros H. injection H as -> H. f_equal. now apply IH.
Qed.

(** Indexing by a permutation of the positions permutes the rows. *)
Lemma index_select_Permutation {A : Type} (t : list A) (idx : list nat)
    (r : list A) :
  Permutation idx (seq 0 (length t)) ->
  index_select t idx = Ok r ->
  Permutation r t.
Proof.
  intros Hperm Hsel. apply index_select_Some in Hsel.
  pose proof (Permutation_map (nth_error t) Hperm) as Hp.
  rewrite Hsel, map_nth_error_seq in Hp.
  apply Permutation_sym, Permutation_map_inv in Hp.
  destruct Hp as (l & Hl & Hp). apply map_Some_inj in Hl. subst l.
  now apply Permutation_sym.
Qed.

Lemma nth_error_combine_Some {A B : Type} (a : list A) (b : list B)
    (i : nat) (x : A) (y : B) :
  nth_error a i = Some x -> nth_error b i = Some y ->
  nth_error (combine a b) i = Some (x, y).
Proof.
  revert a b. induction i as [|i IH]; intros [|x' a] [|y' b]; simpl;
    try discriminate.
  - now intros [= ->] [= ->].
  - apply IH.
Qed.

Lemma index_select_combine {A B : Type} (a : list A) (b : list B)
    (idx : list nat) :
  forall a' b',
    index_select a idx = Ok a' -> index_select b idx = Ok b' ->
    index_select (combine a b) idx = Ok (combine a' b').
Proof.
  induction idx as [|i idx IH]; intros a' b'; simpl.
  - intros [= <-] [= <-]. reflexivity.
  - intros Ha Hb.
    apply bind_Ok_inv in Ha. destruct Ha as (x & Hx & Ha).
    apply bind_Ok_inv in Ha. destruct Ha as (xs & Hxs & Ha).
    apply bind_Ok_inv in Hb. destruct Hb as (y & Hy & Hb).
    apply bind_Ok_inv in Hb. destruct Hb as (ys & Hys & Hb).
    injection Ha as <-. injection Hb as <-.
    unfold py_index in *.
    destruct (nth_error a i) as [x0|] eqn:Ea; [|discriminate].
    destruct (nth_error b i) as [y0|] eqn:Eb; [|discriminate].
    injection Hx as ->. injection Hy as ->.
    rewrite (nth_error_combine_Some _ _ _ _ _ Ea Eb). simpl.
    rewrite (IH _ _ Hxs Hys). reflexivity.
Qed.

(** X15. sort_batch loses no sample and repeats none: the samples of the
    sorted batch, each an (image, question, answer, length) tuple, are a
    permutation of the samples of the input batch. *)
Theorem sort_batch_keeps_samples {Image Question Answer : Type}
    (tensor_sort : list Z -> list Z * list nat)
    (images : list Image) (questions : list Question)
    (answers : list Answer) (ques_seq_lens : list Z) :
  sorts_descending tensor_sort ->
  length images = length ques_seq_lens ->
  length questions = length ques_seq_lens ->
  length answers = length ques_seq_lens ->
  exists images' questions' answers' ques_seq_lens',
    sort_batch tensor_sort images questions answers ques_seq_lens
      = Ok (images', questions', answers', ques_seq_lens') /\
    Permutation
      (combine (combine (combine images' questions') answers')
         ques_seq_lens')
      (combine (combine (combine images questions) answers) ques_seq_lens).
Proof.
  intros Hsort Hi Hq Ha.
  destruct (sort_batch_returns tensor_sort Hsort images questions answers
              ques_seq_lens Hi Hq Ha) as (im' & q' & a' & Hrun & Him & Hq' & Ha').
  destruct (Hsort ques_seq_lens) as (Hperm & Hlens & _).
  exists im', q', a', (fst (tensor_sort ques_seq_lens)).
  split; [exact Hrun|].
  apply (index_select_Permutation _ (snd (tensor_sort ques_seq_lens))).
  - rewrite !length_combine, Hi, Hq, Ha, !Nat.min_id. exact Hperm.
  - repeat apply index_select_combine; assumption.
Qed.

Lemma sort_batch_keeps_samples_witness :
  exists images' questions' answers' ques_seq_lens',
    sort_batch stable_sort ["a.jpg"; "b.jpg"; "c.jpg"]
      [[4; 5; 6]; [4; 5; 6; 7; 8]; [9; 4; 6]] [1; 2; 0] [3; 5; 3]
      = Ok (images', questions', answers', ques_seq_lens') /\
    Permutation
      (combine (combine (combine images' questions') answers')
         ques_seq_lens')
      (combine
         (combine
            (combine ["a.jpg"; "b.jpg"; "c.jpg"]
               [[4; 5; 6]; [4; 5; 6; 7; 8]; [9; 4; 6]])
            [1; 2; 0])
         [3; 5; 3]).
Proof.
  apply (sort_batch_keeps_samples stable_sort).
  - exact stable_sort_sorts_descending.
  - reflexivity.
  - reflexivity.
  - reflexivity.
Defined.

(** ** compute_validation_metrics at the end of an epoch *)

(** X16. At the end of an epoch the budget is the size of the validation
    set and the loader (drop_last) yields floor(size / batch_size) full
    batches: the evaluator then consumes every batch of the loader, its
    denominator is the number of samples it evaluated, and the accuracy
    lies between 0 and 100. *)
Theorem validation_end_of_epoch {Image Question : Type}
    (tensor_sort : list Z -> list Z * list nat)
    (model : list Image -> list Question -> list Z -> list (list Q))
    (cross_entropy : list (list Q) -> list Z -> Q)
    (dataloader : DataLoader Image Question) (size : Z) :
  sorts_descending tensor_sort ->
  0 < batch_size dataloader ->
  batch_size dataloader <= size ->
  Forall (full_batch (batch_size dataloader)) (batches dataloader) ->
  len (batches dataloader) = size / batch_size dataloader ->
  exists metrics,
    validation_run tensor_sort model cross_entropy dataloader size
      = Ok (metrics, length (batches dataloader),
            len (batches dataloader) * batch_size dataloader) /\
    (0 <= accuracy metrics)%Q /\ (accuracy metrics <= 100)%Q.
Proof.
  intros Hsort Hbs Hsize Hfull Hlen.
  destruct (validation_run_returns tensor_sort Hsort model cross_entropy
              dataloader size Hbs Hsize Hfull)
    as (ls & nc & consumed & Hrun & Hcons & Hnc).
  assert (Hc : consumed = length (batches dataloader))
    by (unfold len in *; lia).
  subst consumed. rewrite <- Hlen in Hrun.
  eexists. split; [exact Hrun|]. cbn [accuracy].
  assert (Hn : 1 <= size / batch_size dataloader)
    by (apply Z.div_le_lower_bound; lia).
  assert (Htotal : 0 < len (batches dataloader) * batch_size dataloader)
    by nia.
  destruct (percent_bounds nc _ (proj1 Hnc) Htotal) as (Hlo & Hhi).
  split; [exact Hlo|]. apply Hhi. unfold len. nia.
Qed.

Lemma validation_end_of_epoch_witness :
  exists metrics,
    validation_run stable_sort sample_model sample_cross_entropy
      (sample_loader 2) 5
      = Ok (metrics, length (batches (sample_loader 2)),
            len (batches (sample_loader 2)) * batch_size (sample_loader 2)) /\
    (0 <= accuracy metrics)%Q /\ (accuracy metrics <= 100)%Q.
Proof.
  apply (validation_end_of_epoch stable_sort sample_model
           sample_cross_entropy (sample_loader 2) 5).
  - exact stable_sort_sorts_descending.
  - simpl. lia.
  - simpl. lia.
  - exact (sample_loader_full 2).
  - reflexivity.
Defined.

(** ** pad_sequences twice *)

Lemma as_int64_Forall (vals : list Z) :
  forall vs, as_int64 vals = Ok vs ->
             vs = vals /\ Forall (fun x => in_int64 x = true) vals.
Proof.
  induction vals as [|x vals IH]; intros vs; simpl.
  - intros [= <-]. split; [reflexivity | constructor].
  - destruct (in_int64 x) eqn:E; [|discriminate].
    intros H. apply bind_Ok_inv in H. destruct H as (vs' & Hvs & H).
    injection H as <-. destruct (IH _ Hvs) as (-> & Hf).
    split; [reflexivity | now constructor].
Qed.

Lemma In_skipn {A : Type} (n : nat) (l : list A) (x : A) :
  In x (skipn n l) -> In x l.
Proof.
  intros H. rewrite <- (firstn_skipn n l). apply in_or_app. now right.
Qed.

(** An assignment to a slice keeps the length of the array and leaves
    int64 values in it. *)
Lemma np_assign_to_inv (arr : list Z) (stop : nat) (vals r : list Z) :
  np_assign_to arr stop vals = Ok r ->
  Forall (fun x => in_int64 x = true) arr ->
  Forall (fun x => in_int64 x = true) r /\ length r = length arr.
Proof.
  unfold np_assign_to. intros H Harr.
  apply bind_Ok_inv in H. destruct H as (vs & Hvs & H).
  apply as_int64_Forall in Hvs. destruct Hvs as (-> & Hvals).
  assert (Hrest : Forall (fun x => in_int64 x = true)
                    (skipn (Nat.min stop (length arr)) arr)).
  { rewrite Forall_forall in *. intros x Hx. apply Harr.
    eapply In_skipn. exact Hx. }
  destruct (length vals =? Nat.min stop (length arr))%nat eqn:E.
  - injection H as <-. apply Nat.eqb_eq in E. split.
    + apply Forall_app. now split.
    + rewrite length_app, length_skipn. lia.
  - destruct (length vals =? 1)%nat eqn:E1; [|discriminate].
    injection H as <-. split.
    + apply Forall_app. split; [|exact Hrest].
      apply Forall_forall. intros x Hx. apply repeat_spec in Hx. subst x.
      destruct vals as [|v vals]; [reflexivity|].
      inversion Hvals; subst. assumption.
    + rewrite length_app, repeat_length, length_skipn. lia.
Qed.

Lemma pad_sequences_inv (seq padded : list Z) (max_len : Z) :
  pad_sequences seq max_len = Ok padded ->
  0 <= max_len /\
  Forall (fun x => in_int64 x = true) padded /\
  len padded = max_len.
Proof.
  unfold pad_sequences, np_zeros. intros H.
  destruct (max_len <? 0) eqn:E; [discriminate|].
  apply Z.ltb_ge in E. simpl bind in H.
  assert (Hzeros : Forall (fun x => in_int64 x = true)
                     (repeat 0 (Z.to_nat max_len))).
  { apply Forall_forall. intros x Hx. apply repeat_spec in Hx. now subst. }
  split; [exact E|].
  destruct (len seq >? max_len);
    apply np_assign_to_inv in H; try exact Hzeros;
    destruct H as (Hf & Hl); (split; [exact Hf|]);
    unfold len; rewrite Hl, repeat_length; lia.
Qed.

(** X17. Padding is idempotent: whenever pad_sequences returns, padding
    its result again to the same length returns that result unchanged. *)
Theorem pad_sequences_idempotent (seq padded : list Z) (max_len : Z) :
  pad_sequences seq max_len = Ok padded ->
  pad_sequences padded max_len = Ok padded.
Proof.
  intros Hpad. apply pad_sequences_inv in Hpad.
  destruct Hpad as (Hm & Hr & Hlen).
  rewrite pad_sequences_pads; [|exact Hr | lia].
  unfold len in Hlen.
  replace (Z.to_nat max_len - length padded)%nat with 0%nat by lia.
  simpl. now rewrite app_nil_r.
Qed.

Lemma pad_sequences_idempotent_witness :
  pad_sequences [11; 12; 13; 0; 0] 5 = Ok [11; 12; 13; 0; 0].
Proof.
  apply (pad_sequences_idempotent [11; 12; 13] [11; 12; 13; 0; 0] 5).
  reflexivity.
Defined.

(** ** Strings: lengths and decimal digits *)

Lemma string_length_append (a b : string) :
  String.length (a ++ b)%string = (String.length a + String.length b)%nat.
Proof. induction a as [|c a IH]; simpl; [reflexivity | now rewrite IH]. Qed.


Lemma string_append_nil_r (a : string) : (a ++ "")%string = a.
Proof. induction a as [|x a IH]; simpl; [reflexivity | now rewrite IH]. Qed.

Lemma repeat_zero_length (n : nat) :
  String.length (repeat_string n "0") = n.
Proof. induction n as [|n IH]; simpl; [reflexivity | now rewrite IH]. Qed.

Lemma decimal_from_app (a b : string) (acc : Z) :
  decimal_from acc (a ++ b)%string = decimal_from (decimal_from acc a) b.
Proof.
  revert acc. induction a as [|c a IH]; intros acc; simpl;
    [reflexivity | apply IH].
Qed.

Lemma decimal_from_zeros (n : nat) :
  decimal_from 0 (repeat_string n "0") = 0.
Proof. induction n as [|n IH]; simpl; [reflexivity | exact IH]. Qed.

Lemma digit_value_char (d : Z) :
  0 <= d <= 9 -> digit_value (digit_char d) = d.
Proof.
  intros H. unfold digit_value, digit_char.
  rewrite nat_ascii_embedding by lia. lia.
Qed.

Lemma pow10_succ (d : nat) : 10 ^ Z.of_nat (S d) = 10 * 10 ^ Z.of_nat d.
Proof. rewrite Nat2Z.inj_succ, Z.pow_succ_r by lia. reflexivity. Qed.

Lemma pow10_pos (d : nat) : 0 < 10 ^ Z.of_nat d.
Proof. apply Z.pow_pos_nonneg; lia. Qed.

(** A number below 10^d has at most d digits. *)
Lemma digits_length_le (fuel : nat) :
  forall n d, 0 <= n < 10 ^ Z.of_nat d -> (1 <= d)%nat ->
              (String.length (digits fuel n) <= d)%nat.
Proof.
  induction fuel as [|fuel IH]; intros n d Hn Hd; simpl; [lia|].
  destruct (n <? 10) eqn:E; simpl; [lia|].
  apply Z.ltb_ge in E. rewrite string_length_append. simpl.
  destruct d as [|d]; [lia|]. rewrite pow10_succ in Hn.
  destruct d as [|d]; [simpl in Hn; lia|].
  specialize (IH (n / 10) (S d)).
  assert (Hq : 0 <= n / 10 < 10 ^ Z.of_nat (S d)).
  { split; [apply Z.div_pos; lia|].
    apply Z.div_lt_upper_bound; lia. }
  specialize (IH Hq). lia.
Qed.

(** A number of 10^d or more has more than d digits, once the fuel
    covers it. *)
Lemma digits_length_gt (fuel : nat) :
  forall n d, 10 ^ Z.of_nat d <= n -> n < 10 ^ Z.of_nat fuel ->
              (d < String.length (digits fuel n))%nat.
Proof.
  induction fuel as [|fuel IH]; intros n d Hlo Hhi.
  - pose proof (pow10_pos d). simpl in Hhi. lia.
  - simpl digits. destruct (n <? 10) eqn:E.
    + apply Z.ltb_lt in E. destruct d as [|d]; [simpl; lia|].
      rewrite pow10_succ in Hlo. pose proof (pow10_pos d). lia.
    + apply Z.ltb_ge in E. rewrite string_length_append. simpl.
      destruct d as [|d]; [lia|].
      rewrite pow10_succ in Hlo, Hhi.
      specialize (IH (n / 10) d).
      assert (H1 : 10 ^ Z.of_nat d <= n / 10)
        by (apply Z.div_le_lower_bound; lia).
      assert (H2 : n / 10 < 10 ^ Z.of_nat fuel)
        by (apply Z.div_lt_upper_bound; lia).
      specialize (IH H1 H2). lia.
Qed.

(** The digits write the number. *)
Lemma digits_value (fuel : nat) :
  forall n, 0 <= n < 10 ^ Z.of_nat fuel ->
            decimal_value (digits fuel n) = n.
Proof.
  unfold decimal_value.
  induction fuel as [|fuel IH]; intros n Hn.
  - simpl in Hn. simpl. lia.
  - simpl digits. destruct (n <? 10) eqn:E.
    + apply Z.ltb_lt in E. simpl. rewrite digit_value_char; lia.
    + apply Z.ltb_ge in E. rewrite decimal_from_app.
      rewrite pow10_succ in Hn.
      rewrite IH.
      * cbn [decimal_from]. rewrite digit_value_char.
        -- pose proof (Z.div_mod n 10). lia.
        -- pose proof (Z.mod_pos_bound n 10). lia.
      * split; [apply Z.div_pos; lia|].
        apply Z.div_lt_upper_bound; lia.
Qed.

Lemma str_fuel_covers (n : Z) :
  0 <= n -> n < 10 ^ Z.of_nat (S (Z.to_nat (Z.log2 n))).
Proof.
  intros Hn. destruct (Z.eq_dec n 0) as [->|Hne]; [reflexivity|].
  pose proof (Z.log2_nonneg n) as Hl.
  destruct (Z.log2_spec n) as (_ & Hhi); [lia|].
  rewrite Nat2Z.inj_succ, Z2Nat.id by exact Hl.
  eapply Z.lt_le_trans; [exact Hhi|].
  apply Z.pow_le_mono_l. lia.
Qed.

Lemma str_of_int_nonneg (n : Z) :
  0 <= n -> str_of_int n = digits (S (Z.to_nat (Z.log2 n))) n.
Proof.
  intros Hn. unfold str_of_int.
  now replace (n <? 0) with false by (symmetry; apply Z.ltb_ge; lia).
Qed.

(** ** pad_with_zero *)

(** X18. For an image id num >= 0, pad_with_zero writes num in decimal
    with leading zeros: read back as a number it is num; it has exactly 6
    characters (5 without balanced_real_images) when num is below 10^6
    (10^5); and a larger id is written unpadded, with more characters than
    that. *)
Theorem pad_with_zero_width (num : Z) (balanced_real_images : bool) :
  0 <= num ->
  decimal_value (pad_with_zero num balanced_real_images) = num /\
  (num < 10 ^ (if balanced_real_images then 6 else 5) ->
   Z.of_nat (String.length (pad_with_zero num balanced_real_images))
   = (if balanced_real_images then 6 else 5)) /\
  (10 ^ (if balanced_real_images then 6 else 5) <= num ->
   pad_with_zero num balanced_real_images = str_of_int num /\
   (if balanced_real_images then 6 else 5)
   < Z.of_nat (String.length (pad_with_zero num balanced_real_images))).
Proof.
  intros Hn. unfold pad_with_zero, py_mul_string.
  rewrite (str_of_int_nonneg num Hn).
  set (fuel := S (Z.to_nat (Z.log2 num))).
  pose proof (str_fuel_covers num Hn) as Hfuel. fold fuel in Hfuel.
  set (d := if balanced_real_images then 6%nat else 5%nat).
  assert (Hd : (if balanced_real_images then 6 else 5) = Z.of_nat d)
    by (unfold d; destruct balanced_real_images; reflexivity).
  rewrite !Hd.
  assert (Hd1 : (1 <= d)%nat)
    by (unfold d; destruct balanced_real_images; lia).
  split; [|split].
  - unfold decimal_value. rewrite decimal_from_app, decimal_from_zeros.
    apply digits_value. lia.
  - intros Hlt.
    pose proof (digits_length_le fuel num d (conj Hn Hlt) Hd1) as Hle.
    rewrite string_length_append, repeat_zero_length. lia.
  - intros Hge.
    pose proof (digits_length_gt fuel num d Hge Hfuel) as Hgt.
    replace (Z.to_nat (Z.of_nat d
                       - Z.of_nat (String.length (digits fuel num))))
      with 0%nat by lia.
    cbn [repeat_string String.append]. split; [reflexivity | lia].
Qed.

Lemma pad_with_zero_width_witness :
  decimal_value (pad_with_zero 9 true) = 9 /\
  (9 < 10 ^ 6 -> Z.of_nat (String.length (pad_with_zero 9 true)) = 6) /\
  (10 ^ 6 <= 9 ->
   pad_with_zero 9 true = str_of_int 9 /\
   6 < Z.of_nat (String.length (pad_with_zero 9 true))).
Proof.
  apply (pad_with_zero_width 9 true). lia.
Defined.

(** The id of the first training image, and one too long for the name. *)
Lemma pad_with_zero_examples :
  pad_with_zero 9 true = "000009" /\
  pad_with_zero 1234567 true = "1234567" /\
  pad_with_zero 123 false = "00123".
Proof. repeat split. Qed.

(** ** The corpus line: what is written is what is read *)

Lemma split_app_sep (sep : ascii) (a b : string) :
  has_char sep a = false ->
  split sep (a ++ String sep b)%string = a :: split sep b.
Proof.
  induction a as [|c a IH]; simpl; intros H.
  - now rewrite Ascii.eqb_refl.
  - apply orb_false_iff in H. destruct H as (Hc & Ha).
    rewrite Hc, (IH Ha). reflexivity.
Qed.

Lemma split_no_sep (sep : ascii) (a : string) :
  has_char sep a = false -> split sep a = [a].
Proof.
  induction a as [|c a IH]; simpl; intros H; [reflexivity|].
  apply orb_false_iff in H. destruct H as (Hc & Ha).
  rewrite Hc, (IH Ha). reflexivity.
Qed.

Lemma all_chars_app (p : ascii -> bool) (a b : string) :
  all_chars p (a ++ b)%string = all_chars p a && all_chars p b.
Proof.
  induction a as [|c a IH]; simpl; [reflexivity|].
  now rewrite IH, andb_assoc.
Qed.

Lemma all_chars_has_char (p : ascii -> bool) (c : ascii) (s : string) :
  all_chars p s = true -> p c = false -> has_char c s = false.
Proof.
  intros Hall Hc. induction s as [|x s IH]; simpl in *; [reflexivity|].
  apply andb_true_iff in Hall. destruct Hall as (Hx & Hs).
  rewrite (IH Hs), orb_false_r.
  destruct (Ascii.eqb x c) eqn:E; [|reflexivity].
  apply Ascii.eqb_eq in E. subst x. congruence.
Qed.

(** The words of [s.split()] hold no whitespace. *)
Lemma split_ws_words (s : string) :
  Forall (fun w => all_chars not_space w = true) (split_ws s).
Proof.
  induction s as [|c s IH]; simpl; [constructor|].
  destruct (is_space c) eqn:Ec; [exact IH|].
  assert (Hc : not_space c = true) by (unfold not_space; now rewrite Ec).
  destruct s as [|c' s'].
  - constructor; [simpl; now rewrite Hc | constructor].
  - destruct (is_space c') eqn:Ec'.
    + constructor; [simpl; now rewrite Hc | exact IH].
    + destruct (split_ws (String c' s')) as [|w ws].
      * constructor; [simpl; now rewrite Hc | constructor].
      * inversion IH as [|? ? Hw Hws]; subst.
        constructor; [simpl; now rewrite Hc, Hw | exact Hws].
Qed.

Lemma join_all_chars (p : ascii -> bool) (sep : string)
    (words : list string) :
  all_chars p sep = true ->
  Forall (fun w => all_chars p w = true) words ->
  all_chars p (join sep words) = true.
Proof.
  intros Hsep. induction 1 as [|w words Hw Hws IH]; [reflexivity|].
  destruct words as [|w' words]; [exact Hw|].
  change (join sep (w :: w' :: words))
    with (w ++ sep ++ join sep (w' :: words))%string.
  rewrite !all_chars_app, Hw, Hsep, IH. reflexivity.
Qed.

(** The question prepare_data writes holds no whitespace, so no tab and
    no end of line. *)
Lemma comma_question_no_space (question : string) :
  all_chars not_space (comma_question question) = true.
Proof.
  unfold comma_question. apply join_all_chars; [reflexivity|].
  apply split_ws_words.
Qed.

Lemma rstrip_no_space (s : string) :
  all_chars not_space s = true -> rstrip s = s.
Proof.
  induction s as [|c s IH]; simpl; [reflexivity|].
  intros H. apply andb_true_iff in H. destruct H as (Hc & Hs).
  rewrite (IH Hs). unfold not_space in Hc. apply negb_true_iff in Hc.
  destruct s; [now rewrite Hc | reflexivity].
Qed.

Lemma strip_no_space (s : string) :
  all_chars not_space s = true -> strip s = s.
Proof.
  intros H. unfold strip.
  assert (Hl : lstrip s = s).
  { destruct s as [|c s]; [reflexivity|]. simpl in *.
    apply andb_true_iff in H. destruct H as (Hc & _).
    unfold not_space in Hc. apply negb_true_iff in Hc. now rewrite Hc. }
  rewrite Hl. now apply rstrip_no_space.
Qed.

Lemma record_line_fields (img question answer : string) :
  has_char tab img = false -> has_char tab question = false ->
  split tab (record_line img question answer)
  = img :: question :: split tab answer.
Proof.
  intros Hi Hq. unfold record_line.
  rewrite (split_app_sep tab img _ Hi), (split_app_sep tab question _ Hq).
  reflexivity.
Qed.

(** X19. A line prepare_data writes for an image name without a tab is
    read back by the vocabulary code as it was written: build_vocab
    tokenizes exactly the comma-joined question, which the strip leaves
    unchanged, and build_answer counts the stripped answer when the answer
    holds no tab. *)
Theorem corpus_line_read_back (tokenize : string -> result (list string))
    (img question answer : string) (wds : list string) :
  has_char tab img = false ->
  tokenize (comma_question question) = Ok wds ->
  strip (comma_question question) = comma_question question /\
  corpus_words tokenize
    [record_line img (comma_question question) answer] = Ok wds /\
  (has_char tab answer = false ->
   corpus_answers [record_line img (comma_question question) answer]
   = Ok [strip answer]).
Proof.
  intros Hi Htok.
  pose proof (comma_question_no_space question) as Hns.
  assert (Hq : has_char tab (comma_question question) = false)
    by (apply (all_chars_has_char not_space); [exact Hns | reflexivity]).
  pose proof (record_line_fields img _ answer Hi Hq) as Hf.
  pose proof (strip_no_space _ Hns) as Hs.
  split; [exact Hs|]. split.
  - simpl. rewrite Hf. unfold py_index. simpl. rewrite Hs, Htok. simpl.
    now rewrite app_nil_r.
  - intros Ha. simpl. rewrite Hf, (split_no_sep tab answer Ha).
    reflexivity.
Qed.

Lemma corpus_line_read_back_witness :
  strip (comma_question "Is it  a cat") = comma_question "Is it  a cat" /\
  corpus_words (tokenize_with comma_nlp)
    [record_line "a.jpg" (comma_question "Is it  a cat") "yes"]
    = Ok ["Is"; "it"; "a"; "cat"] /\
  (has_char tab "yes" = false ->
   corpus_answers
     [record_line "a.jpg" (comma_question "Is it  a cat") "yes"]
   = Ok [strip "yes"]).
Proof.
  apply (corpus_line_read_back (tokenize_with comma_nlp)
           "a.jpg" "Is it  a cat" "yes").
  - reflexivity.
  - reflexivity.
Defined.






(** ** The corpus file: the lines written are the lines read *)







(** A last record with an empty answer loses its answer field to the
    strip of the whole text. *)
Lemma corpus_file_empty_last_answer :
  split newline
    (strip (corpus_file [ record_line "a.jpg" "is,it" "yes";
                          record_line "b.jpg" "what" "" ]))
  = [ record_line "a.jpg" "is,it" "yes";
      ("b.jpg" ++ String tab "what")%string ].
Proof. reflexivity. Qed.

(** ** build_vocab: a reserved token that is not kept *)

(** X22. A reserved token that is not among the kept corpus words keeps
    its reserved index in word2idx, and idx2word maps that index back to
    the token, whatever else the corpus holds. *)
Theorem reserved_token_kept_in_place
    (tokenize : string -> result (list string)) (data : list string)
    (min_word_count : Z) (word2idx : dict) (idx2word : dict)
    (max_sequence_length : Z) (words : list string) (token : string)
    (reserved_idx : Z) :
  build_vocab_with tokenize data min_word_count
    = Ok (word2idx, idx2word, max_sequence_length) ->
  corpus_words tokenize data = Ok words ->
  dict_get String.eqb helper_tokens token = Some reserved_idx ->
  ~ In token (kept_words min_word_count words) ->
  dict_get String.eqb word2idx token = Some reserved_idx /\
  dict_get Z.eqb idx2word reserved_idx = Some token.
Proof.
  intros Hbuild Hwords Hres Hnot.
  destruct (vocab_tokens_are_kept_words _ _ _ _ _ _ _ Hbuild Hwords)
    as (Hw & Hi).
  assert (Hget : dict_get String.eqb word2idx token = Some reserved_idx).
  { rewrite Hw, (dict_update_get_other String.eqb string_eqb_eq).
    - exact Hres.
    - now rewrite map_fst_swap, enumerate_from_values. }
  split; [exact Hget|].
  rewrite Hi. apply swap_lookup; [|exact Hget].
  apply build_vocab_with_inv in Hbuild.
  destruct Hbuild as (wc & vt & _ & Hsel & Hw' & _).
  destruct (select_words_inv _ _ _ _ _ _ (Z.le_refl 4) vocab_inv_empty Hsel)
    as (idx' & _ & Hinv).
  rewrite Hw'. eapply word2idx_values_NoDup. exact Hinv.
Qed.

Lemma reserved_token_kept_in_place_witness :
  dict_get String.eqb sample_word2idx "<PAD>" = Some 0 /\
  dict_get Z.eqb sample_idx2word 0 = Some "<PAD>".
Proof.
  apply (reserved_token_kept_in_place (tokenize_with comma_nlp)
           sample_corpus 1 sample_word2idx sample_idx2word 4
           words_of_sample_corpus).
  - reflexivity.
  - reflexivity.
  - reflexivity.
  - vm_compute. intros [H|[H|[H|[H|[]]]]]; discriminate.
Defined.

(** ** build_answer: ties *)

Lemma before_cons {A : Type} (l : list A) (x p q : A) :
  before l p q -> before (x :: l) p q.
Proof.
  intros (l1 & l2 & l3 & ->). exists (x :: l1), l2, l3. reflexivity.
Qed.

Lemma before_head {A : Type} (l : list A) (x z : A) :
  In z l -> before (x :: l) x z.
Proof.
  intros H. apply in_split in H. destruct H as (l2 & l3 & ->).
  exists [], l2, l3. reflexivity.
Qed.

Lemma before_map {A B : Type} (f : A -> B) (l : list A) (p q : A) :
  before l p q -> before (map f l) (f p) (f q).
Proof.
  intros (l1 & l2 & l3 & ->).
  exists (map f l1), (map f l2), (map f l3).
  rewrite map_app. simpl. rewrite map_app. reflexivity.
Qed.

Lemma StronglySorted_impl {A : Type} (R S : A -> A -> Prop) (l : list A) :
  (forall x y, R x y -> S x y) ->
  StronglySorted R l -> StronglySorted S l.
Proof.
  intros HRS. induction 1 as [|x l Hs IH Hx]; constructor.
  - exact IH.
  - rewrite Forall_forall in *. intros y Hy. apply HRS, Hx, Hy.
Qed.

Lemma insert_desc_stable {A : Type} (key : A -> Z) (l : list A) (x : A)
    (s : list A) :
  (forall z, In z s -> In z l) ->
  StronglySorted (stable_order key l) s ->
  StronglySorted (stable_order key (x :: l)) (insert_desc key x s).
Proof.
  intros Hsub Hs.
  assert (Hlift : forall p q, stable_order key l p q ->
                              stable_order key (x :: l) p q).
  { intros p q [H|(H1 & H2)]; [now left|].
    right. split; [exact H1 | now apply before_cons]. }
  induction Hs as [|y s Hs IH Hy]; simpl.
  - constructor; constructor.
  - destruct (key x <? key y) eqn:E.
    + apply Z.ltb_lt in E. constructor.
      * apply IH. intros z Hz. apply Hsub. now right.
      * apply Forall_forall. intros z Hz.
        apply insert_desc_In in Hz. destruct Hz as [->|Hz].
        -- now left.
        -- rewrite Forall_forall in Hy. apply Hlift, Hy, Hz.
    + apply Z.ltb_ge in E. constructor.
      * apply (StronglySorted_impl _ _ _ Hlift). now constructor.
      * apply Forall_forall. intros z Hz.
        assert (Hkz : key z <= key x).
        { destruct Hz as [->|Hz]; [exact E|].
          rewrite Forall_forall in Hy.
          destruct (Hy z Hz) as [H|(H & _)]; lia. }
        destruct (Z.eq_dec (key z) (key x)) as [Heq|Hne].
        -- right. split; [exact Heq|]. apply before_head, Hsub, Hz.
        -- left. lia.
Qed.

Lemma sorted_desc_stable {A : Type} (key : A -> Z) (l : list A) :
  StronglySorted (stable_order key l) (sorted_desc key l).
Proof.
  induction l as [|x l IH]; simpl; [constructor|].
  apply insert_desc_stable; [|exact IH].
  intros z Hz. now apply sorted_desc_In in Hz.
Qed.

Lemma StronglySorted_nth {A : Type} (R : A -> A -> Prop) (l : list A) :
  StronglySorted R l ->
  forall i j x y, (i < j)%nat ->
    nth_error l i = Some x -> nth_error l j = Some y -> R x y.
Proof.
  induction 1 as [|z l Hs IH Hz]; intros i j x y Hij Hi Hj.
  - destruct i; discriminate.
  - destruct j as [|j]; [lia|]. destruct i as [|i]; simpl in *.
    + injection Hi as <-. rewrite Forall_forall in Hz.
      apply Hz. eapply nth_error_In. exact Hj.
    + eapply IH; [|exact Hi | exact Hj]. lia.
Qed.

Lemma enumerate_from_nth {A : Type} (l : list A) (i j : Z) (x : A) :
  In (j, x) (enumerate_from i l) ->
  nth_error l (Z.to_nat (j - i)) = Some x.
Proof.
  revert i. induction l as [|y l IH]; intros i; simpl; [intros []|].
  intros [H|H].
  - injection H as <- <-. now rewrite Z.sub_diag.
  - pose proof (enumerate_from_In _ _ _ _ H) as Hr.
    apply IH in H.
    replace (Z.to_nat (j - i)) with (S (Z.to_nat (j - (i + 1)))) by lia.
    exact H.
Qed.

(** The keys of the answer counts are the answers in the order they were
    first met. *)
Lemma count_answers_keys_order (data : list string) :
  forall answer_frequency r answers,
    count_answers data answer_frequency = Ok r ->
    corpus_answers data = Ok answers ->
    dict_keys r
    = dict_keys answer_frequency
        ++ first_occurrences_from (dict_keys answer_frequency) answers.
Proof.
  induction data as [|sample data IH]; intros af r answers; simpl.
  - intros [= <-] [= <-]. simpl. now rewrite app_nil_r.
  - intros H Ha. apply bind_Ok_inv in H. destruct H as (field & Hf & H).
    rewrite Hf in Ha. simpl in Ha.
    apply bind_Ok_inv in Ha. destruct Ha as (rest & Hrest & Ha).
    injection Ha as <-. rewrite (IH _ _ _ H Hrest). simpl.
    destruct (dict_get String.eqb af (strip field)) as [c|] eqn:E.
    + assert (Hin : In (strip field) (dict_keys af))
        by (eapply dict_get_Some_key; [exact string_eqb_eq | exact E]).
      rewrite (dict_set_keys_hit String.eqb string_eqb_eq) by exact Hin.
      now rewrite (proj2 (existsb_eqb_In _ _) Hin).
    + apply (dict_get_None String.eqb string_eqb_eq) in E.
      rewrite (dict_set_fresh String.eqb string_eqb_eq) by exact E.
      assert (Hex : existsb (String.eqb (strip field)) (dict_keys af)
                    = false).
      { destruct (existsb (String.eqb (strip field)) (dict_keys af)) eqn:Ex;
          [|reflexivity].
        apply existsb_eqb_In in Ex. contradiction. }
      rewrite Hex. unfold dict_keys. rewrite map_app. simpl.
      now rewrite <- app_assoc.
Qed.

(** X23. For K >= 0 the selected answers are numbered by descending
    count, and a tie is broken by the corpus order: of two labels with
    indices 1 <= i < j, the one at i occurs more often than the one at j,
    or as often and its first occurrence in the corpus comes first (the
    sort is stable and the counts are kept in order of first sight). *)
Theorem build_answer_tie_break (data : list string) (K : Z)
    (label2idx : dict) (idx2label : dict) (answers : list string)
    (i j : Z) (a b : string) :
  build_answer data K = Ok (label2idx, idx2label) ->
  corpus_answers data = Ok answers ->
  0 <= K ->
  1 <= i < j ->
  dict_get Z.eqb idx2label i = Some a ->
  dict_get Z.eqb idx2label j = Some b ->
  occurrences b answers < occurrences a answers \/
  (occurrences b answers = occurrences a answers /\
   before (first_occurrences answers) a b).
Proof.
  intros Hb Hans HK Hij Hga Hgb.
  apply build_answer_inv in Hb.
  destruct Hb as (af & top & Haf & Htop & _ & Hi).
  rewrite (dict_of_items_fresh Z.eqb Z_eqb_eq) in Hi
    by apply enumerate_from_keys_NoDup.
  subst idx2label.
  apply (dict_get_In Z.eqb Z_eqb_eq) in Hga, Hgb.
  unfold enumerate in Hga, Hgb. simpl in Hga, Hgb.
  destruct Hga as [Hga|Hga]; [injection Hga as H0 _; lia|].
  destruct Hgb as [Hgb|Hgb]; [injection Hgb as H0 _; lia|].
  apply enumerate_from_nth in Hga, Hgb.
  unfold py_slice_to in Htop.
  replace (0 <=? K) with true in Htop by (symmetry; apply Z.leb_le; lia).
  subst top. rewrite nth_error_map in Hga, Hgb.
  set (s := sorted_desc snd af) in *.
  destruct (nth_error (firstn (Z.to_nat K) s) (Z.to_nat (i - 1)))
    as [[a' ca]|] eqn:Ea; [|discriminate].
  destruct (nth_error (firstn (Z.to_nat K) s) (Z.to_nat (j - 1)))
    as [[b' cb]|] eqn:Eb; [|discriminate].
  simpl in Hga, Hgb. injection Hga as ->. injection Hgb as ->.
  assert (Hna : nth_error s (Z.to_nat (i - 1)) = Some (a, ca)).
  { rewrite nth_error_firstn in Ea.
    destruct (Z.to_nat (i - 1) <? Z.to_nat K)%nat;
      [exact Ea | discriminate]. }
  assert (Hnb : nth_error s (Z.to_nat (j - 1)) = Some (b, cb)).
  { rewrite nth_error_firstn in Eb.
    destruct (Z.to_nat (j - 1) <? Z.to_nat K)%nat;
      [exact Eb | discriminate]. }
  assert (Hord : stable_order snd af (a, ca) (b, cb)).
  { eapply (StronglySorted_nth _ _ (sorted_desc_stable snd af));
      [|exact Hna | exact Hnb]. lia. }
  pose proof (count_answers_keys_NoDup _ _ _ Haf (NoDup_nil _)) as Hnd.
  assert (Hcount : forall x c, In (x, c) af -> c = occurrences x answers).
  { intros x c Hin.
    apply (In_dict_get String.eqb string_eqb_eq _ _ _ Hnd) in Hin.
    destruct (count_answers_get _ _ _ Haf) as (ans' & Ha' & Hget).
    rewrite Hans in Ha'. injection Ha' as <-.
    rewrite Hget in Hin. simpl in Hin.
    destruct (occurrences x answers =? 0); congruence. }
  assert (Hca : ca = occurrences a answers).
  { apply Hcount. apply (sorted_desc_In snd).
    eapply nth_error_In. exact Hna. }
  assert (Hcb : cb = occurrences b answers).
  { apply Hcount. apply (sorted_desc_In snd).
    eapply nth_error_In. exact Hnb. }
  subst ca cb.
  destruct Hord as [H|(H1 & H2)]; [left; exact H|].
  right. split; [exact H1|].
  apply (before_map fst) in H2. simpl in H2.
  pose proof (count_answers_keys_order _ _ _ _ Haf Hans) as Hkeys.
  unfold dict_keys in Hkeys. simpl in Hkeys.
  unfold first_occurrences. now rewrite <- Hkeys.
Qed.

Lemma build_answer_tie_break_witness :
  occurrences "cat" ["dog"; "cat"; "dog"; "cat"; "fish"]
    < occurrences "dog" ["dog"; "cat"; "dog"; "cat"; "fish"] \/
  (occurrences "cat" ["dog"; "cat"; "dog"; "cat"; "fish"]
     = occurrences "dog" ["dog"; "cat"; "dog"; "cat"; "fish"] /\
   before (first_occurrences ["dog"; "cat"; "dog"; "cat"; "fish"])
     "dog" "cat").
Proof.
  apply (build_answer_tie_break
           [ record_line "a.jpg" "q" "dog"; record_line "b.jpg" "q" "cat";
             record_line "c.jpg" "q" "dog"; record_line "d.jpg" "q" "cat";
             record_line "e.jpg" "q" "fish" ] 2
           [("UNKNOWN", 0); ("dog", 1); ("cat", 2)]
           [(0, "UNKNOWN"); (1, "dog"); (2, "cat")]
           ["dog"; "cat"; "dog"; "cat"; "fish"] 1 2 "dog" "cat").
  - reflexivity.
  - reflexivity.
  - lia.
  - lia.
  - reflexivity.
  - reflexivity.
Defined.
